(** * DataScrub Pro: the cleaning engine

    A shallow embedding of [src/utils/cleaningEngine.ts] (engine v4.3)
    and the properties of its specification that concern the row parser,
    the separator detector, the cell transforms, the type inferencer and
    the streaming row pipeline [processFile].

    Conventions.
    - A JavaScript string is the list of its UTF-16 code units, each a
      number in [N].  String literals of the source that are plain ASCII
      are written with [lit]; the others are written by code unit.
    - A JavaScript number that the source uses as a counter or an index
      is an integer ([N], [Z] or [nat]); the two places where the source
      computes with fractions (the progress percentage and the 70%
      threshold of the type inferencer) use IEEE binary64 through the
      executable specification [SpecFloat] of the Standard Library.
    - What the host provides and the repository does not define is a
      parameter of the definitions that use it: the [Date] parser, the
      UTF-8 decoder of [FileReader] and [Math.random].
    - [String.prototype.toLowerCase] and [toUpperCase] are embedded on
      the Basic Latin block; code units from U+0080 on are left as they
      are.  The embedding is exact on strings of code units below
      U+0080, and on every string the engine has sanitised first. *)

From Stdlib Require Import String Ascii.
From Stdlib Require Import List NArith ZArith Bool Lia.
From Stdlib Require Import Floats.SpecFloat.
Import ListNotations.

(* ====================================================================== *)
(** * JavaScript strings *)
(* ====================================================================== *)

Module JS.

Definition jschar := N.
Definition jsstring := list jschar.

(** An ASCII literal of the source as a list of code units. *)
Definition lit (s : string) : jsstring :=
  map N_of_ascii (list_ascii_of_string s).

Local Open Scope N_scope.

Definition inRange (lo hi c : N) : bool := (lo <=? c) && (c <=? hi).

(** [\d], [[A-Z]], [[a-z]] and [[a-zA-Z0-9_]]. *)
Definition isDigit (c : jschar) : bool := inRange 48 57 c.
Definition isUpper (c : jschar) : bool := inRange 65 90 c.
Definition isLower (c : jschar) : bool := inRange 97 122 c.
Definition isAlpha (c : jschar) : bool := isUpper c || isLower c.
Definition isWordChar (c : jschar) : bool :=
  isAlpha c || isDigit c || (c =? 95).

(** [\s] of a regular expression and the characters [trim] removes:
    ECMAScript WhiteSpace and LineTerminator. *)
Definition isWhiteSpace (c : jschar) : bool :=
  inRange 9 13 c || (c =? 32) || (c =? 160) || (c =? 5760)
  || inRange 8192 8202 c || (c =? 8232) || (c =? 8233) || (c =? 8239)
  || (c =? 8287) || (c =? 12288) || (c =? 65279).

Definition isAscii (c : jschar) : bool := c <? 128.

Definition lowerChar (c : jschar) : jschar := if isUpper c then c + 32 else c.
Definition upperChar (c : jschar) : jschar := if isLower c then c - 32 else c.

Definition toLowerCase (s : jsstring) : jsstring := map lowerChar s.
Definition toUpperCase (s : jsstring) : jsstring := map upperChar s.

(** Equality of two code units under the [i] flag of a regular
    expression without the [u] flag, when one of them is ASCII. *)
Definition ciEq (a b : jschar) : bool := upperChar a =? upperChar b.

Fixpoint streqb (a b : jsstring) : bool :=
  match a, b with
  | [], [] => true
  | x :: a', y :: b' => (x =? y) && streqb a' b'
  | _, _ => false
  end.

Fixpoint trimStart (s : jsstring) : jsstring :=
  match s with
  | [] => []
  | c :: r => if isWhiteSpace c then trimStart r else s
  end.

Definition trimEnd (s : jsstring) : jsstring := rev (trimStart (rev s)).

Definition trim (s : jsstring) : jsstring := trimEnd (trimStart s).

(** [!s.trim()]: the string is empty or all white space. *)
Definition isBlank (s : jsstring) : bool :=
  match trim s with [] => true | _ => false end.

Section Prefix.
Variable eqc : jschar -> jschar -> bool.

Fixpoint prefixBy (p s : jsstring) : bool :=
  match p, s with
  | [], _ => true
  | a :: p', b :: s' => eqc a b && prefixBy p' s'
  | _ :: _, [] => false
  end.

(** [s.split(pat).join(rep)] and [s.replace(/pat/g, rep)] for a literal,
    non-empty [pat]: matches are taken from the left and do not overlap.
    [skip] counts the code units of the current match still to drop. *)
Fixpoint replaceAllBy (pat rep : jsstring) (skip : nat) (s : jsstring)
  : jsstring :=
  match s with
  | [] => []
  | c :: r =>
      match skip with
      | S k => replaceAllBy pat rep k r
      | O => if prefixBy pat s
             then rep ++ replaceAllBy pat rep (length pat - 1) r
             else c :: replaceAllBy pat rep 0 r
      end
  end.

(** [s.replace(pat, rep)] for a string [pat]: the first match only. *)
Fixpoint replaceFirstBy (pat rep : jsstring) (s : jsstring) : jsstring :=
  match s with
  | [] => []
  | c :: r => if prefixBy pat s
              then rep ++ skipn (length pat) s
              else c :: replaceFirstBy pat rep r
  end.
End Prefix.

Definition startsWith (p s : jsstring) : bool := prefixBy N.eqb p s.
Definition endsWith (suf s : jsstring) : bool := startsWith (rev suf) (rev s).

Fixpoint includes (p s : jsstring) : bool :=
  startsWith p s || match s with [] => false | _ :: s' => includes p s' end.

Definition replaceAll (pat rep s : jsstring) : jsstring :=
  replaceAllBy N.eqb pat rep 0 s.
Definition replaceAllCI (pat rep s : jsstring) : jsstring :=
  replaceAllBy ciEq pat rep 0 s.
Definition replaceFirst (pat rep s : jsstring) : jsstring :=
  replaceFirstBy N.eqb pat rep s.

(** [s.replace(/[class]/g, '')]. *)
Definition removeChars (p : jschar -> bool) (s : jsstring) : jsstring :=
  filter (fun c => negb (p c)) s.

(** [s.replace(/[class]/g, by)] for a one-unit replacement. *)
Definition mapChars (p : jschar -> bool) (by_ : jschar) (s : jsstring)
  : jsstring :=
  map (fun c => if p c then by_ else c) s.

(** [s.replace(/[class]+/g, rep)]: every maximal run becomes [rep]. *)
Fixpoint collapseRuns (p : jschar -> bool) (rep : jsstring) (inRun : bool)
  (s : jsstring) : jsstring :=
  match s with
  | [] => []
  | c :: r =>
      if p c
      then (if inRun then [] else rep) ++ collapseRuns p rep true r
      else c :: collapseRuns p rep false r
  end.

(** [l.join(sep)]. *)
Fixpoint join (sep : jsstring) (l : list jsstring) : jsstring :=
  match l with
  | [] => []
  | [x] => x
  | x :: r => x ++ sep ++ join sep r
  end.

(** [s.split(/\r?\n|\r/)]: the result always has at least one element. *)
Fixpoint splitLines_aux (cur : jsstring) (s : jsstring) : list jsstring :=
  match s with
  | [] => [rev cur]
  | c :: r =>
      if c =? 10 then rev cur :: splitLines_aux [] r
      else if c =? 13 then
        match r with
        | d :: r' =>
            if d =? 10 then rev cur :: splitLines_aux [] r'
            else rev cur :: splitLines_aux [] r
        | [] => rev cur :: splitLines_aux [] r
        end
      else splitLines_aux (c :: cur) r
  end.

Definition splitLines (s : jsstring) : list jsstring := splitLines_aux [] s.

(** [String(n)] for a non-negative integer. *)
Fixpoint decimal_aux (fuel : nat) (n : N) (acc : jsstring) : jsstring :=
  match fuel with
  | O => acc
  | S f =>
      let acc' := (48 + n mod 10) :: acc in
      if n <? 10 then acc' else decimal_aux f (n / 10) acc'
  end.

Definition decimal (n : N) : jsstring :=
  decimal_aux (S (N.to_nat (N.log2 n))) n [].

(** [s.padStart(2, '0')]. *)
Definition padStart2 (s : jsstring) : jsstring :=
  match s with
  | [] => [48; 48]
  | [c] => [48; c]
  | _ => s
  end.

(** [parseInt(s, 10)] on a string of decimal digits. *)
Definition parseDigits (s : jsstring) : N :=
  fold_left (fun acc c => 10 * acc + (c - 48)) s 0.

(** [s.substring(a, b)] for [a <= b]. *)
Definition substring (a b : nat) (s : jsstring) : jsstring :=
  firstn (b - a) (skipn a s).

(** [count] of the code units of [s] equal to [c]:
    [(s.match(/c/g) || []).length]. *)
Definition countChar (c : jschar) (s : jsstring) : nat :=
  length (filter (N.eqb c) s).

End JS.

Import JS.

(* ====================================================================== *)
(** * Regular expressions *)
(* ====================================================================== *)

(** The regular expressions of the source are written as terms of [re]
    and decided by Brzozowski derivatives.  [Chr p] is a character class
    given by its membership test. *)

Module Regex.

Inductive re : Type :=
| Void : re
| Eps : re
| Chr : (jschar -> bool) -> re
| Cat : re -> re -> re
| Alt : re -> re -> re
| Star : re -> re.

Fixpoint nullable (r : re) : bool :=
  match r with
  | Void => false
  | Eps => true
  | Chr _ => false
  | Cat a b => nullable a && nullable b
  | Alt a b => nullable a || nullable b
  | Star _ => true
  end.

(** Constructors that drop the branches that can no longer match, so
    that derivatives stay small. *)
Definition mkCat (a b : re) : re :=
  match a with
  | Void => Void
  | Eps => b
  | _ => Cat a b
  end.

Definition mkAlt (a b : re) : re :=
  match a, b with
  | Void, _ => b
  | _, Void => a
  | _, _ => Alt a b
  end.

Fixpoint deriv (c : jschar) (r : re) : re :=
  match r with
  | Void => Void
  | Eps => Void
  | Chr p => if p c then Eps else Void
  | Cat a b =>
      if nullable a
      then mkAlt (mkCat (deriv c a) b) (deriv c b)
      else mkCat (deriv c a) b
  | Alt a b => mkAlt (deriv c a) (deriv c b)
  | Star a => mkCat (deriv c a) (Star a)
  end.

Fixpoint derivs (s : jsstring) (r : re) : re :=
  match s with
  | [] => r
  | c :: s' => derivs s' (deriv c r)
  end.

(** [/^r$/.test(s)] *)
Definition fullMatch (r : re) (s : jsstring) : bool := nullable (derivs s r).

Definition anyChar : re := Chr (fun _ => true).

(** [/r/.test(s)]: some substring of [s] matches. *)
Definition test (r : re) (s : jsstring) : bool :=
  fullMatch (Cat (Star anyChar) (Cat r (Star anyChar))) s.

(** Derived forms. *)
Definition Plus (r : re) : re := Cat r (Star r).
Definition Opt (r : re) : re := Alt Eps r.
Definition chr (c : jschar) : re := Chr (N.eqb c).
Definition chrCI (c : jschar) : re := Chr (ciEq c).
Definition notChr (p : jschar -> bool) : re := Chr (fun c => negb (p c)).

Fixpoint Lit (s : jsstring) : re :=
  match s with
  | [] => Eps
  | [c] => chr c
  | c :: s' => Cat (chr c) (Lit s')
  end.

Fixpoint LitCI (s : jsstring) : re :=
  match s with
  | [] => Eps
  | [c] => chrCI c
  | c :: s' => Cat (chrCI c) (LitCI s')
  end.

(** [r{n}] and [r{lo,hi}]. *)
Fixpoint Rep (n : nat) (r : re) : re :=
  match n with
  | O => Eps
  | 1%nat => r
  | S k => Cat r (Rep k r)
  end.

Fixpoint UpTo (n : nat) (r : re) : re :=
  match n with
  | O => Eps
  | S k => Opt (Cat r (UpTo k r))
  end.

Definition RepRange (lo hi : nat) (r : re) : re :=
  match (hi - lo)%nat with
  | O => Rep lo r
  | d => Cat (Rep lo r) (UpTo d r)
  end.

(** [a|b|c|...] *)
Fixpoint Alts (l : list re) : re :=
  match l with
  | [] => Void
  | [r] => r
  | r :: l' => Alt r (Alts l')
  end.

Definition digit : re := Chr isDigit.

(** The language of a regular expression. *)
Inductive lang : re -> jsstring -> Prop :=
| LEps : lang Eps []
| LChr : forall p c, p c = true -> lang (Chr p) [c]
| LCat : forall a b s t, lang a s -> lang b t -> lang (Cat a b) (s ++ t)
| LAltL : forall a b s, lang a s -> lang (Alt a b) s
| LAltR : forall a b s, lang b s -> lang (Alt a b) s
| LStar0 : forall a, lang (Star a) []
| LStarS : forall a s t, lang a s -> lang (Star a) t -> lang (Star a) (s ++ t).

End Regex.

Import Regex.

(* ====================================================================== *)
(** * The engine: parser, separator detector, serialiser *)
(* ====================================================================== *)

Local Open Scope N_scope.

Definition dquote : jschar := 34.
Definition comma : jschar := 44.
Definition tab : jschar := 9.
Definition semicolon : jschar := 59.
Definition pipe : jschar := 124.
Definition LF : jschar := 10.
Definition CR : jschar := 13.
Definition BOM : jschar := 65279.

(** [s.includes(c)] for a one-unit string [c]. *)
Definition hasChar (c : jschar) (s : jsstring) : bool := existsb (N.eqb c) s.

(** [s.replace(/c/g, rep)] for a single code unit [c]. *)
Definition replaceChar (c : jschar) (rep : jsstring) (s : jsstring)
  : jsstring :=
  flat_map (fun x => if x =? c then rep else [x]) s.

(** ** [parseCSVLine] *)

(** The end of a cell: [cell.trim()], and when the trimmed text starts
    and ends with a quote, [trimmed.slice(1, -1)]. *)
Definition finishCell (cell : jsstring) : jsstring :=
  let trimmed := trim cell in
  if startsWith [dquote] trimmed && endsWith [dquote] trimmed
  then removelast (tl trimmed)
  else trimmed.

(** The [while (i < line.length)] loop, on the text from index [i] on.
    The look-ahead [line[i + 1]] is the head of the rest. *)
Fixpoint parseLoop (sep : jsstring) (cells : list jsstring) (cell : jsstring)
  (inQuotes : bool) (line : jsstring) : list jsstring :=
  match line with
  | [] => cells ++ [finishCell cell]
  | ch :: rest =>
      if inQuotes then
        if ch =? dquote then
          match rest with
          | ch2 :: rest' =>
              if ch2 =? dquote
              then parseLoop sep cells (cell ++ [dquote]) true rest'
              else parseLoop sep cells cell false rest
          | [] => parseLoop sep cells cell false rest
          end
        else parseLoop sep cells (cell ++ [ch]) true rest
      else
        if ch =? dquote then parseLoop sep cells cell true rest
        else if streqb [ch] sep
             then parseLoop sep (cells ++ [finishCell cell]) [] false rest
             else parseLoop sep cells (cell ++ [ch]) false rest
  end.

Definition parseCSVLine (line sep : jsstring) : list jsstring :=
  parseLoop sep [] [] false line.

(** ** [detectSeparator] *)

(** The entries of [counts], in insertion order. *)
Definition separatorCounts (line : jsstring) : list (jsstring * nat) :=
  [ ([comma], countChar comma line);
    ([tab], countChar tab line);
    ([semicolon], countChar semicolon line);
    ([pipe], countChar pipe line) ].

(** [entries.sort((a, b) => b[1] - a[1])]: the sort of the host is
    stable, so it is the stable sort by decreasing count. *)
Fixpoint insertDesc (x : jsstring * nat) (l : list (jsstring * nat))
  : list (jsstring * nat) :=
  match l with
  | [] => [x]
  | y :: l' => if (snd y <=? snd x)%nat then x :: l else y :: insertDesc x l'
  end.

Definition sortDesc (l : list (jsstring * nat)) : list (jsstring * nat) :=
  fold_right insertDesc [] l.

Definition detectSeparator (line : jsstring) : jsstring :=
  match sortDesc (separatorCounts line) with
  | (k, _) :: _ => k
  | [] => []
  end.

(** ** [quoteCell] *)

(** [None] stands for [null] and [undefined]. *)
Definition quoteCell (value : option jsstring) : jsstring :=
  match value with
  | None => []
  | Some str =>
      if hasChar comma str || hasChar dquote str
         || hasChar LF str || hasChar CR str
      then [dquote] ++ replaceChar dquote [dquote; dquote] str ++ [dquote]
      else str
  end.

(** ** [sanitizeColumnName] *)

Definition dropBOM (s : jsstring) : jsstring :=
  match s with
  | c :: r => if c =? BOM then r else s
  | [] => []
  end.

Definition isUnderscore (c : jschar) : bool := c =? 95.

Fixpoint dropWhile (p : jschar -> bool) (s : jsstring) : jsstring :=
  match s with
  | [] => []
  | c :: r => if p c then dropWhile p r else s
  end.

Fixpoint takeWhile (p : jschar -> bool) (s : jsstring) : jsstring :=
  match s with
  | [] => []
  | c :: r => if p c then c :: takeWhile p r else []
  end.

(** [s.replace(/^_+|_+$/g, '')] *)
Definition stripUnderscores (s : jsstring) : jsstring :=
  rev (dropWhile isUnderscore (rev (dropWhile isUnderscore s))).

(** [rnd] is [Math.random().toString(36).substring(2, 7)]. *)
Definition sanitizeColumnName (rnd : jsstring) (name : jsstring) : jsstring :=
  let s := toLowerCase
             (collapseRuns isUnderscore [95] false
                (stripUnderscores
                   (mapChars (fun c => negb (isWordChar c)) 95
                      (dropBOM (trim name))))) in
  match s with
  | [] => lit "col_" ++ rnd
  | _ => s
  end.

(** ** The cell transforms *)

Definition looksLikeEmail (str : jsstring) : bool :=
  negb (streqb str []) && hasChar 64 str && (5 <? length str)%nat.

(** [[^\s@]] *)
Definition notSpaceAt (c : jschar) : bool :=
  negb (isWhiteSpace c || (c =? 64)).

(** [/^[^\s@]+@[^\s@]+\.[^\s@]+$/] *)
Definition emailShape : re :=
  Cat (Plus (Chr notSpaceAt))
      (Cat (chr 64)
           (Cat (Plus (Chr notSpaceAt))
                (Cat (chr 46) (Plus (Chr notSpaceAt))))).

Definition domainFixes : list (jsstring * jsstring) :=
  [ (lit "gmial.com", lit "gmail.com"); (lit "gmai.com", lit "gmail.com");
    (lit "gamil.com", lit "gmail.com"); (lit "gnail.com", lit "gmail.com");
    (lit "gmail.co", lit "gmail.com"); (lit "gmail.con", lit "gmail.com");
    (lit "yahooo.com", lit "yahoo.com"); (lit "yahoo.con", lit "yahoo.com");
    (lit "hotmial.com", lit "hotmail.com");
    (lit "hotmail.con", lit "hotmail.com");
    (lit "outlok.com", lit "outlook.com");
    (lit "outlook.con", lit "outlook.com") ].

(** The [for (const [typo, correct] of domainFixes)] loop with its
    [break]. *)
Fixpoint applyDomainFixes (fixes : list (jsstring * jsstring))
  (fixed : jsstring) : jsstring :=
  match fixes with
  | [] => fixed
  | (typo, correct) :: more =>
      if endsWith (64 :: typo) fixed
      then replaceFirst (64 :: typo) (64 :: correct) fixed
      else applyDomainFixes more fixed
  end.

Definition fixEmail (email : jsstring) : jsstring :=
  match email with
  | [] => email
  | _ =>
      let fixed :=
        collapseRuns (N.eqb 46) [46] false
          (collapseRuns (N.eqb comma) [comma] false
             (removeChars isWhiteSpace (trim (toLowerCase email)))) in
      let fixed := applyDomainFixes domainFixes fixed in
      if fullMatch emailShape fixed then fixed else email
  end.

(** [[\d\s\+\-\.\(\)]] *)
Definition isPhoneChar (c : jschar) : bool :=
  isDigit c || isWhiteSpace c || (c =? 43) || (c =? 45) || (c =? 46)
  || (c =? 40) || (c =? 41).

Definition looksLikePhone (str : jsstring) : bool :=
  match str with
  | [] => false
  | _ =>
      let trimmed := trim str in
      let stripped := removeChars isPhoneChar trimmed in
      if (0 <? length stripped)%nat then false
      else
        let digits := filter isDigit trimmed in
        (7 <=? length digits)%nat && (length digits <=? 15)%nat
  end.

(** [/phone|mobile|cell|fax|tel|contact_no|contact_num|whatsapp/i] *)
Definition phoneWords : list jsstring :=
  [ lit "phone"; lit "mobile"; lit "cell"; lit "fax"; lit "tel";
    lit "contact_no"; lit "contact_num"; lit "whatsapp" ].

Definition phoneColumnPattern : re := Alts (map LitCI phoneWords).

Definition isPhoneColumnName (colName : jsstring) : bool :=
  test phoneColumnPattern colName.

Definition standardizePhoneFn (phone : jsstring) : jsstring :=
  match phone with
  | [] => phone
  | _ =>
      let digits := filter isDigit phone in
      let n := length digits in
      if (n =? 10)%nat then
        lit "(" ++ substring 0 3 digits ++ lit ") " ++ substring 3 6 digits
        ++ lit "-" ++ skipn 6 digits
      else if (n =? 11)%nat && (hd 0 digits =? 49) then
        lit "+1 (" ++ substring 1 4 digits ++ lit ") "
        ++ substring 4 7 digits ++ lit "-" ++ skipn 7 digits
      else if (11 <=? n)%nat then
        let cc := substring 0 (n - 10) digits in
        let rest := skipn (n - 10) digits in
        lit "+" ++ cc ++ lit " (" ++ substring 0 3 rest ++ lit ") "
        ++ substring 3 6 rest ++ lit "-" ++ skipn 6 rest
      else phone
  end.

(** [word.charAt(0).toUpperCase() + word.slice(1).toLowerCase()] on every
    word of [str.split(/(\s+)/)], the white-space tokens kept as they are. *)
Fixpoint titleCase (atStart : bool) (s : jsstring) : jsstring :=
  match s with
  | [] => []
  | c :: r =>
      if isWhiteSpace c then c :: titleCase true r
      else (if atStart then upperChar c else lowerChar c) :: titleCase false r
  end.

(** [/^(first|last|middle|full)?_?name$|^city$|^country$|^state$|^street$|^address$/i] *)
Definition nameLikeColumn : re :=
  Alts [ Cat (Opt (Alts (map LitCI [lit "first"; lit "last"; lit "middle";
                                    lit "full"])))
             (Cat (Opt (chr 95)) (LitCI (lit "name")));
         LitCI (lit "city"); LitCI (lit "country"); LitCI (lit "state");
         LitCI (lit "street"); LitCI (lit "address") ].

Definition normalizeCaseFn (str columnName : jsstring) : jsstring :=
  match str with
  | [] => str
  | _ =>
      let lower := toLowerCase columnName in
      if test (Alt (Lit (lit "email")) (Lit (lit "e_mail"))) lower
      then toLowerCase str
      else if test (Alts (map Lit [lit "url"; lit "website"; lit "href";
                                   lit "link"])) lower
      then toLowerCase str
      else if fullMatch nameLikeColumn lower then titleCase true str
      else str
  end.

(** [[\x00-\x08\x0B\x0C\x0E-\x1F\x7F]] *)
Definition isControlChar (c : jschar) : bool :=
  inRange 0 8 c || (c =? 11) || (c =? 12) || inRange 14 31 c || (c =? 127).

Definition removeSpecialCharsFn (str : jsstring) : jsstring :=
  match str with
  | [] => str
  | _ => removeChars isControlChar str
  end.

(** [s.replace(/<[^>]*>/g, '')]: a [<] opens a tag when a [>] follows
    somewhere; the tag ends at the first [>]. *)
Fixpoint stripTags (inTag : bool) (s : jsstring) : jsstring :=
  match s with
  | [] => []
  | c :: r =>
      if inTag then (if c =? 62 then stripTags false r else stripTags true r)
      else if (c =? 60) && hasChar 62 r then stripTags true r
      else c :: stripTags false r
  end.

Definition removeHtmlTagsFn (str : jsstring) : jsstring :=
  match str with
  | [] => str
  | _ =>
      replaceAllCI (lit "&#039;") (lit "'")
        (replaceAllCI (lit "&quot;") [dquote]
           (replaceAllCI (lit "&gt;") (lit ">")
              (replaceAllCI (lit "&lt;") (lit "<")
                 (replaceAllCI (lit "&amp;") (lit "&")
                    (replaceAllCI (lit "&nbsp;") (lit " ")
                       (stripTags false str))))))
  end.

(** [[$€£¥₹]] *)
Definition isCurrency (c : jschar) : bool :=
  (c =? 36) || (c =? 8364) || (c =? 163) || (c =? 165) || (c =? 8377).

(** [/^\d{1,3}(,\d{3})+(\.\d+)?$/] *)
Definition groupedNumber : re :=
  Cat (RepRange 1 3 digit)
      (Cat (Plus (Cat (chr comma) (Rep 3 digit)))
           (Opt (Cat (chr 46) (Plus digit)))).

Definition fixNumberFormat (str : jsstring) : jsstring :=
  match str with
  | [] => str
  | _ =>
      let cleaned := trim (removeChars isCurrency str) in
      if fullMatch groupedNumber cleaned
      then replaceChar comma [] cleaned
      else str
  end.

Definition encodingFixes : list (jsstring * jsstring) :=
  [ ([195; 169], [233]); ([195; 168], [232]); ([195; 160], [224]);
    ([195; 162], [226]); ([195; 174], [238]); ([195; 180], [244]);
    ([195; 187], [251]); ([195; 167], [231]); ([195; 188], [252]);
    ([195; 182], [246]); ([195; 164], [228]); ([195; 177], [241]);
    ([226; 128; 153], [39]); ([226; 128; 156], [34]);
    ([226; 128; 157], [34]); ([226; 128; 148], [8212]);
    ([226; 128; 147], [8211]); ([226; 128; 166], [8230]);
    ([194; 160], [32]); ([194; 176], [176]) ].

Definition fixEncodingIssues (str : jsstring) : jsstring :=
  match str with
  | [] => str
  | _ =>
      dropBOM
        (fold_left
           (fun result fix_ =>
              if includes (fst fix_) result
              then replaceAll (fst fix_) (snd fix_) result
              else result)
           encodingFixes str)
  end.

Definition fuzzyNormalize (str : jsstring) : jsstring :=
  removeChars (fun c => negb (isLower c || isDigit c))
    (removeChars isWhiteSpace (toLowerCase str)).

Definition getEolChar (eol : jsstring) : jsstring :=
  if streqb eol (lit "CRLF") then [CR; LF]
  else if streqb eol (lit "CR") then [CR]
  else if streqb eol (lit "LFCR") then [LF; CR]
  else if streqb eol (lit "NEL") then [133]
  else if streqb eol (lit "LS") then [8232]
  else if streqb eol (lit "PS") then [8233]
  else [LF].

(* ====================================================================== *)
(** * Numbers with a fraction: IEEE binary64 *)
(* ====================================================================== *)

Module F64.

Definition f64 := spec_float.
Definition ofZ (z : Z) : f64 := binary_normalize 53 1024 z 0 false.
Definition ofN (n : N) : f64 := ofZ (Z.of_N n).
Definition ofNat (n : nat) : f64 := ofZ (Z.of_nat n).
Definition mul : f64 -> f64 -> f64 := SFmul 53 1024.
Definition div : f64 -> f64 -> f64 := SFdiv 53 1024.
Definition add : f64 -> f64 -> f64 := SFadd 53 1024.
Definition ltb : f64 -> f64 -> bool := SFltb.
Definition leb : f64 -> f64 -> bool := SFleb.

(** The literal [0.7]: the binary64 number nearest to 7/10. *)
Definition c0_7 : f64 := S754_finite false 6305039478318694 (-53).

(** [Math.min(a, b)] *)
Definition min (a b : f64) : f64 :=
  match SFcompare a b with
  | Some Gt => b
  | Some _ => a
  | None => S754_nan
  end.

(** A list of numbers never decreases from one element to the next. *)
Fixpoint nondecreasing (l : list f64) : bool :=
  match l with
  | a :: ((b :: _) as r) => leb a b && nondecreasing r
  | _ => true
  end.

End F64.

(* ====================================================================== *)
(** * Configuration and results *)
(* ====================================================================== *)

Inductive Mode : Type := standard | advanced.

Record CleaningConfig : Type := {
  tableName : jsstring;
  pkColumn : jsstring;
  eol : jsstring;
  encoding : jsstring;
  mode : Mode;
  removeDuplicates : bool;
  removeEmpty : bool;
  trimWhitespace : bool;
  normalizeValues : bool;
  fixEncoding : bool;
  fuzzyDuplicates : bool;
  validateEmail : bool;
  standardizePhone : bool;
  normalizeCase : bool;
  standardizeDate : bool;
  detectOutliers : bool;
  removeSpecialChars : bool;
  crossFieldValidation : bool;
  fillMissing : bool;
  standardizeAddress : bool;
  removeHtmlTags : bool;
  fixNumberFormats : bool;
  generateId : bool;
  removeRowsWithEmptyValues : bool
}.

Record CleaningStats : Type := {
  original : N;
  cleaned : N;
  removed : Z;
  cols : nat;
  fixed : N
}.

(** The type tags [detectColumnTypes] writes. *)
Inductive ColumnType : Type :=
| TTinyint | TSmallint | TInt | TBigint | TDecimalMoney | TDecimal | TBool
| TDate | TEmail | TLongtext | TText | TVarcharLong | TVarchar.

(** [ColumnTypes = Record<string, string>]: the latest tag written for a
    header is the one found. *)
Definition ColumnTypes := list (jsstring * ColumnType).

Definition recordSet (k : jsstring) (v : ColumnType) (t : ColumnTypes)
  : ColumnTypes := (k, v) :: t.

Fixpoint recordGet (k : jsstring) (t : ColumnTypes) : option ColumnType :=
  match t with
  | [] => None
  | (k', v) :: r => if streqb k k' then Some v else recordGet k r
  end.

(** ** The null sentinels *)

(** The alternatives of the expression of the [normalizeValues] step,
    [/^(null|NULL|Null|N\/A|n\/a|NA|na|none|None|NONE|undefined|Undefined|nil|NIL|\?|#N\/A|#VALUE!|#REF!|#NAME\?|#DIV\/0!|-|—|\.{2,})$/],
    but for the last one. *)
Definition nullTokens : list jsstring :=
  [ lit "null"; lit "NULL"; lit "Null"; lit "N/A"; lit "n/a"; lit "NA";
    lit "na"; lit "none"; lit "None"; lit "NONE"; lit "undefined";
    lit "Undefined"; lit "nil"; lit "NIL"; lit "?"; lit "#N/A";
    lit "#VALUE!"; lit "#REF!"; lit "#NAME?"; lit "#DIV/0!"; lit "-";
    [8212] ].

(** [\.{2,}] *)
Definition dots2 : re := Cat (Rep 2 (chr 46)) (Star (chr 46)).

Definition nullSentinel : re := Alt (Alts (map Lit nullTokens)) dots2.

(** The body of the [normalizeValues] map: the new cell and whether it
    counts as fixed. *)
Definition normalizeCell (c : jsstring) : jsstring * bool :=
  let val := trim c in
  if fullMatch nullSentinel val then ([], true) else (val, false).

(** [/^(null|NULL|N\/A|na|none|undefined|nil|\?|-)$/i], the expression
    of the type inferencer. *)
Definition nullSentinelCI : re :=
  Alts (map LitCI [ lit "null"; lit "NULL"; lit "N/A"; lit "na"; lit "none";
                    lit "undefined"; lit "nil"; lit "?"; lit "-" ]).

(** ** Cell counts *)

Definition nonEmpty (s : jsstring) : bool :=
  match s with [] => false | _ => true end.

(** [while (cells.length < n) cells.push('')] *)
Definition padTo (n : nat) (cells : list jsstring) : list jsstring :=
  cells ++ repeat [] (n - length cells).

(** The final clamp of a row to the width [n]. *)
Definition clampTo (n : nat) (cells : list jsstring) : list jsstring :=
  let cells := if (length cells <? n)%nat then padTo n cells else cells in
  if (n <? length cells)%nat then firstn n cells else cells.

(** [l.filter((_, i) => i !== idx)] *)
Fixpoint dropIndex_from {A : Type} (i : Z) (idx : Z) (l : list A) : list A :=
  match l with
  | [] => []
  | x :: r =>
      if (i =? idx)%Z then dropIndex_from (i + 1) idx r
      else x :: dropIndex_from (i + 1) idx r
  end.

Definition dropIndex {A : Type} (idx : Z) (l : list A) : list A :=
  dropIndex_from 0 idx l.

(** [l.findIndex(p)] *)
Fixpoint findIndex_from {A : Type} (p : A -> bool) (i : Z) (l : list A) : Z :=
  match l with
  | [] => (-1)%Z
  | x :: r => if p x then i else findIndex_from p (i + 1) r
  end.

Definition findIndex {A : Type} (p : A -> bool) (l : list A) : Z :=
  findIndex_from p 0 l.

(** [row.map(c => quoteCell(c)).join(',')] *)
Definition serializeRow (cells : list jsstring) : jsstring :=
  join [comma] (map (fun c => quoteCell (Some c)) cells).

(** ** De-duplication of the column names *)

(** [nameCount] is an object used as a map.  A name it does not own is
    looked up in [Object.prototype]; of the names found there only
    [constructor] can be a sanitised column name, and incrementing what
    is found there gives [NaN], written [None]. *)
Definition inheritedName (h : jsstring) : bool :=
  streqb h (lit "constructor").

Fixpoint ownCount (h : jsstring) (nameCount : list (jsstring * option N))
  : option (option N) :=
  match nameCount with
  | [] => None
  | (k, v) :: r => if streqb h k then Some v else ownCount h r
  end.

Fixpoint dedupNames (nameCount : list (jsstring * option N))
  (hs : list jsstring) : list jsstring :=
  match hs with
  | [] => []
  | h :: r =>
      match ownCount h nameCount with
      | Some (Some k) =>
          (h ++ [95] ++ decimal (k + 1))
            :: dedupNames ((h, Some (k + 1)) :: nameCount) r
      | Some None =>
          (h ++ [95] ++ lit "NaN") :: dedupNames nameCount r
      | None =>
          if inheritedName h
          then (h ++ [95] ++ lit "NaN") :: dedupNames ((h, None) :: nameCount) r
          else h :: dedupNames ((h, Some 0) :: nameCount) r
      end
  end.

(* ====================================================================== *)
(** * What the host provides *)
(* ====================================================================== *)

Section Host.

(** [new Date(str)]: [None] when the time value is [NaN], and otherwise
    [getFullYear()], [getMonth()] and [getDate()] of the date. *)
Variable parseDate : jsstring -> option (Z * N * N).

(** [FileReader.readAsText(blob, 'UTF-8')] on the bytes of one window. *)
Variable readChunkAsText : list Byte.byte -> jsstring.

(** [Math.random().toString(36).substring(2, 7)] at the call for the
    header of the given position. *)
Variable randomSuffix : nat -> jsstring.

(** ** Dates *)

Definition sepClass (c : jschar) : bool := (c =? 47) || (c =? 45) || (c =? 46).

Definition datePatterns : list re :=
  let d12 := RepRange 1 2 digit in
  let d4 := Rep 4 digit in
  let letters := Plus (Chr isAlpha) in
  let sp := chr 32 in
  [ Cat d4 (Cat (chr 45) (Cat d12 (Cat (chr 45) d12)));
    Cat d12 (Cat (chr 47) (Cat d12 (Cat (chr 47) d4)));
    Cat d12 (Cat (chr 45) (Cat d12 (Cat (chr 45) d4)));
    Cat d4 (Cat (chr 47) (Cat d12 (Cat (chr 47) d12)));
    Cat d12 (Cat (chr 46) (Cat d12 (Cat (chr 46) d4)));
    Cat d4 (Cat (chr 46) (Cat d12 (Cat (chr 46) d12)));
    Cat letters (Cat sp (Cat d12 (Cat (Opt (chr comma)) (Cat sp d4))));
    Cat d12 (Cat sp (Cat letters (Cat sp d4))) ].

Definition yearInRange (y : Z) : bool := ((1900 <=? y) && (y <=? 2100))%Z.

(** The loop over the patterns returns at the first pattern that matches
    when the date is valid; when it is not, no later pattern can return
    anything else, the date being the same. *)
Definition isValidDate (str : jsstring) : bool :=
  if negb (nonEmpty str) || (length str <? 6)%nat || (30 <? length str)%nat
  then false
  else if fullMatch (Plus digit) str && (8 <? length str)%nat then false
  else if existsb (fun p => fullMatch p (trim str)) datePatterns then
    match parseDate str with
    | Some (y, _, _) => yearInRange y
    | None => false
    end
  else false.

(** [dateStr.match(/^(\d{1,2})[\/\-\.](\d{1,2})[\/\-\.](\d{4})$/)] with
    its three groups. *)
Definition matchDMY (s : jsstring)
  : option (jsstring * jsstring * jsstring) :=
  let d := takeWhile isDigit s in
  match dropWhile isDigit s with
  | s1 :: r1 =>
      let m := takeWhile isDigit r1 in
      match dropWhile isDigit r1 with
      | s2 :: y =>
          if ((1 <=? length d) && (length d <=? 2) && (1 <=? length m)
              && (length m <=? 2) && (length y =? 4))%nat
             && sepClass s1 && sepClass s2 && forallb isDigit y
          then Some (d, m, y)
          else None
      | [] => None
      end
  | [] => None
  end.

Definition ymd (y m d : jsstring) : jsstring :=
  y ++ [45] ++ padStart2 m ++ [45] ++ padStart2 d.

Definition standardizeDateFn (dateStr : jsstring) : jsstring :=
  match dateStr with
  | [] => dateStr
  | _ =>
      let viaDate :=
        match parseDate dateStr with
        | Some (year, month, day) =>
            if yearInRange year
            then ymd (decimal (Z.to_N year)) (decimal (month + 1)) (decimal day)
            else dateStr
        | None => dateStr
        end in
      match matchDMY dateStr with
      | Some (d, m, y) =>
          let day := parseDigits d in
          let month := parseDigits m in
          if (12 <? day) && (month <=? 12)
          then ymd y (decimal month) (decimal day)
          else viaDate
      | None => viaDate
      end
  end.

(** ** [detectColumnTypes] *)

(** [/^-?\d+$/], [/^-?\d*\.?\d+([eE][+-]?\d+)?$/] and
    [/^(true|false|yes|no|0|1|t|f|y|n)$/i] *)
Definition integerShape : re := Cat (Opt (chr 45)) (Plus digit).

Definition decimalShape : re :=
  Cat (Opt (chr 45))
      (Cat (Star digit)
           (Cat (Opt (chr 46))
                (Cat (Plus digit)
                     (Opt (Cat (Chr (fun c => (c =? 101) || (c =? 69)))
                               (Cat (Opt (Chr (fun c => (c =? 43) || (c =? 45))))
                                    (Plus digit))))))).

Definition booleanShape : re :=
  Alts (map LitCI [ lit "true"; lit "false"; lit "yes"; lit "no"; lit "0";
                    lit "1"; lit "t"; lit "f"; lit "y"; lit "n" ]).

(** [Math.abs(parseInt(v, 10))] on a string of [integerShape]. *)
Definition absInt (v : jsstring) : N :=
  parseDigits (filter isDigit v).

(** [p = v.split('.'); p[1] ? p[1].length : 0] *)
Definition fractionDigits (v : jsstring) : nat :=
  match dropWhile (fun c => negb (c =? 46)) v with
  | [] => O
  | _ :: r => length (takeWhile (fun c => negb (c =? 46)) r)
  end.

Definition maxN (l : list N) : N := fold_left N.max l 0.
Definition maxNat (l : list nat) : nat := fold_left Nat.max l O.

(** [count > values.length * 0.7], in binary64 as the host computes it. *)
Definition overSeventyPercent (count total : nat) : bool :=
  F64.ltb (F64.mul (F64.ofNat total) F64.c0_7) (F64.ofNat count).

(** The values of a column that the inferencer looks at. *)
Definition columnValues (colIndex : nat) (sampleRows : list (list jsstring))
  : list jsstring :=
  filter (fun v => nonEmpty v && negb (fullMatch nullSentinelCI v))
    (map (fun row => trim (nth colIndex row [])) sampleRows).

Definition inferType (values : list jsstring) : ColumnType :=
  match values with
  | [] => TVarchar
  | _ =>
      if forallb (fullMatch integerShape) values then
        let maxVal := maxN (map absInt values) in
        if maxVal <? 128 then TTinyint
        else if maxVal <? 32768 then TSmallint
        else if maxVal <? 2147483648 then TInt
        else TBigint
      else if forallb (fullMatch decimalShape) values then
        if (maxNat (map fractionDigits values) <=? 2)%nat
        then TDecimalMoney else TDecimal
      else if forallb (fullMatch booleanShape) values then TBool
      else
        let dateCount := length (filter isValidDate values) in
        if overSeventyPercent dateCount (length values) then TDate
        else
          let emailCount := length (filter looksLikeEmail values) in
          if overSeventyPercent emailCount (length values) then TEmail
          else
            let maxLen := maxNat (map (@length jschar) values) in
            if (5000 <? maxLen)%nat then TLongtext
            else if (500 <? maxLen)%nat then TText
            else if (255 <? maxLen)%nat then TVarcharLong
            else TVarchar
  end.

Fixpoint detectColumnTypes_from (colIndex : nat) (headers : list jsstring)
  (sampleRows : list (list jsstring)) (types : ColumnTypes) : ColumnTypes :=
  match headers with
  | [] => types
  | header :: more =>
      detectColumnTypes_from (S colIndex) more sampleRows
        (recordSet header (inferType (columnValues colIndex sampleRows)) types)
  end.

Definition detectColumnTypes (headers : list jsstring)
  (sampleRows : list (list jsstring)) : ColumnTypes :=
  detectColumnTypes_from 0 headers sampleRows [].

(** ** [getAllDataRows] *)

Definition reached (maxRows : option nat) (n : nat) : bool :=
  match maxRows with
  | Some (S m) => (S m <=? n)%nat
  | _ => false
  end.

(** The inner loop over the lines of one chunk; the flag tells that
    [maxRows] was reached. *)
Fixpoint rowsOfLines (maxRows : option nat) (sep : jsstring)
  (lines : list jsstring) (rows : list (list jsstring))
  : list (list jsstring) * bool :=
  match lines with
  | [] => (rows, false)
  | line :: more =>
      if isBlank line then rowsOfLines maxRows sep more rows
      else
        let rows' := rows ++ [parseCSVLine line sep] in
        if reached maxRows (length rows') then (rows', true)
        else rowsOfLines maxRows sep more rows'
  end.

Fixpoint getAllDataRows_from (first : bool) (chunks : list jsstring)
  (maxRows : option nat) (sep : jsstring) (rows : list (list jsstring))
  : list (list jsstring) :=
  match chunks with
  | [] => rows
  | chunk :: more =>
      let lines := splitLines chunk in
      let lines := if first then tl lines else lines in
      let (rows', done) := rowsOfLines maxRows sep lines rows in
      if done then rows'
      else getAllDataRows_from false more maxRows sep rows'
  end.

Definition getAllDataRows (chunks : list jsstring) (maxRows : option nat)
  (sep : jsstring) : list (list jsstring) :=
  getAllDataRows_from true chunks maxRows sep [].

(** ** The state of [processFile] *)

(** What the header line fixes for the rest of the run. *)
Record Headers : Type := {
  separator : jsstring;
  rawHeaders : list jsstring;
  fileHeaders : list jsstring;
  sourceIdColIndex : Z;
  hasGeneratedId : bool
}.

Definition noHeaders : Headers :=
  {| separator := []; rawHeaders := []; fileHeaders := [];
     sourceIdColIndex := (-1)%Z; hasGeneratedId := false |}.

(** What the row loop updates.  [outputRows] is not a variable of the
    source: it records, in order, the cells of every row at the moment
    [rowBuffer.push] serialises it. *)
Record RowState : Type := {
  cleanedDataChunks : list jsstring;
  rowBuffer : list jsstring;
  seenHashes : list jsstring;
  fuzzyHashes : list jsstring;
  totalOriginalRows : N;
  totalCleanedRows : N;
  totalFixedCells : N;
  fuzzyDupCount : N;
  columnMismatchCount : N;
  idCounter : N;
  outputRows : list (list jsstring)
}.

Definition initialRows : RowState :=
  {| cleanedDataChunks := []; rowBuffer := []; seenHashes := [];
     fuzzyHashes := []; totalOriginalRows := 0; totalCleanedRows := 0;
     totalFixedCells := 0; fuzzyDupCount := 0; columnMismatchCount := 0;
     idCounter := 1; outputRows := [] |}.

(** The whole state between two windows of the file.  [progress] is the
    list of the percentages passed to [onProgress] so far. *)
Record Run : Type := {
  offset : N;
  leftover : jsstring;
  isFirstChunk : bool;
  hdr : Headers;
  rst : RowState;
  progress : list F64.f64
}.

Record ProcessResult : Type := {
  cleanedChunks : list jsstring;
  headers : list jsstring;
  columnTypes : ColumnTypes;
  stats : CleaningStats;
  separatorOut : jsstring
}.

(** [set.has(key)] *)
Definition setHas (key : jsstring) (set : list jsstring) : bool :=
  existsb (streqb key) set.

(** ** The header line *)

Fixpoint sanitizeAll (i : nat) (cells : list jsstring) : list jsstring :=
  match cells with
  | [] => []
  | h :: r => sanitizeColumnName (randomSuffix i) h :: sanitizeAll (S i) r
  end.

Definition isIdName (h : jsstring) : bool := streqb (toLowerCase h) (lit "id").

(** The header block of the first chunk, from [detectSeparator] to the
    write of [fileHeaders]. *)
Definition readHeaders (cfg : CleaningConfig) (line0 : jsstring) : Headers :=
  let line0 := dropBOM line0 in
  let sep := detectSeparator line0 in
  let raw := dedupNames [] (sanitizeAll 0 (parseCSVLine line0 sep)) in
  if generateId cfg then
    let idx := findIndex isIdName raw in
    if (idx =? -1)%Z then
      {| separator := sep; rawHeaders := raw; fileHeaders := lit "id" :: raw;
         sourceIdColIndex := idx; hasGeneratedId := true |}
    else
      {| separator := sep; rawHeaders := raw;
         fileHeaders := lit "id" :: dropIndex idx raw;
         sourceIdColIndex := idx; hasGeneratedId := true |}
  else
    {| separator := sep; rawHeaders := raw; fileHeaders := raw;
       sourceIdColIndex := (-1)%Z; hasGeneratedId := false |}.

(** ** One row *)

Definition countQuotes (s : jsstring) : nat := countChar dquote s.

(** The merge of the lines of a field with an unbalanced quote: the new
    line and the number of following lines taken. *)
Fixpoint mergeQuotes (budget : nat) (line : jsstring) (rest : list jsstring)
  : jsstring * nat :=
  match budget, rest with
  | S b, next :: rest' =>
      if Nat.odd (countQuotes line)
      then let (l, k) := mergeQuotes b (line ++ [LF] ++ next) rest' in (l, S k)
      else (line, O)
  | _, _ => (line, O)
  end.

(** The [for (m = 1; m <= 10 && li + m < lines.length; m++)] loop: the
    cells of the first attempt of the right width, and its [m]. *)
Fixpoint tryMerge (sep : jsstring) (width : nat) (budget m : nat)
  (attempt : jsstring) (rest : list jsstring)
  : option (list jsstring * nat) :=
  match budget, rest with
  | S b, next :: rest' =>
      let attempt' := attempt ++ [LF] ++ next in
      let attemptCells := parseCSVLine attempt' sep in
      if (length attemptCells =? width)%nat then Some (attemptCells, m)
      else tryMerge sep width b (S m) attempt' rest'
  | _, _ => None
  end.

(** From the line to [rawCells] of the width of [rawHeaders]: the cells,
    the number of following lines taken, and whether the row counts as a
    column mismatch. *)
Definition parseRow (h : Headers) (line : jsstring) (rest : list jsstring)
  : list jsstring * nat * bool :=
  let (line1, k) :=
    if Nat.odd (countQuotes line) then mergeQuotes 50 line rest
    else (line, O) in
  let rest1 := skipn k rest in
  let rawCells := parseCSVLine line1 (separator h) in
  let width := length (rawHeaders h) in
  if (length rawCells =? width)%nat then (rawCells, k, false)
  else
    match tryMerge (separator h) width 10 1 line1 rest1 with
    | Some (cells, m) => (cells, (k + m)%nat, false)
    | None =>
        (if (length rawCells <? width)%nat then padTo width rawCells
         else firstn width rawCells, k, true)
    end.

(** A [map] over the cells that also counts the cells it changed. *)
Definition mapCounting (f : jsstring -> jsstring * bool)
  (cells : list jsstring) : list jsstring * N :=
  fold_right
    (fun c acc =>
       let (c', changed) := f c in
       (c' :: fst acc, if changed then snd acc + 1 else snd acc))
    ([], 0) cells.

Definition changing (f : jsstring -> jsstring) (c : jsstring)
  : jsstring * bool :=
  let r := f c in (r, negb (streqb r c)).

(** [c.replace(/\s+/g, ' ').trim()] *)
Definition squeeze (c : jsstring) : jsstring :=
  trim (collapseRuns isWhiteSpace [32] false c).

Definition standardTransforms (cfg : CleaningConfig) (rawCells : list jsstring)
  : list jsstring * N :=
  let (c1, n1) := if fixEncoding cfg
                  then mapCounting (changing fixEncodingIssues) rawCells
                  else (rawCells, 0) in
  let (c2, n2) := if trimWhitespace cfg
                  then mapCounting (changing squeeze) c1
                  else (c1, 0) in
  let (c3, n3) := if normalizeValues cfg
                  then mapCounting normalizeCell c2
                  else (c2, 0) in
  (c3, n1 + n2 + n3).

(** One guarded transform of the advanced loop:
    [if (cond) { const f = fn(cell); if (f !== cell) { cell = f; cellsFixed++; } }] *)
Definition applyIf (cond : jsstring -> bool) (fn : jsstring -> jsstring)
  (s : jsstring * N) : jsstring * N :=
  let c := fst s in
  if cond c
  then let f := fn c in if streqb f c then s else (f, snd s + 1)
  else s.

(** [/<[^>]+>/] *)
Definition tagLike : re :=
  Cat (chr 60) (Cat (Plus (notChr (N.eqb 62))) (chr 62)).

Definition htmlStep (cfg : CleaningConfig) :=
  applyIf (fun c => removeHtmlTags cfg && nonEmpty c && test tagLike c)
          removeHtmlTagsFn.
Definition emailStep (cfg : CleaningConfig) :=
  applyIf (fun c => validateEmail cfg && looksLikeEmail c) fixEmail.
Definition phoneStep (cfg : CleaningConfig) (colName : jsstring) :=
  applyIf (fun c => standardizePhone cfg && isPhoneColumnName colName
                    && looksLikePhone c)
          standardizePhoneFn.
Definition dateStep (cfg : CleaningConfig) :=
  applyIf (fun c => standardizeDate cfg && isValidDate c) standardizeDateFn.
Definition caseStep (cfg : CleaningConfig) (colName : jsstring) :=
  applyIf (fun c => normalizeCase cfg && nonEmpty c)
          (fun c => normalizeCaseFn c colName).
Definition specialStep (cfg : CleaningConfig) :=
  applyIf (fun c => removeSpecialChars cfg && nonEmpty c) removeSpecialCharsFn.
Definition numberStep (cfg : CleaningConfig) :=
  applyIf (fun c => fixNumberFormats cfg && nonEmpty c) fixNumberFormat.

(** The body of the advanced loop for one cell, in the order of the
    source.  The numeric samples of [detectOutliers] only feed the log
    and are left out. *)
Definition advancedCell (cfg : CleaningConfig) (colName : jsstring)
  (cell : jsstring) : jsstring * N :=
  numberStep cfg
    (specialStep cfg
       (caseStep cfg colName
          (dateStep cfg
             (phoneStep cfg colName
                (emailStep cfg (htmlStep cfg (cell, 0))))))).

Fixpoint advancedLoop (cfg : CleaningConfig) (h : Headers) (i : nat)
  (cells : list jsstring) : list jsstring * N :=
  match cells with
  | [] => ([], 0)
  | c :: r =>
      let (r', n) := advancedLoop cfg h (S i) r in
      if (Z.of_nat i =? sourceIdColIndex h)%Z then (c :: r', n)
      else
        let (c', k) := advancedCell cfg (nth i (rawHeaders h) []) c in
        (c' :: r', k + n)
  end.

Definition dedupeKey (h : Headers) (rawCells : list jsstring) : jsstring :=
  join [0] (dropIndex (sourceIdColIndex h) rawCells).

Definition fuzzyKey (h : Headers) (rawCells : list jsstring) : jsstring :=
  join [0] (map fuzzyNormalize (dropIndex (sourceIdColIndex h) rawCells)).

(** [dataCells]: [rawCells[i]] for every index of [rawHeaders] but that
    of the source id.  The empty string stands for [undefined], which
    [quoteCell] serialises the same way. *)
Definition dataCells (h : Headers) (rawCells : list jsstring)
  : list jsstring :=
  map (fun i => nth i rawCells [])
      (filter (fun i => negb (Z.of_nat i =? sourceIdColIndex h)%Z)
              (seq 0 (length (rawHeaders h)))).

(** The cells of the output row, before the clamp. *)
Definition assemble (h : Headers) (id : N) (rawCells : list jsstring)
  : list jsstring :=
  if hasGeneratedId h then decimal id :: dataCells h rawCells else rawCells.

(** From the assembly of [outputCells] to the flush of the buffer. *)
Definition emitRow (cfg : CleaningConfig) (h : Headers) (s : RowState)
  (rawCells : list jsstring) : RowState :=
  let outputCells :=
    clampTo (length (fileHeaders h)) (assemble h (idCounter s) rawCells) in
  let buffer := rowBuffer s ++ [serializeRow outputCells] in
  let eolChar := getEolChar (eol cfg) in
  let flush := (1000 <=? length buffer)%nat in
  {| cleanedDataChunks :=
       if flush then cleanedDataChunks s ++ [join eolChar buffer ++ eolChar]
       else cleanedDataChunks s;
     rowBuffer := if flush then [] else buffer;
     seenHashes := seenHashes s;
     fuzzyHashes := fuzzyHashes s;
     totalOriginalRows := totalOriginalRows s;
     totalCleanedRows := totalCleanedRows s + 1;
     totalFixedCells := totalFixedCells s;
     fuzzyDupCount := fuzzyDupCount s;
     columnMismatchCount := columnMismatchCount s;
     idCounter := if hasGeneratedId h then idCounter s + 1 else idCounter s;
     outputRows := outputRows s ++ [outputCells] |}.

Definition addSeen (key : jsstring) (s : RowState) : RowState :=
  {| cleanedDataChunks := cleanedDataChunks s; rowBuffer := rowBuffer s;
     seenHashes := key :: seenHashes s; fuzzyHashes := fuzzyHashes s;
     totalOriginalRows := totalOriginalRows s;
     totalCleanedRows := totalCleanedRows s;
     totalFixedCells := totalFixedCells s; fuzzyDupCount := fuzzyDupCount s;
     columnMismatchCount := columnMismatchCount s; idCounter := idCounter s;
     outputRows := outputRows s |}.

Definition addFuzzy (key : jsstring) (s : RowState) : RowState :=
  {| cleanedDataChunks := cleanedDataChunks s; rowBuffer := rowBuffer s;
     seenHashes := seenHashes s; fuzzyHashes := key :: fuzzyHashes s;
     totalOriginalRows := totalOriginalRows s;
     totalCleanedRows := totalCleanedRows s;
     totalFixedCells := totalFixedCells s; fuzzyDupCount := fuzzyDupCount s;
     columnMismatchCount := columnMismatchCount s; idCounter := idCounter s;
     outputRows := outputRows s |}.

(** The counters a row moves before it is filtered: the row itself, a
    column mismatch, the cells fixed; and a fuzzy duplicate. *)
Definition count (rows mismatches fixedCells fuzzy : N) (s : RowState)
  : RowState :=
  {| cleanedDataChunks := cleanedDataChunks s; rowBuffer := rowBuffer s;
     seenHashes := seenHashes s; fuzzyHashes := fuzzyHashes s;
     totalOriginalRows := totalOriginalRows s + rows;
     totalCleanedRows := totalCleanedRows s;
     totalFixedCells := totalFixedCells s + fixedCells;
     fuzzyDupCount := fuzzyDupCount s + fuzzy;
     columnMismatchCount := columnMismatchCount s + mismatches;
     idCounter := idCounter s; outputRows := outputRows s |}.

(** The fuzzy filter and what follows it. *)
Definition fuzzyThenEmit (cfg : CleaningConfig) (h : Headers) (s : RowState)
  (rawCells : list jsstring) : RowState :=
  if fuzzyDuplicates cfg then
    let fk := fuzzyKey h rawCells in
    if setHas fk (fuzzyHashes s) then count 0 0 0 1 s
    else emitRow cfg h (addFuzzy fk s) rawCells
  else emitRow cfg h s rawCells.

(** The exact filter and what follows it. *)
Definition dedupThenEmit (cfg : CleaningConfig) (h : Headers) (s : RowState)
  (rawCells : list jsstring) : RowState :=
  let key := dedupeKey h rawCells in
  if removeDuplicates cfg then
    if setHas key (seenHashes s) then s
    else fuzzyThenEmit cfg h (addSeen key s) rawCells
  else fuzzyThenEmit cfg h s rawCells.

(** Whether the row-level filters let the transformed row through. *)
Definition passesFilters (cfg : CleaningConfig) (rawCells : list jsstring)
  : bool :=
  negb (removeEmpty cfg && forallb isBlank rawCells)
  && negb (removeRowsWithEmptyValues cfg && existsb isBlank rawCells).

(** A row from its transformed cells on: the row-level filters, the two
    duplicate filters, the assembly and the write. *)
Definition rowTail (cfg : CleaningConfig) (h : Headers) (s : RowState)
  (rawCells : list jsstring) : RowState :=
  if passesFilters cfg rawCells then dedupThenEmit cfg h s rawCells else s.

(** The transforms of a parsed row. *)
Definition transformRow (cfg : CleaningConfig) (h : Headers)
  (rawCells : list jsstring) : list jsstring * N :=
  let (c1, n1) := standardTransforms cfg rawCells in
  match mode cfg with
  | advanced => let (c2, n2) := advancedLoop cfg h 0 c1 in (c2, n1 + n2)
  | standard => (c1, n1)
  end.

(** The body of the row loop for a line that is not blank: the new
    state and the number of following lines the row took.  Nothing in
    the body can throw, so the [catch] clause never runs. *)
Definition processRow (cfg : CleaningConfig) (h : Headers) (s : RowState)
  (line : jsstring) (rest : list jsstring) : RowState * nat :=
  let '(rawCells, taken, mismatch) := parseRow h line rest in
  let (cells, fixedCells) := transformRow cfg h rawCells in
  let s := count 1 (if mismatch then 1 else 0) fixedCells 0 s in
  (rowTail cfg h s cells, taken).

(** [for (let li = 0; li < lines.length; li++)]: [skip] is the number of
    lines a row has taken beyond its own. *)
Fixpoint rowLoop (cfg : CleaningConfig) (h : Headers) (skip : nat)
  (lines : list jsstring) (s : RowState) : RowState :=
  match lines with
  | [] => s
  | line :: rest =>
      match skip with
      | S k => rowLoop cfg h k rest s
      | O =>
          if isBlank line then rowLoop cfg h O rest s
          else
            let (s', taken) := processRow cfg h s line rest in
            rowLoop cfg h taken rest s'
      end
  end.

(** ** The windows of the file *)

Definition CHUNK_SIZE : N := 1024 * 1024.

(** The successive [file.slice(offset, offset + CHUNK_SIZE)], for
    [offset] from 0 in steps of [CHUNK_SIZE] while [offset < file.size].
    [room] is the number of bytes the current window can still take. *)
Fixpoint windows_aux (room : N) (cur : list Byte.byte)
  (bytes : list Byte.byte) : list (list Byte.byte) :=
  match bytes with
  | [] => match cur with [] => [] | _ => [rev cur] end
  | b :: r =>
      if room <=? 1 then rev (b :: cur) :: windows_aux CHUNK_SIZE [] r
      else windows_aux (room - 1) (b :: cur) r
  end.

Definition fileWindows (file : list Byte.byte) : list (list Byte.byte) :=
  windows_aux CHUNK_SIZE [] file.

Definition fileSize (file : list Byte.byte) : N := N.of_nat (length file).

Definition pushChunk (chunk : jsstring) (s : RowState) : RowState :=
  {| cleanedDataChunks := cleanedDataChunks s ++ [chunk];
     rowBuffer := rowBuffer s; seenHashes := seenHashes s;
     fuzzyHashes := fuzzyHashes s; totalOriginalRows := totalOriginalRows s;
     totalCleanedRows := totalCleanedRows s;
     totalFixedCells := totalFixedCells s; fuzzyDupCount := fuzzyDupCount s;
     columnMismatchCount := columnMismatchCount s; idCounter := idCounter s;
     outputRows := outputRows s |}.

(** The header row, as it is written to chunk zero. *)
Definition headerChunk (cfg : CleaningConfig) (h : Headers) : jsstring :=
  serializeRow (fileHeaders h) ++ getEolChar (eol cfg).

(** [Math.min(50, (offset / file.size) * 50)] *)
Definition readPercent (off size : N) : F64.f64 :=
  F64.min (F64.ofZ 50)
          (F64.mul (F64.div (F64.ofN off) (F64.ofN size)) (F64.ofZ 50)).

(** [50 + ((offset / file.size) * 30)] *)
Definition processingPercent (off size : N) : F64.f64 :=
  F64.add (F64.ofZ 50)
          (F64.mul (F64.div (F64.ofN off) (F64.ofN size)) (F64.ofZ 30)).

(** The body of [while (offset < file.size)] for one window. *)
Definition processChunk (cfg : CleaningConfig) (size : N) (r : Run)
  (window : list Byte.byte) : Run :=
  let text := readChunkAsText window in
  let off := offset r + CHUNK_SIZE in
  let fullText := leftover r ++ text in
  let lines := splitLines fullText in
  let (lines, left) :=
    if off <? size then (removelast lines, last lines [])
    else (lines, []) in
  let '(first, h, s, lines) :=
    if isFirstChunk r then
      match lines with
      | line0 :: more =>
          let h := readHeaders cfg line0 in
          (false, h, pushChunk (headerChunk cfg h) (rst r), more)
      | [] => (true, hdr r, rst r, lines)
      end
    else (false, hdr r, rst r, lines) in
  let s := rowLoop cfg h O lines s in
  let milestone :=
    if (totalOriginalRows s mod 5000 =? 0) && (0 <? totalOriginalRows s)
    then [processingPercent off size] else [] in
  {| offset := off; leftover := left; isFirstChunk := first; hdr := h;
     rst := s; progress := progress r ++ [readPercent off size] ++ milestone |}.

Definition initialRun : Run :=
  {| offset := 0; leftover := []; isFirstChunk := true; hdr := noHeaders;
     rst := initialRows; progress := [] |}.

(** The run up to the end of the [while] loop. *)
Definition readLoop (cfg : CleaningConfig) (file : list Byte.byte) : Run :=
  fold_left (processChunk cfg (fileSize file)) (fileWindows file) initialRun.

(** The last flush of the row buffer. *)
Definition finalFlush (cfg : CleaningConfig) (s : RowState) : RowState :=
  match rowBuffer s with
  | [] => s
  | _ => pushChunk (join (getEolChar (eol cfg)) (rowBuffer s)) s
  end.

(** The whole run: the loop, the last flush and the two last calls of
    [onProgress]. *)
Definition runFile (cfg : CleaningConfig) (file : list Byte.byte) : Run :=
  let r := readLoop cfg file in
  {| offset := offset r; leftover := leftover r;
     isFirstChunk := isFirstChunk r; hdr := hdr r;
     rst := finalFlush cfg (rst r);
     progress := progress r ++ [F64.ofZ 85; F64.ofZ 100] |}.

Definition processFile (cfg : CleaningConfig) (file : list Byte.byte)
  : ProcessResult :=
  let r := runFile cfg file in
  let s := rst r in
  let sampleData :=
    getAllDataRows (cleanedDataChunks s) (Some 500%nat) (separator (hdr r)) in
  {| cleanedChunks := cleanedDataChunks s;
     headers := fileHeaders (hdr r);
     columnTypes := detectColumnTypes (fileHeaders (hdr r)) sampleData;
     stats := {| original := totalOriginalRows s;
                 cleaned := totalCleanedRows s;
                 removed := (Z.of_N (totalOriginalRows s)
                             - Z.of_N (totalCleanedRows s))%Z;
                 cols := length (fileHeaders (hdr r));
                 fixed := totalFixedCells s |};
     separatorOut := separator (hdr r) |}.

End Host.

(** ** A host for the examples *)

(** A decoder for files of ASCII bytes: every byte is its code unit. *)
Definition asciiText (bytes : list Byte.byte) : jsstring :=
  map (fun b => N.of_nat (Byte.to_nat b)) bytes.

(** The bytes of an ASCII text. *)
Definition asciiBytes (s : string) : list Byte.byte := list_byte_of_string s.

(** [new Date(str)] for a host in the UTC time zone, on the date-only
    form [YYYY-MM-DD] of the ECMAScript date-time string format.  Only
    the days 2 to 27 of a month are taken, for which the year and the
    month are the same in every other time zone as well.  Every other
    string is [None] here. *)
Definition isoDate (str : jsstring) : option (Z * N * N) :=
  match str with
  | [y1; y2; y3; y4; d1; m1; m2; d2; a1; a2] =>
      if forallb isDigit [y1; y2; y3; y4; m1; m2; a1; a2]
         && (d1 =? 45) && (d2 =? 45)
      then
        let y := parseDigits [y1; y2; y3; y4] in
        let m := parseDigits [m1; m2] in
        let d := parseDigits [a1; a2] in
        if (1 <=? m) && (m <=? 12) && (2 <=? d) && (d <=? 27)
        then Some (Z.of_N y, m - 1, d)
        else None
      else None
  | _ => None
  end.

Definition noRandom (i : nat) : jsstring := lit "x" ++ decimal (N.of_nat i).

(** The configuration with every switch off. *)
Definition plainConfig : CleaningConfig :=
  {| tableName := lit "t"; pkColumn := lit "id"; eol := lit "LF";
     encoding := lit "UTF-8"; mode := standard;
     removeDuplicates := false; removeEmpty := false;
     trimWhitespace := false; normalizeValues := false;
     fixEncoding := false; fuzzyDuplicates := false; validateEmail := false;
     standardizePhone := false; normalizeCase := false;
     standardizeDate := false; detectOutliers := false;
     removeSpecialChars := false; crossFieldValidation := false;
     fillMissing := false; standardizeAddress := false;
     removeHtmlTags := false; fixNumberFormats := false;
     generateId := false; removeRowsWithEmptyValues := false |}.

(* ====================================================================== *)
(** * SQL generation *)
(* ====================================================================== *)

Definition backtick : jschar := 96.

(** [typeMap] *)
Definition sqlTypeName (t : ColumnType) : jsstring :=
  match t with
  | TTinyint => lit "TINYINT"
  | TSmallint => lit "SMALLINT"
  | TInt => lit "INT"
  | TBigint => lit "BIGINT"
  | TDecimal => lit "DECIMAL(15,4)"
  | TDecimalMoney => lit "DECIMAL(10,2)"
  | TBool => lit "TINYINT(1)"
  | TDate => lit "DATE"
  | TText => lit "TEXT"
  | TLongtext => lit "LONGTEXT"
  | TVarchar => lit "VARCHAR(255)"
  | TVarcharLong => lit "VARCHAR(500)"
  | TEmail => lit "VARCHAR(320)"
  end.

(** [typeMap[types[h]] || 'TEXT'] *)
Definition sqlTypeOf (types : ColumnTypes) (h : jsstring) : jsstring :=
  match recordGet h types with
  | Some t => sqlTypeName t
  | None => lit "TEXT"
  end.

(** [' '.repeat(Math.max(1, 30 - h.length))] *)
Definition columnPad (h : jsstring) : jsstring :=
  repeat 32 (Nat.max 1 (30 - length h)).

Definition primaryKeyClause : jsstring :=
  lit " NOT NULL AUTO_INCREMENT PRIMARY KEY".

(** The definition of the column [h]. *)
Definition columnDef (types : ColumnTypes) (pkColumn h : jsstring)
  : jsstring :=
  lit "    " ++ [backtick] ++ h ++ [backtick] ++ columnPad h
  ++ sqlTypeOf types h
  ++ (if streqb h pkColumn then primaryKeyClause else []).

(** [defs], after the [unshift] of a primary key that is no header. *)
Definition columnDefs (headers : list jsstring) (types : ColumnTypes)
  (pkColumn : jsstring) : list jsstring :=
  let defs := map (columnDef types pkColumn) headers in
  if nonEmpty pkColumn && negb (existsb (streqb pkColumn) headers) then
    (lit "    " ++ [backtick] ++ pkColumn ++ [backtick] ++ columnPad pkColumn
     ++ lit "BIGINT NOT NULL AUTO_INCREMENT PRIMARY KEY") :: defs
  else defs.

(** [generateCreateTable]; [now] is [new Date().toISOString()]. *)
Definition generateCreateTable (now tableName : jsstring)
  (headers : list jsstring) (types : ColumnTypes) (pkColumn : jsstring)
  : jsstring :=
  lit "-- Generated by DataScrub Pro" ++ [LF]
  ++ lit "-- Date: " ++ now ++ [LF; LF]
  ++ lit "CREATE DATABASE IF NOT EXISTS mydb" ++ [LF]
  ++ lit "  CHARACTER SET utf8mb4" ++ [LF]
  ++ lit "  COLLATE utf8mb4_unicode_ci;" ++ [LF]
  ++ lit "USE mydb;" ++ [LF; LF]
  ++ lit "DROP TABLE IF EXISTS " ++ [backtick] ++ tableName ++ [backtick]
  ++ lit ";" ++ [LF; LF]
  ++ lit "CREATE TABLE " ++ [backtick] ++ tableName ++ [backtick]
  ++ lit " (" ++ [LF]
  ++ join (comma :: [LF]) (columnDefs headers types pkColumn)
  ++ [LF]
  ++ lit ") ENGINE=InnoDB DEFAULT CHARSET=utf8mb4 COLLATE=utf8mb4_unicode_ci;".

(* ====================================================================== *)
(** * Properties of the string library *)
(* ====================================================================== *)

(** Comparisons of code units stay folded under [simpl]. *)
Arguments N.eqb : simpl never.
Arguments N.leb : simpl never.
Arguments N.ltb : simpl never.

Lemma streqb_eq (a b : jsstring) : streqb a b = true <-> a = b.
Proof.
  revert b; induction a as [|x a IH]; intros [|y b]; simpl;
    try (split; [discriminate | discriminate]); try tauto.
  rewrite andb_true_iff, N.eqb_eq, IH. split.
  - intros [-> ->]; reflexivity.
  - intros H; inversion H; auto.
Qed.

Lemma streqb_refl (a : jsstring) : streqb a a = true.
Proof. apply streqb_eq; reflexivity. Qed.

Lemma streqb_neq (a b : jsstring) : streqb a b = false <-> a <> b.
Proof.
  rewrite <- streqb_eq. destruct (streqb a b); split; congruence.
Qed.

(* ====================================================================== *)
(** * Properties of the regular expressions *)
(* ====================================================================== *)

Module RegexFacts.

Local Set Implicit Arguments.

Lemma lang_Void_inv s : lang Void s -> False.
Proof. inversion 1. Qed.

Lemma lang_Eps_inv s : lang Eps s -> s = [].
Proof. inversion 1; reflexivity. Qed.

Lemma lang_Chr_inv p s : lang (Chr p) s -> exists c, s = [c] /\ p c = true.
Proof. inversion 1; subst; eauto. Qed.

Lemma lang_Cat_inv a b s :
  lang (Cat a b) s -> exists s1 s2, s = s1 ++ s2 /\ lang a s1 /\ lang b s2.
Proof. inversion 1; subst; eauto. Qed.

Lemma lang_Alt_inv a b s : lang (Alt a b) s -> lang a s \/ lang b s.
Proof. inversion 1; subst; auto. Qed.

Lemma lang_Star_cons a c s :
  lang (Star a) (c :: s) ->
  exists s1 s2, s = s1 ++ s2 /\ lang a (c :: s1) /\ lang (Star a) s2.
Proof.
  intros H. remember (Star a) as r eqn:Er. remember (c :: s) as w eqn:Ew.
  revert a c s Er Ew.
  induction H; intros a' c' s' Er Ew; try discriminate.
  inversion Er; subst a'. destruct s as [|x s].
  - simpl in Ew. eapply IHlang2; eauto.
  - simpl in Ew. inversion Ew; subst. eauto.
Qed.

Lemma nullable_lang r : nullable r = true <-> lang r [].
Proof.
  induction r; simpl.
  - split; [discriminate | intros H; destruct (lang_Void_inv H)].
  - split; [constructor | reflexivity].
  - split; [discriminate | intros H].
    apply lang_Chr_inv in H as (c & E & _); discriminate.
  - rewrite andb_true_iff, IHr1, IHr2. split.
    + intros [H1 H2]. change (@nil jschar) with (@nil jschar ++ []).
      constructor; assumption.
    + intros H. apply lang_Cat_inv in H as (s1 & s2 & E & H1 & H2).
      symmetry in E. apply app_eq_nil in E as [-> ->]. auto.
  - rewrite orb_true_iff, IHr1, IHr2. split.
    + intros [H|H]; [apply LAltL | apply LAltR]; assumption.
    + apply lang_Alt_inv.
  - split; [constructor | reflexivity].
Qed.

Lemma mkCat_lang a b s : lang (mkCat a b) s <-> lang (Cat a b) s.
Proof.
  destruct a; simpl; try tauto.
  - split; intros H; [destruct (lang_Void_inv H)|].
    apply lang_Cat_inv in H as (s1 & s2 & _ & H & _).
    destruct (lang_Void_inv H).
  - split; intros H.
    + change s with ([] ++ s). constructor; [constructor | assumption].
    + apply lang_Cat_inv in H as (s1 & s2 & -> & H1 & H2).
      apply lang_Eps_inv in H1; subst; assumption.
Qed.

Lemma mkAlt_lang a b s : lang (mkAlt a b) s <-> lang (Alt a b) s.
Proof.
  assert (Hl : forall x, lang (Alt Void x) s <-> lang x s).
  { intros x; split; intros H; [|apply LAltR; assumption].
    apply lang_Alt_inv in H as [H|H]; [destruct (lang_Void_inv H) | assumption]. }
  assert (Hr : forall x, lang (Alt x Void) s <-> lang x s).
  { intros x; split; intros H; [|apply LAltL; assumption].
    apply lang_Alt_inv in H as [H|H]; [assumption | destruct (lang_Void_inv H)]. }
  destruct a, b; simpl; try tauto; rewrite ?Hl, ?Hr; tauto.
Qed.

Lemma deriv_lang c r s : lang (deriv c r) s <-> lang r (c :: s).
Proof.
  revert s; induction r; intros s; simpl.
  - split; intros H; inversion H.
  - split; intros H; inversion H.
  - destruct (b c) eqn:E; split; intros H.
    + apply lang_Eps_inv in H; subst; constructor; assumption.
    + apply lang_Chr_inv in H as (c' & E' & _). inversion E'; constructor.
    + inversion H.
    + apply lang_Chr_inv in H as (c' & E' & Hp). inversion E'; subst.
      congruence.
  - assert (Hcat : lang (mkCat (deriv c r1) r2) s <->
                   exists s1 s2, s = s1 ++ s2 /\ lang r1 (c :: s1) /\ lang r2 s2).
    { rewrite mkCat_lang. split.
      - intros H. apply lang_Cat_inv in H as (s1 & s2 & -> & H1 & H2).
        apply IHr1 in H1. eauto.
      - intros (s1 & s2 & -> & H1 & H2). constructor; [apply IHr1|]; assumption. }
    destruct (nullable r1) eqn:En.
    + rewrite mkAlt_lang. split.
      * intros H. apply lang_Alt_inv in H as [H|H].
        -- apply Hcat in H as (s1 & s2 & -> & H1 & H2).
           change (c :: s1 ++ s2) with ((c :: s1) ++ s2). constructor; assumption.
        -- apply IHr2 in H. change (c :: s) with ([] ++ c :: s).
           constructor; [apply nullable_lang|]; assumption.
      * intros H. apply lang_Cat_inv in H as (s1 & s2 & E & H1 & H2).
        destruct s1 as [|x s1]; simpl in E.
        -- subst s2. apply LAltR, IHr2; assumption.
        -- inversion E; subst. apply LAltL, Hcat; eauto.
    + rewrite Hcat. split.
      * intros (s1 & s2 & -> & H1 & H2).
        change (c :: s1 ++ s2) with ((c :: s1) ++ s2). constructor; assumption.
      * intros H. apply lang_Cat_inv in H as (s1 & s2 & E & H1 & H2).
        destruct s1 as [|x s1]; simpl in E.
        -- apply nullable_lang in H1. congruence.
        -- inversion E; subst. eauto.
  - rewrite mkAlt_lang. split; intros H.
    + apply lang_Alt_inv in H as [H|H];
        [apply LAltL, IHr1 | apply LAltR, IHr2]; assumption.
    + apply lang_Alt_inv in H as [H|H];
        [apply LAltL, IHr1 | apply LAltR, IHr2]; assumption.
  - rewrite mkCat_lang. split; intros H.
    + apply lang_Cat_inv in H as (s1 & s2 & -> & H1 & H2).
      apply IHr in H1. change (c :: s1 ++ s2) with ((c :: s1) ++ s2).
      constructor; assumption.
    + apply lang_Star_cons in H as (s1 & s2 & -> & H1 & H2).
      constructor; [apply IHr|]; assumption.
Qed.

(** The matcher decides the language. *)
Lemma fullMatch_lang r s : fullMatch r s = true <-> lang r s.
Proof.
  unfold fullMatch. revert r; induction s as [|c s IH]; intros r; simpl.
  - apply nullable_lang.
  - rewrite IH. apply deriv_lang.
Qed.

Lemma lang_Lit s : lang (Lit s) s.
Proof.
  induction s as [|c s IH]; simpl; [constructor|].
  destruct s as [|d s]; [constructor; apply N.eqb_refl|].
  change (c :: d :: s) with ([c] ++ d :: s).
  constructor; [constructor; apply N.eqb_refl | exact IH].
Qed.

Lemma lang_Lit_inv s w : lang (Lit s) w -> w = s.
Proof.
  revert w; induction s as [|c s IH]; intros w H; simpl in H.
  - apply lang_Eps_inv in H; assumption.
  - destruct s as [|d s].
    + apply lang_Chr_inv in H as (x & -> & E). apply N.eqb_eq in E; subst.
      reflexivity.
    + apply lang_Cat_inv in H as (s1 & s2 & -> & H1 & H2).
      apply lang_Chr_inv in H1 as (x & -> & E). apply N.eqb_eq in E; subst.
      apply IH in H2; subst. reflexivity.
Qed.

Lemma lang_Alts_in l r s : In r l -> lang r s -> lang (Alts l) s.
Proof.
  induction l as [|a l IH]; simpl; [tauto|].
  intros [->|Hin] H; destruct l as [|b l]; try assumption.
  - apply LAltL; assumption.
  - destruct Hin.
  - apply LAltR; auto.
Qed.

Lemma lang_Alts_inv l s : lang (Alts l) s -> exists r, In r l /\ lang r s.
Proof.
  induction l as [|a l IH]; simpl; intros H.
  - destruct (lang_Void_inv H).
  - destruct l as [|b l].
    + eauto.
    + apply lang_Alt_inv in H as [H|H]; [eauto|].
      apply IH in H as (r & Hin & Hr). eauto.
Qed.

Lemma lang_Star_repeat p c n : p c = true -> lang (Star (Chr p)) (repeat c n).
Proof.
  intros Hp; induction n as [|n IH]; simpl; [constructor|].
  change (c :: repeat c n) with ([c] ++ repeat c n).
  constructor; [constructor|]; assumption.
Qed.

Lemma lang_Star_all p s :
  lang (Star (Chr p)) s -> forallb p s = true.
Proof.
  induction s as [|c s IH]; intros H; [reflexivity|].
  apply lang_Star_cons in H as (s1 & s2 & -> & H1 & H2).
  apply lang_Chr_inv in H1 as (x & E & Hp). inversion E; subst.
  simpl in *. rewrite Hp. auto.
Qed.

End RegexFacts.

Module RegexSearch.
Import RegexFacts.

Lemma lang_Star_any s : lang (Star anyChar) s.
Proof.
  induction s as [|c s IH]; [constructor|].
  change (c :: s) with ([c] ++ s). constructor; [constructor; reflexivity | exact IH].
Qed.

(** [/r/.test(s)] holds when some substring of [s] is in the language. *)
Lemma test_lang r s :
  test r s = true <-> exists pre w post, s = pre ++ w ++ post /\ lang r w.
Proof.
  unfold test. rewrite fullMatch_lang. split.
  - intros H. apply lang_Cat_inv in H as (pre & t & -> & _ & H).
    apply lang_Cat_inv in H as (w & post & -> & H & _). eauto.
  - intros (pre & w & post & -> & H).
    constructor; [apply lang_Star_any|].
    constructor; [assumption | apply lang_Star_any].
Qed.

Lemma lang_LitCI w x : lang (LitCI w) x <-> toUpperCase x = toUpperCase w.
Proof.
  revert x; induction w as [|c w IH]; intros x; simpl.
  - split; intros H.
    + apply lang_Eps_inv in H; subst; reflexivity.
    + destruct x; [constructor | discriminate].
  - destruct w as [|d w].
    + split; intros H.
      * apply lang_Chr_inv in H as (y & -> & E). unfold ciEq in E.
        apply N.eqb_eq in E. simpl. congruence.
      * destruct x as [|y [|z x]]; try discriminate. simpl in H.
        inversion H. constructor. unfold ciEq. apply N.eqb_eq. congruence.
    + split; intros H.
      * apply lang_Cat_inv in H as (s1 & s2 & -> & H1 & H2).
        apply lang_Chr_inv in H1 as (y & -> & E). unfold ciEq in E.
        apply N.eqb_eq in E. apply IH in H2.
        simpl in *. rewrite H2. congruence.
      * destruct x as [|y x]; [discriminate|].
        change (toUpperCase (y :: x)) with (upperChar y :: toUpperCase x) in H.
        change (toUpperCase (c :: d :: w))
          with (upperChar c :: toUpperCase (d :: w)) in H.
        inversion H. change (y :: x) with ([y] ++ x).
        constructor; [constructor; unfold ciEq; apply N.eqb_eq; congruence|].
        apply IH. assumption.
Qed.

End RegexSearch.

(* ====================================================================== *)
(** * The separator detector *)
(* ====================================================================== *)

(** C9. [detectSeparator] returns, for every header line, the candidate
    with the highest count; of two candidates with the same count the one
    that comes first in the order comma, tab, semicolon, pipe; and the
    comma when no candidate occurs.  It is a total function. *)
Theorem detectSeparator_highest_count_first (line : jsstring) :
  let n := fun c => countChar c line in
  ((detectSeparator line = [comma]
    /\ (n tab <= n comma)%nat /\ (n semicolon <= n comma)%nat
    /\ (n pipe <= n comma)%nat)
   \/ (detectSeparator line = [tab]
       /\ (n comma < n tab)%nat /\ (n semicolon <= n tab)%nat
       /\ (n pipe <= n tab)%nat)
   \/ (detectSeparator line = [semicolon]
       /\ (n comma < n semicolon)%nat /\ (n tab < n semicolon)%nat
       /\ (n pipe <= n semicolon)%nat)
   \/ (detectSeparator line = [pipe]
       /\ (n comma < n pipe)%nat /\ (n tab < n pipe)%nat
       /\ (n semicolon < n pipe)%nat))
  /\ (n comma = O -> n tab = O -> n semicolon = O -> n pipe = O ->
      detectSeparator line = [comma]).
Proof.
  intros n. subst n. cbv beta.
  unfold detectSeparator, separatorCounts, sortDesc.
  generalize (countChar comma line) (countChar tab line)
             (countChar semicolon line) (countChar pipe line).
  intros a b c d. simpl.
  split.
  - repeat match goal with
           | |- context [(?x <=? ?y)%nat] =>
               destruct (Nat.leb_spec x y); simpl
           end;
      first [ left; split; [reflexivity | lia]
            | right; left; split; [reflexivity | lia]
            | right; right; left; split; [reflexivity | lia]
            | right; right; right; split; [reflexivity | lia] ].
  - intros -> -> -> ->. reflexivity.
Qed.

Lemma detectSeparator_highest_count_first_witness :
  detectSeparator (lit "name age") = [comma].
Proof.
  apply (detectSeparator_highest_count_first (lit "name age")); reflexivity.
Defined.

(* ====================================================================== *)
(** * Writing a cell and reading it back *)
(* ====================================================================== *)

Lemma parseLoop_plain (cells : list jsstring) (cell s : jsstring) :
  hasChar comma s = false -> hasChar dquote s = false ->
  parseLoop [comma] cells cell false s = cells ++ [finishCell (cell ++ s)].
Proof.
  revert cell; induction s as [|c s IH]; intros cell Hc Hq; simpl.
  - rewrite app_nil_r; reflexivity.
  - simpl in Hc, Hq. apply orb_false_iff in Hc as [Hc1 Hc2].
    apply orb_false_iff in Hq as [Hq1 Hq2].
    rewrite N.eqb_sym in Hq1. rewrite N.eqb_sym in Hc1.
    rewrite Hq1, Hc1. simpl. rewrite IH by assumption.
    rewrite <- app_assoc. reflexivity.
Qed.

Lemma parseLoop_quoted (sep : jsstring) (cells : list jsstring)
  (cell s : jsstring) :
  parseLoop sep cells cell true (replaceChar dquote [dquote; dquote] s ++ [dquote])
  = cells ++ [finishCell (cell ++ s)].
Proof.
  revert cell; induction s as [|c s IH]; intros cell.
  - simpl. rewrite app_nil_r; reflexivity.
  - unfold replaceChar in *. simpl flat_map. destruct (c =? dquote) eqn:E.
    + apply N.eqb_eq in E; subst c. simpl. rewrite IH.
      rewrite <- app_assoc. reflexivity.
    + simpl. rewrite E. rewrite IH. rewrite <- app_assoc. reflexivity.
Qed.

(** C10. A cell without white space at either end, and that does not
    both start and end with a double quote, is read back unchanged:
    [parseCSVLine(quoteCell(s), ',')] is the one-element list [[s]]. *)
Theorem parse_quoteCell_roundtrip (s : jsstring) :
  trim s = s ->
  startsWith [dquote] s && endsWith [dquote] s = false ->
  parseCSVLine (quoteCell (Some s)) [comma] = [s].
Proof.
  intros Ht Hq.
  assert (Hf : finishCell s = s).
  { unfold finishCell. rewrite Ht, Hq. reflexivity. }
  unfold parseCSVLine, quoteCell.
  destruct (hasChar comma s) eqn:Ec; simpl orb.
  - simpl. rewrite parseLoop_quoted. simpl. rewrite Hf; reflexivity.
  - destruct (hasChar dquote s) eqn:Ed; simpl orb.
    + simpl. rewrite parseLoop_quoted. simpl. rewrite Hf; reflexivity.
    + destruct (hasChar LF s || hasChar CR s).
      * simpl. rewrite parseLoop_quoted. simpl. rewrite Hf; reflexivity.
      * rewrite parseLoop_plain by assumption. simpl. rewrite Hf; reflexivity.
Qed.

Lemma parse_quoteCell_roundtrip_witness :
  parseCSVLine (quoteCell (Some [97; dquote; comma; 32; 98])) [comma]
  = [[97; dquote; comma; 32; 98]].
Proof.
  apply (parse_quoteCell_roundtrip [97; dquote; comma; 32; 98]); reflexivity.
Defined.

(* ====================================================================== *)
(** * The phone step and the name of the column *)
(* ====================================================================== *)

(** The configuration of the advanced mode with the phone step alone. *)
Definition phoneOnlyConfig : CleaningConfig :=
  {| tableName := lit "t"; pkColumn := lit "id"; eol := lit "LF";
     encoding := lit "UTF-8"; mode := advanced;
     removeDuplicates := false; removeEmpty := false;
     trimWhitespace := false; normalizeValues := false;
     fixEncoding := false; fuzzyDuplicates := false; validateEmail := false;
     standardizePhone := true; normalizeCase := false;
     standardizeDate := false; detectOutliers := false;
     removeSpecialChars := false; crossFieldValidation := false;
     fillMissing := false; standardizeAddress := false;
     removeHtmlTags := false; fixNumberFormats := false;
     generateId := false; removeRowsWithEmptyValues := false |}.

Lemma isPhoneColumnName_spec (colName : jsstring) :
  isPhoneColumnName colName = true <->
  exists pre w post kw,
    colName = pre ++ w ++ post /\ In kw phoneWords
    /\ toUpperCase w = toUpperCase kw.
Proof.
  unfold isPhoneColumnName, phoneColumnPattern.
  rewrite RegexSearch.test_lang. split.
  - intros (pre & w & post & E & H).
    apply RegexFacts.lang_Alts_inv in H as (r & Hin & Hr).
    apply in_map_iff in Hin as (kw & <- & Hkw).
    apply RegexSearch.lang_LitCI in Hr. exists pre, w, post, kw. auto.
  - intros (pre & w & post & kw & E & Hkw & Hw).
    exists pre, w, post. split; [assumption|].
    apply RegexFacts.lang_Alts_in with (r := LitCI kw).
    + apply in_map; assumption.
    + apply RegexSearch.lang_LitCI; assumption.
Qed.

(** The phone step formats a ten-digit value of a phone column, and
    that value only there. *)
Example phone_step_on_phone_column :
  phoneStep phoneOnlyConfig (lit "Home_Phone") (lit "1234567890", 0)
  = (lit "(123) 456-7890", 1)
  /\ phoneStep phoneOnlyConfig (lit "description") (lit "1234567890", 0)
     = (lit "1234567890", 0).
Proof. split; reflexivity. Qed.

(** C4. The phone step of the pipeline leaves every cell of a column
    whose name does not match [phone|mobile|cell|fax|tel|contact_no|
    contact_num|whatsapp], case-insensitively, as it is.  A column named
    [description] does not match, so its cell [1234567] is unchanged,
    although the value has the shape of a phone number. *)
Theorem phone_step_gated_by_column_name :
  (forall cfg colName s,
      isPhoneColumnName colName = false -> phoneStep cfg colName s = s)
  /\ (forall colName,
         isPhoneColumnName colName = true <->
         exists pre w post kw,
           colName = pre ++ w ++ post /\ In kw phoneWords
           /\ toUpperCase w = toUpperCase kw)
  /\ isPhoneColumnName (lit "description") = false
  /\ looksLikePhone (lit "1234567") = true
  /\ (forall cfg n,
         phoneStep cfg (lit "description") (lit "1234567", n)
         = (lit "1234567", n)).
Proof.
  assert (H : forall cfg colName s,
             isPhoneColumnName colName = false -> phoneStep cfg colName s = s).
  { intros cfg colName s Hn. unfold phoneStep, applyIf.
    rewrite Hn, andb_false_r. reflexivity. }
  split; [exact H|]. split; [exact isPhoneColumnName_spec|].
  split; [reflexivity|]. split; [reflexivity|].
  intros cfg n. apply H. reflexivity.
Qed.

Lemma phone_step_gated_by_column_name_witness :
  phoneStep phoneOnlyConfig (lit "description") (lit "1234567890", 0)
  = (lit "1234567890", 0).
Proof.
  apply (proj1 phone_step_gated_by_column_name phoneOnlyConfig
           (lit "description") (lit "1234567890", 0)).
  reflexivity.
Defined.

(* ====================================================================== *)
(** * The null sentinels *)
(* ====================================================================== *)

Lemma lang_dots2 (w : jsstring) :
  lang dots2 w <-> exists n, (2 <= n)%nat /\ w = repeat 46 n.
Proof.
  unfold dots2. simpl Rep. split.
  - intros H. apply RegexFacts.lang_Cat_inv in H as (s1 & t & -> & H1 & H2).
    apply RegexFacts.lang_Cat_inv in H1 as (a & b & -> & Ha & Hb).
    apply RegexFacts.lang_Chr_inv in Ha as (x & -> & Ex).
    apply RegexFacts.lang_Chr_inv in Hb as (y & -> & Ey).
    apply N.eqb_eq in Ex, Ey. subst x y.
    apply RegexFacts.lang_Star_all in H2.
    exists (S (S (length t))). split; [lia|]. simpl. do 2 f_equal.
    clear -H2. induction t as [|c t IH]; [reflexivity|].
    simpl in *. apply andb_true_iff in H2 as [E H2].
    apply N.eqb_eq in E; subst c. f_equal. auto.
  - intros (n & Hn & ->). destruct n as [|[|n]]; try lia.
    change (repeat 46 (S (S n))) with (([46] ++ [46]) ++ repeat 46 n).
    constructor.
    + constructor; constructor; reflexivity.
    + apply RegexFacts.lang_Star_repeat. reflexivity.
Qed.

Lemma nullSentinel_spec (val : jsstring) :
  fullMatch nullSentinel val = true <->
  In val nullTokens \/ exists n, (2 <= n)%nat /\ val = repeat 46 n.
Proof.
  rewrite RegexFacts.fullMatch_lang. unfold nullSentinel. split.
  - intros H. apply RegexFacts.lang_Alt_inv in H as [H|H].
    + left. apply RegexFacts.lang_Alts_inv in H as (r & Hin & Hr).
      apply in_map_iff in Hin as (tok & <- & Htok).
      apply RegexFacts.lang_Lit_inv in Hr. subst. assumption.
    + right. apply lang_dots2. assumption.
  - intros [H|H].
    + apply LAltL. apply RegexFacts.lang_Alts_in with (r := Lit val).
      * apply in_map; assumption.
      * apply RegexFacts.lang_Lit.
    + apply LAltR. apply lang_dots2. assumption.
Qed.

(** The reading of the specification: a cell that is one of the tokens
    in some mix of upper and lower case becomes the empty string. *)
Definition normalizesEveryCase : Prop :=
  forall c tok,
    In tok nullTokens -> toLowerCase (trim c) = toLowerCase tok ->
    fst (normalizeCell c) = [].

(** The expression of the source has no [i] flag: [nUll] is a case
    variant of the token [null] and is kept. *)
Lemma normalize_mixed_case_kept :
  In (lit "null") nullTokens
  /\ toLowerCase (trim (lit "nUll")) = toLowerCase (lit "null")
  /\ normalizeCell (lit "nUll") = (lit "nUll", false)
  /\ ~ normalizesEveryCase.
Proof.
  assert (Hin : In (lit "null") nullTokens) by (left; reflexivity).
  repeat split; try assumption; try reflexivity.
  intros H. specialize (H (lit "nUll") (lit "null") Hin eq_refl).
  discriminate H.
Qed.

(** C5, as the code has it.  With [normalizeValues] the cell becomes the
    empty string exactly when its trimmed value is one of the tokens as
    they are spelled in the list, or two or more dots; every other cell,
    the other case variants among them ([nUll], [Na], [NoNe]), becomes
    its trimmed value. *)
Theorem normalize_null_tokens_as_spelled :
  (forall c,
      In (trim c) nullTokens
      \/ (exists n, (2 <= n)%nat /\ trim c = repeat 46 n) ->
      normalizeCell c = ([], true))
  /\ (forall c,
         ~ In (trim c) nullTokens ->
         (forall n, (2 <= n)%nat -> trim c <> repeat 46 n) ->
         normalizeCell c = (trim c, false))
  /\ normalizeCell (lit "nUll") = (lit "nUll", false)
  /\ normalizeCell (lit "Na") = (lit "Na", false)
  /\ normalizeCell (lit "NoNe") = (lit "NoNe", false).
Proof.
  split; [|split; [|repeat split; reflexivity]].
  - intros c H. unfold normalizeCell.
    apply nullSentinel_spec in H. rewrite H. reflexivity.
  - intros c H1 H2. unfold normalizeCell.
    destruct (fullMatch nullSentinel (trim c)) eqn:E; [|reflexivity].
    apply nullSentinel_spec in E as [E|(n & Hn & E)];
      [contradiction | destruct (H2 n Hn E)].
Qed.

Lemma normalize_null_tokens_as_spelled_witness :
  normalizeCell (lit "  #N/A ") = ([], true)
  /\ normalizeCell (lit " ... ") = ([], true)
  /\ normalizeCell (lit " NIL") = ([], true).
Proof.
  split; [|split].
  - apply (proj1 normalize_null_tokens_as_spelled (lit "  #N/A ")).
    left. vm_compute. tauto.
  - apply (proj1 normalize_null_tokens_as_spelled (lit " ... ")).
    right. exists 3%nat. split; [lia | reflexivity].
  - apply (proj1 normalize_null_tokens_as_spelled (lit " NIL")).
    left. vm_compute. tauto.
Defined.

(* ====================================================================== *)
(** * The thresholds of the type inferencer *)
(* ====================================================================== *)

(** [overSeventyPercent] against the exact fractions, at a sample of [n]
    values of which [c] count. *)
Definition thresholdAgrees (n c : nat) : bool :=
  let over := overSeventyPercent c n in
  implb over (7 * N.of_nat n <=? 10 * N.of_nat c)
  && implb (7 * N.of_nat n <? 10 * N.of_nat c) over.

(** They agree on every sample of at most 500 values, which is the size
    [processFile] asks for. *)
Lemma thresholdAgrees_upto_500 :
  forallb (fun n => forallb (thresholdAgrees n) (seq 0 (S n))) (seq 0 501)
  = true.
Proof. vm_compute. reflexivity. Qed.

Lemma overSeventyPercent_bounds (c n : nat) :
  (c <= n)%nat -> (n <= 500)%nat ->
  (overSeventyPercent c n = true -> (7 * n <= 10 * c)%nat)
  /\ ((7 * n < 10 * c)%nat -> overSeventyPercent c n = true).
Proof.
  intros Hc Hn.
  assert (Hin : In n (seq 0 501)) by (apply in_seq; lia).
  assert (Hic : In c (seq 0 (S n))) by (apply in_seq; lia).
  pose proof (proj1 (forallb_forall _ _) thresholdAgrees_upto_500 n Hin) as H.
  pose proof (proj1 (forallb_forall _ _) H c Hic) as H0.
  unfold thresholdAgrees in H0. cbv zeta in H0.
  apply andb_true_iff in H0 as [H1 H2]. split.
  - intros E. rewrite E in H1. cbn [implb] in H1. apply N.leb_le in H1. lia.
  - intros L. destruct (overSeventyPercent c n); [reflexivity|].
    assert (E : (7 * N.of_nat n <? 10 * N.of_nat c) = true)
      by (apply N.ltb_lt; lia).
    rewrite E in H2. discriminate H2.
Qed.

(** Seven valid dates and three other values. *)
Definition sevenDatesOfTen : list jsstring :=
  repeat (lit "2020-06-15") 7 ++ repeat (lit "hello world") 3.

Definition eightDatesOfTen : list jsstring :=
  repeat (lit "2020-06-15") 8 ++ repeat (lit "hello world") 2.

(** The comparison of the source is strict: a sample of ten values of
    which exactly seven, 70%, are valid dates is not typed as a date. *)
Lemma seventy_percent_dates_not_date :
  length (filter (isValidDate isoDate) sevenDatesOfTen) = 7%nat
  /\ length sevenDatesOfTen = 10%nat
  /\ forallb (fullMatch integerShape) sevenDatesOfTen = false
  /\ forallb (fullMatch decimalShape) sevenDatesOfTen = false
  /\ forallb (fullMatch booleanShape) sevenDatesOfTen = false
  /\ inferType isoDate sevenDatesOfTen = TVarchar
  /\ inferType isoDate sevenDatesOfTen <> TDate.
Proof. vm_compute. repeat split; discriminate. Qed.

(** C6, as the code has it.  For a column whose values are neither all
    integers, nor all decimals, nor all booleans, the type is [date]
    exactly when the number of valid dates is strictly greater than
    [values.length * 0.7], a product of binary64 numbers; when it is
    not, the type is [email] exactly when the number of email-like
    values is strictly greater than that product.  On a sample of at most
    500 values, more than 70% of them is enough and at least 70% is
    needed; seven of ten is not enough. *)
Theorem inferType_date_email_thresholds
  (parseDate : jsstring -> option (Z * N * N)) (values : list jsstring) :
  values <> [] ->
  forallb (fullMatch integerShape) values = false ->
  forallb (fullMatch decimalShape) values = false ->
  forallb (fullMatch booleanShape) values = false ->
  let n := length values in
  let d := length (filter (isValidDate parseDate) values) in
  let e := length (filter looksLikeEmail values) in
  (inferType parseDate values = TDate <-> overSeventyPercent d n = true)
  /\ (overSeventyPercent d n = false ->
      (inferType parseDate values = TEmail <-> overSeventyPercent e n = true))
  /\ ((n <= 500)%nat ->
      ((7 * n < 10 * d)%nat -> inferType parseDate values = TDate)
      /\ (inferType parseDate values = TDate -> (7 * n <= 10 * d)%nat)
      /\ ((10 * d < 7 * n)%nat -> (7 * n < 10 * e)%nat ->
          inferType parseDate values = TEmail))
  /\ overSeventyPercent 7 10 = false.
Proof.
  intros Hne Hi Hd Hb n d e.
  assert (Hdate : inferType parseDate values = TDate
                  <-> overSeventyPercent d n = true).
  { unfold inferType. destruct values as [|v vs]; [congruence|].
    rewrite Hi, Hd, Hb. fold d n.
    destruct (overSeventyPercent d n); [tauto|].
    split; [|discriminate].
    destruct (overSeventyPercent _ _); [discriminate|].
    repeat match goal with
           | |- context [if ?b then _ else _] => destruct b
           end; discriminate. }
  assert (Hemail : overSeventyPercent d n = false ->
                   (inferType parseDate values = TEmail
                    <-> overSeventyPercent e n = true)).
  { intros Ed. unfold inferType. destruct values as [|v vs]; [congruence|].
    rewrite Hi, Hd, Hb. fold d n e. rewrite Ed.
    destruct (overSeventyPercent e n); [tauto|].
    split; [|discriminate].
    repeat match goal with
           | |- context [if ?b then _ else _] => destruct b
           end; discriminate. }
  assert (Hdn : (d <= n)%nat) by apply filter_length_le.
  assert (Hen : (e <= n)%nat) by apply filter_length_le.
  split; [exact Hdate|]. split; [exact Hemail|]. split; [|reflexivity].
  intros Hn.
  destruct (overSeventyPercent_bounds d n Hdn Hn) as [B1 B2].
  destruct (overSeventyPercent_bounds e n Hen Hn) as [B3 B4].
  split; [|split].
  - intros L. apply Hdate. auto.
  - intros E. apply B1, Hdate. assumption.
  - intros L1 L2. apply Hemail; [|auto].
    destruct (overSeventyPercent d n); [|reflexivity].
    specialize (B1 eq_refl). lia.
Qed.

Lemma inferType_date_email_thresholds_witness :
  inferType isoDate eightDatesOfTen = TDate.
Proof.
  refine (proj2 (proj1 (inferType_date_email_thresholds
                          isoDate eightDatesOfTen _ _ _ _)) _);
    try reflexivity.
  discriminate.
Defined.

(* ====================================================================== *)
(** * The progress percentages *)
(* ====================================================================== *)

(** A header line and 5000 rows of one digit, 10002 bytes. *)
Definition file5000 : list Byte.byte :=
  [Byte.x61; Byte.x0a] ++ concat (repeat [Byte.x31; Byte.x0a] (N.to_nat 5000)).

(** C7 at that file.  The window is read whole, so [offset] is
    [CHUNK_SIZE] and exceeds the size of the file; the row count is a
    multiple of 5000, and the percentage of the processing milestone,
    [50 + (offset / size) * 30], is above 3000.  The sink receives 50,
    that number, 85 and 100: the sequence decreases. *)
Theorem progress_decreases_on_5000_rows :
  let trace := progress (runFile isoDate asciiText noRandom plainConfig file5000) in
  trace = [ F64.ofZ 50; processingPercent CHUNK_SIZE 10002;
            F64.ofZ 85; F64.ofZ 100 ]
  /\ F64.ltb (F64.ofZ 3000) (processingPercent CHUNK_SIZE 10002) = true
  /\ F64.nondecreasing trace = false.
Proof. vm_compute. repeat split. Qed.

(* ====================================================================== *)
(** * The cell transforms: empty input and idempotence *)
(* ====================================================================== *)

Definition idempotent (f : jsstring -> jsstring) : Prop :=
  forall x, f (f x) = f x.

(** ** Two transforms that are not idempotent *)

(** [&amp;amp;] loses one entity at each pass. *)
Lemma removeHtmlTagsFn_not_idempotent :
  removeHtmlTagsFn (lit "&amp;amp;") = lit "&amp;"
  /\ removeHtmlTagsFn (removeHtmlTagsFn (lit "&amp;amp;")) = lit "&"
  /\ ~ idempotent removeHtmlTagsFn.
Proof.
  assert (E1 : removeHtmlTagsFn (lit "&amp;amp;") = lit "&amp;") by reflexivity.
  assert (E2 : removeHtmlTagsFn (lit "&amp;") = lit "&") by reflexivity.
  split; [exact E1|]. split; [rewrite E1; exact E2|].
  intros H. specialize (H (lit "&amp;amp;")). rewrite E1, E2 in H.
  discriminate H.
Qed.

(** A repaired sequence can complete another one of the table. *)
Example fixEncodingIssues_not_idempotent :
  fixEncodingIssues [194; 194; 176] = [194; 176]
  /\ fixEncodingIssues (fixEncodingIssues [194; 194; 176]) = [176]
  /\ ~ idempotent fixEncodingIssues.
Proof.
  assert (E1 : fixEncodingIssues [194; 194; 176] = [194; 176]) by reflexivity.
  assert (E2 : fixEncodingIssues [194; 176] = [176]) by reflexivity.
  split; [exact E1|]. split; [rewrite E1; exact E2|].
  intros H. specialize (H [194; 194; 176]). rewrite E1, E2 in H.
  discriminate H.
Qed.

(** A host five hours west of UTC reads the date-only form as the
    evening of the day before. *)
Definition isoDateWest (str : jsstring) : option (Z * N * N) :=
  match isoDate str with
  | Some (y, m, d) => Some (y, m, d - 1)
  | None => None
  end.

Example standardizeDateFn_west_of_utc :
  standardizeDateFn isoDateWest (lit "13/01/2020") = lit "2020-01-13"
  /\ standardizeDateFn isoDateWest (lit "2020-01-13") = lit "2020-01-12".
Proof. split; reflexivity. Qed.

(** ** Lists of code units *)

Lemma filter_idem (p : jschar -> bool) (s : jsstring) :
  filter p (filter p s) = filter p s.
Proof.
  induction s as [|c s IH]; simpl; [reflexivity|].
  destruct (p c) eqn:E; simpl; rewrite ?E, IH; reflexivity.
Qed.

Lemma filter_all (p : jschar -> bool) (s : jsstring) :
  forallb p s = true -> filter p s = s.
Proof.
  induction s as [|c s IH]; simpl; [reflexivity|].
  intros H. apply andb_true_iff in H as [E H]. rewrite E, IH by assumption.
  reflexivity.
Qed.

Lemma forallb_filter (p : jschar -> bool) (s : jsstring) :
  forallb p (filter p s) = true.
Proof.
  induction s as [|c s IH]; simpl; [reflexivity|].
  destruct (p c) eqn:E; simpl; rewrite ?E; assumption.
Qed.

Lemma forallb_firstn (p : jschar -> bool) (n : nat) (s : jsstring) :
  forallb p s = true -> forallb p (firstn n s) = true.
Proof.
  revert n; induction s as [|c s IH]; intros [|n] H; simpl in *; auto.
  apply andb_true_iff in H as [E H]. rewrite E. simpl. auto.
Qed.

Lemma forallb_skipn (p : jschar -> bool) (n : nat) (s : jsstring) :
  forallb p s = true -> forallb p (skipn n s) = true.
Proof.
  revert n; induction s as [|c s IH]; intros [|n] H; simpl in *; auto.
  apply andb_true_iff in H as [E H]. auto.
Qed.

Lemma In_trimStart (c : jschar) (s : jsstring) : In c (trimStart s) -> In c s.
Proof.
  induction s as [|x s IH]; simpl; [tauto|].
  destruct (isWhiteSpace x); simpl; tauto.
Qed.

Lemma In_trim (c : jschar) (s : jsstring) : In c (trim s) -> In c s.
Proof.
  unfold trim, trimEnd. intros H. apply in_rev in H.
  apply In_trimStart in H. apply in_rev in H. apply In_trimStart in H.
  assumption.
Qed.

Lemma trimStart_no_space (s : jsstring) :
  forallb (fun c => negb (isWhiteSpace c)) s = true -> trimStart s = s.
Proof.
  destruct s as [|c s]; simpl; [reflexivity|].
  intros H. apply andb_true_iff in H as [E _].
  destruct (isWhiteSpace c); [discriminate | reflexivity].
Qed.

Lemma trim_no_space (s : jsstring) :
  forallb (fun c => negb (isWhiteSpace c)) s = true -> trim s = s.
Proof.
  intros H. unfold trim, trimEnd. rewrite (trimStart_no_space s H).
  rewrite trimStart_no_space; [apply rev_involutive|].
  rewrite forallb_forall in *. intros c Hc. apply H, in_rev. assumption.
Qed.

(** ** Control characters *)

Lemma removeSpecialCharsFn_idempotent : idempotent removeSpecialCharsFn.
Proof.
  intros x. unfold removeSpecialCharsFn, removeChars.
  destruct x as [|c x]; [reflexivity|].
  destruct (filter _ (c :: x)) eqn:E; [reflexivity|].
  rewrite <- E. apply filter_idem.
Qed.

(** ** Phone numbers *)

(** The formatted number, from the digits of the value. *)
Definition formatDigits (digits : jsstring) : jsstring :=
  let n := length digits in
  if (n =? 10)%nat then
    lit "(" ++ substring 0 3 digits ++ lit ") " ++ substring 3 6 digits
    ++ lit "-" ++ skipn 6 digits
  else if (n =? 11)%nat && (hd 0 digits =? 49) then
    lit "+1 (" ++ substring 1 4 digits ++ lit ") "
    ++ substring 4 7 digits ++ lit "-" ++ skipn 7 digits
  else
    let cc := substring 0 (n - 10) digits in
    let rest := skipn (n - 10) digits in
    lit "+" ++ cc ++ lit " (" ++ substring 0 3 rest ++ lit ") "
    ++ substring 3 6 rest ++ lit "-" ++ skipn 6 rest.

Lemma standardizePhoneFn_cases (phone : jsstring) :
  standardizePhoneFn phone = phone
  \/ ((10 <= length (filter isDigit phone))%nat
      /\ standardizePhoneFn phone = formatDigits (filter isDigit phone)).
Proof.
  unfold standardizePhoneFn, formatDigits.
  destruct phone as [|c p]; [left; reflexivity|].
  set (D := filter isDigit (c :: p)).
  destruct (Nat.eqb_spec (length D) 10) as [E|E].
  - right. split; [lia | reflexivity].
  - destruct ((length D =? 11)%nat && (hd 0 D =? 49)) eqn:E1.
    + right. apply andb_true_iff in E1 as [E1 _].
      apply Nat.eqb_eq in E1. split; [lia | reflexivity].
    + destruct (Nat.leb_spec 11 (length D)).
      * right. split; [lia | reflexivity].
      * left. reflexivity.
Qed.

Lemma filter_digits_app (a b : jsstring) :
  filter isDigit (a ++ b) = filter isDigit a ++ filter isDigit b.
Proof. apply filter_app. Qed.

Lemma split_3_3 (l : jsstring) :
  firstn 3 l ++ firstn 3 (skipn 3 l) ++ skipn 6 l = l.
Proof.
  transitivity (firstn 3 l ++ skipn 3 l); [|apply firstn_skipn].
  f_equal. change 6%nat with (3 + 3)%nat. rewrite <- skipn_skipn.
  apply firstn_skipn.
Qed.

Lemma formatDigits_digits (D : jsstring) :
  forallb isDigit D = true -> (10 <= length D)%nat ->
  filter isDigit (formatDigits D) = D.
Proof.
  intros HD Hn. unfold formatDigits, substring.
  change (3 - 0)%nat with 3%nat. change (6 - 3)%nat with 3%nat.
  change (4 - 1)%nat with 3%nat. change (7 - 4)%nat with 3%nat.
  rewrite Nat.sub_0_r.
  repeat match goal with
         | |- context [skipn 0 ?x] => change (skipn 0 x) with x
         end.
  destruct (Nat.eqb_spec (length D) 10) as [E|E];
    [|destruct ((length D =? 11)%nat && (hd 0 D =? 49)) eqn:E1];
    rewrite !filter_digits_app;
    repeat match goal with
           | |- context [filter isDigit (lit ?l)] =>
               let v := eval vm_compute in (filter isDigit (lit l)) in
               change (filter isDigit (lit l)) with v
           end;
    rewrite !filter_all
      by (repeat first [apply forallb_firstn | apply forallb_skipn]; exact HD);
    cbn [app].
  - apply split_3_3.
  - apply andb_true_iff in E1 as [_ E2]. apply N.eqb_eq in E2.
    destruct D as [|d0 D]; [discriminate|]. simpl in E2. subst d0.
    cbn [skipn app]. f_equal. apply split_3_3.
  - rewrite split_3_3. apply firstn_skipn.
Qed.

Lemma formatDigits_nonEmpty (D : jsstring) : formatDigits D <> [].
Proof.
  unfold formatDigits.
  destruct (length D =? 10)%nat; [discriminate|].
  destruct ((length D =? 11)%nat && (hd 0 D =? 49)); discriminate.
Qed.

Lemma standardizePhoneFn_idempotent : idempotent standardizePhoneFn.
Proof.
  intros x. destruct (standardizePhoneFn_cases x) as [E|[Hn E]].
  - congruence.
  - rewrite E. set (D := filter isDigit x) in *.
    assert (HD : forallb isDigit D = true) by apply forallb_filter.
    pose proof (formatDigits_digits D HD Hn) as Hf.
    destruct (standardizePhoneFn_cases (formatDigits D)) as [E'|[_ E']];
      rewrite E'; [reflexivity|]. rewrite Hf. reflexivity.
Qed.

(** ** Numbers with grouping commas *)

Import RegexFacts.

Lemma lang_Plus_inv (r : re) (w : jsstring) :
  lang (Plus r) w -> exists s t, w = s ++ t /\ lang r s /\ lang (Star r) t.
Proof. unfold Plus. apply lang_Cat_inv. Qed.

Lemma groupedNumber_comma (w : jsstring) : lang groupedNumber w -> In comma w.
Proof.
  unfold groupedNumber. intros H.
  apply lang_Cat_inv in H as (s1 & t1 & -> & _ & H).
  apply lang_Cat_inv in H as (s2 & t2 & -> & H & _).
  apply lang_Plus_inv in H as (s3 & t3 & -> & H & _).
  apply lang_Cat_inv in H as (s4 & t4 & -> & H & _).
  apply lang_Chr_inv in H as (c & -> & E). apply N.eqb_eq in E. subst c.
  apply in_or_app; right. apply in_or_app; left. apply in_or_app; left.
  left; reflexivity.
Qed.

Lemma replaceChar_removes (c : jschar) (s : jsstring) :
  ~ In c (replaceChar c [] s).
Proof.
  unfold replaceChar. induction s as [|x s IH]; simpl; [tauto|].
  destruct (N.eqb_spec x c) as [E|E]; simpl; [assumption|].
  intros [H|H]; [congruence | tauto].
Qed.

Lemma fixNumberFormat_cases (x : jsstring) :
  fixNumberFormat x = x
  \/ exists cleaned, fixNumberFormat x = replaceChar comma [] cleaned.
Proof.
  unfold fixNumberFormat. destruct x as [|c x]; [left; reflexivity|].
  destruct (fullMatch groupedNumber _); [right; eauto | left; reflexivity].
Qed.

Lemma fixNumberFormat_no_comma (y : jsstring) :
  ~ In comma y -> fixNumberFormat y = y.
Proof.
  intros Hy. unfold fixNumberFormat. destruct y as [|d y]; [reflexivity|].
  destruct (fullMatch groupedNumber _) eqn:E; [|reflexivity].
  exfalso. apply fullMatch_lang, groupedNumber_comma, In_trim in E.
  unfold removeChars in E. apply filter_In in E as [E _]. exact (Hy E).
Qed.

Lemma fixNumberFormat_idempotent : idempotent fixNumberFormat.
Proof.
  intros x. destruct (fixNumberFormat_cases x) as [E|[cleaned E]].
  - congruence.
  - rewrite E. apply fixNumberFormat_no_comma, replaceChar_removes.
Qed.

(** ** Case *)

Lemma isWhiteSpace_letters (c : jschar) :
  33 <= c < 160 -> isWhiteSpace c = false.
Proof.
  intros H. unfold isWhiteSpace, inRange.
  repeat match goal with
         | |- context [?a =? ?b] =>
             replace (a =? b) with false by (symmetry; apply N.eqb_neq; lia)
         | |- context [?a <=? ?b] =>
             first [ replace (a <=? b) with false
                       by (symmetry; apply N.leb_gt; lia)
                   | replace (a <=? b) with true
                       by (symmetry; apply N.leb_le; lia) ]
         end.
  reflexivity.
Qed.

Lemma isUpper_range (c : jschar) : isUpper c = true <-> 65 <= c <= 90.
Proof.
  unfold isUpper, inRange. rewrite andb_true_iff, !N.leb_le. tauto.
Qed.

Lemma isLower_range (c : jschar) : isLower c = true <-> 97 <= c <= 122.
Proof.
  unfold isLower, inRange. rewrite andb_true_iff, !N.leb_le. tauto.
Qed.

Lemma isUpper_false (c : jschar) : isUpper c = false <-> ~ (65 <= c <= 90).
Proof. rewrite <- isUpper_range. destruct (isUpper c); split; congruence. Qed.

Lemma isLower_false (c : jschar) : isLower c = false <-> ~ (97 <= c <= 122).
Proof. rewrite <- isLower_range. destruct (isLower c); split; congruence. Qed.

Lemma lowerChar_idem (c : jschar) : lowerChar (lowerChar c) = lowerChar c.
Proof.
  unfold lowerChar. destruct (isUpper c) eqn:E; [|rewrite E; reflexivity].
  apply isUpper_range in E.
  destruct (isUpper (c + 32)) eqn:E'; [|reflexivity].
  apply isUpper_range in E'. lia.
Qed.

Lemma upperChar_idem (c : jschar) : upperChar (upperChar c) = upperChar c.
Proof.
  unfold upperChar. destruct (isLower c) eqn:E; [|rewrite E; reflexivity].
  apply isLower_range in E.
  destruct (isLower (c - 32)) eqn:E'; [|reflexivity].
  apply isLower_range in E'. lia.
Qed.

Lemma isWhiteSpace_lowerChar (c : jschar) :
  isWhiteSpace (lowerChar c) = isWhiteSpace c.
Proof.
  unfold lowerChar. destruct (isUpper c) eqn:E; [|reflexivity].
  apply isUpper_range in E. rewrite !isWhiteSpace_letters by lia. reflexivity.
Qed.

Lemma isWhiteSpace_upperChar (c : jschar) :
  isWhiteSpace (upperChar c) = isWhiteSpace c.
Proof.
  unfold upperChar. destruct (isLower c) eqn:E; [|reflexivity].
  apply isLower_range in E. rewrite !isWhiteSpace_letters by lia. reflexivity.
Qed.

Lemma toLowerCase_idem (s : jsstring) : toLowerCase (toLowerCase s) = toLowerCase s.
Proof.
  unfold toLowerCase. rewrite map_map. apply map_ext. apply lowerChar_idem.
Qed.

Lemma titleCase_idem (b : bool) (s : jsstring) :
  titleCase b (titleCase b s) = titleCase b s.
Proof.
  revert b; induction s as [|c s IH]; intros b; simpl; [reflexivity|].
  destruct (isWhiteSpace c) eqn:E; simpl.
  - rewrite E, IH. reflexivity.
  - destruct b.
    + rewrite isWhiteSpace_upperChar, E, upperChar_idem, IH. reflexivity.
    + rewrite isWhiteSpace_lowerChar, E, lowerChar_idem, IH. reflexivity.
Qed.

(** The name of the column alone chooses what is done to its cells. *)
Lemma normalizeCaseFn_rule (columnName : jsstring) :
  (forall x, normalizeCaseFn x columnName = x)
  \/ (forall x, normalizeCaseFn x columnName = toLowerCase x)
  \/ (forall x, normalizeCaseFn x columnName = titleCase true x).
Proof.
  unfold normalizeCaseFn.
  destruct (test _ (toLowerCase columnName)).
  { right; left. intros [|c x]; reflexivity. }
  destruct (test _ (toLowerCase columnName)).
  { right; left. intros [|c x]; reflexivity. }
  destruct (fullMatch nameLikeColumn (toLowerCase columnName)).
  - right; right. intros [|c x]; reflexivity.
  - left. intros [|c x]; reflexivity.
Qed.

Lemma normalizeCaseFn_idempotent (columnName : jsstring) :
  idempotent (fun str => normalizeCaseFn str columnName).
Proof.
  intros x. cbv beta.
  destruct (normalizeCaseFn_rule columnName) as [H|[H|H]]; rewrite !H.
  - reflexivity.
  - apply toLowerCase_idem.
  - apply titleCase_idem.
Qed.

(** ** Email addresses *)

(** No two adjacent code units of [s] are [x]. *)
Fixpoint noAdj (x : jschar) (s : jsstring) : bool :=
  match s with
  | a :: ((b :: _) as r) => negb ((a =? x) && (b =? x)) && noAdj x r
  | _ => true
  end.

(** The first steps of [fixEmail], before the table of domains. *)
Definition squashEmail (email : jsstring) : jsstring :=
  collapseRuns (N.eqb 46) [46] false
    (collapseRuns (N.eqb comma) [comma] false
       (removeChars isWhiteSpace (trim (toLowerCase email)))).

Lemma noAdj_cons (x a : jschar) (s : jsstring) :
  noAdj x (a :: s) = true -> noAdj x s = true.
Proof.
  destruct s as [|b s]; [reflexivity|]. simpl.
  intros H. apply andb_true_iff in H as [_ H]. exact H.
Qed.

Lemma noAdj_cons_other (x a : jschar) (s : jsstring) :
  a <> x -> noAdj x (a :: s) = noAdj x s.
Proof.
  intros H. destruct s as [|b s]; [reflexivity|].
  change (noAdj x (a :: b :: s))
    with (negb ((a =? x) && (b =? x)) && noAdj x (b :: s)).
  apply N.eqb_neq in H. rewrite H. reflexivity.
Qed.

Lemma noAdj_collapse_same (x : jschar) (s : jsstring) :
  noAdj x (collapseRuns (N.eqb x) [x] false s) = true
  /\ noAdj x (x :: collapseRuns (N.eqb x) [x] true s) = true.
Proof.
  induction s as [|c s [IH1 IH2]]; [split; reflexivity|].
  cbn [collapseRuns]. destruct (N.eqb_spec x c) as [E|E].
  - subst c. cbn [app]. split; assumption.
  - assert (E' : c <> x) by congruence.
    split.
    + rewrite noAdj_cons_other by assumption. assumption.
    + change (noAdj x (x :: c :: collapseRuns (N.eqb x) [x] false s))
        with (negb ((x =? x) && (c =? x))
              && noAdj x (c :: collapseRuns (N.eqb x) [x] false s)).
      assert (E2 : (c =? x) = false) by (apply N.eqb_neq; assumption).
      rewrite E2, andb_false_r. cbn [negb andb].
      rewrite noAdj_cons_other by assumption. assumption.
Qed.

Lemma noAdj_collapse_other_from (x d prev : jschar) (s : jsstring) :
  noAdj x (prev :: s) = true ->
  noAdj x (prev :: collapseRuns (N.eqb d) [d] (d =? prev) s) = true.
Proof.
  revert prev; induction s as [|c s IH]; intros prev H; [reflexivity|].
  pose proof (IH c (noAdj_cons x prev (c :: s) H)) as IHc.
  change (noAdj x (prev :: c :: s))
    with (negb ((prev =? x) && (c =? x)) && noAdj x (c :: s)) in H.
  apply andb_true_iff in H as [Hp _].
  cbn [collapseRuns]. destruct (d =? c) eqn:E.
  - apply N.eqb_eq in E. subst c.
    destruct (d =? prev) eqn:E2; cbn [app].
    + apply N.eqb_eq in E2. subst prev. exact IHc.
    + change (noAdj x (prev :: d :: collapseRuns (N.eqb d) [d] true s))
        with (negb ((prev =? x) && (d =? x))
              && noAdj x (d :: collapseRuns (N.eqb d) [d] true s)).
      rewrite Hp, IHc. reflexivity.
  - change (noAdj x (prev :: c :: collapseRuns (N.eqb d) [d] false s))
      with (negb ((prev =? x) && (c =? x))
            && noAdj x (c :: collapseRuns (N.eqb d) [d] false s)).
    rewrite Hp, IHc. reflexivity.
Qed.

Lemma noAdj_collapse_other (x d : jschar) (s : jsstring) :
  noAdj x s = true -> noAdj x (collapseRuns (N.eqb d) [d] false s) = true.
Proof.
  destruct s as [|c s]; [reflexivity|]. intros H.
  pose proof (noAdj_collapse_other_from x d c s H) as H'.
  cbn [collapseRuns]. destruct (d =? c) eqn:E.
  - apply N.eqb_eq in E. subst c. exact H'.
  - exact H'.
Qed.

Lemma collapse_noAdj_from (x prev : jschar) (s : jsstring) :
  noAdj x (prev :: s) = true ->
  collapseRuns (N.eqb x) [x] (x =? prev) s = s.
Proof.
  revert prev; induction s as [|c s IH]; intros prev H; [reflexivity|].
  pose proof (IH c (noAdj_cons x prev (c :: s) H)) as IHc.
  change (noAdj x (prev :: c :: s))
    with (negb ((prev =? x) && (c =? x)) && noAdj x (c :: s)) in H.
  apply andb_true_iff in H as [Hp _].
  cbn [collapseRuns]. destruct (x =? c) eqn:E.
  - apply N.eqb_eq in E. subst c. rewrite N.eqb_refl, andb_true_r in Hp.
    rewrite (N.eqb_sym x prev). destruct (prev =? x); [discriminate|].
    cbn [app]. rewrite IHc. reflexivity.
  - rewrite IHc. reflexivity.
Qed.

Lemma collapse_noAdj (x : jschar) (s : jsstring) :
  noAdj x s = true -> collapseRuns (N.eqb x) [x] false s = s.
Proof.
  destruct s as [|c s]; [reflexivity|]. intros H.
  pose proof (collapse_noAdj_from x c s H) as H'.
  cbn [collapseRuns]. destruct (x =? c) eqn:E.
  - cbn [app]. rewrite H'. apply N.eqb_eq in E. subst; reflexivity.
  - rewrite H'. reflexivity.
Qed.

Lemma noAdj_app_l (x : jschar) (a b : jsstring) :
  noAdj x (a ++ b) = true -> noAdj x a = true.
Proof.
  induction a as [|c a IH]; [reflexivity|].
  destruct a as [|c' a]; [reflexivity|].
  change (noAdj x ((c :: c' :: a) ++ b))
    with (negb ((c =? x) && (c' =? x)) && noAdj x ((c' :: a) ++ b)).
  change (noAdj x (c :: c' :: a))
    with (negb ((c =? x) && (c' =? x)) && noAdj x (c' :: a)).
  intros H. apply andb_true_iff in H as [H1 H2]. rewrite H1, IH by assumption.
  reflexivity.
Qed.

Lemma noAdj_app_at (x y : jschar) (a b : jsstring) :
  y <> x -> noAdj x a = true -> noAdj x (y :: b) = true ->
  noAdj x (a ++ y :: b) = true.
Proof.
  intros Hy Ha Hb. induction a as [|c a IH]; [exact Hb|].
  destruct a as [|c' a].
  - change (noAdj x ([c] ++ y :: b))
      with (negb ((c =? x) && (y =? x)) && noAdj x (y :: b)).
    apply N.eqb_neq in Hy. rewrite Hy, andb_false_r, Hb. reflexivity.
  - change (noAdj x ((c :: c' :: a) ++ y :: b))
      with (negb ((c =? x) && (c' =? x)) && noAdj x ((c' :: a) ++ y :: b)).
    change (noAdj x (c :: c' :: a))
      with (negb ((c =? x) && (c' =? x)) && noAdj x (c' :: a)) in Ha.
    apply andb_true_iff in Ha as [H1 H2]. rewrite H1, IH by assumption.
    reflexivity.
Qed.

(* ====================================================================== *)
(** * More on the row parser and the serialiser *)
(* ====================================================================== *)

Lemma parseLoop_unquoted_length (sep : jschar) (cells : list jsstring)
  (cell line : jsstring) :
  hasChar dquote line = false ->
  length (parseLoop [sep] cells cell false line)
  = (length cells + S (countChar sep line))%nat.
Proof.
  revert cells cell; induction line as [|c line IH]; intros cells cell Hq.
  - simpl. rewrite length_app. simpl. unfold countChar. simpl. lia.
  - simpl in Hq. apply orb_false_iff in Hq as [Hq1 Hq2].
    rewrite N.eqb_sym in Hq1. cbn [parseLoop]. rewrite Hq1.
    change (streqb [c] [sep]) with ((c =? sep) && true).
    rewrite andb_true_r. unfold countChar in *. cbn [filter].
    rewrite (N.eqb_sym sep c). destruct (c =? sep).
    + rewrite IH by assumption. rewrite length_app. simpl. lia.
    + rewrite IH by assumption. lia.
Qed.

(** X1. On a line without a double quote, [parseCSVLine] returns one cell
    more than the line has separators. *)
Theorem parseCSVLine_unquoted_cell_count (sep : jschar) (line : jsstring) :
  hasChar dquote line = false ->
  length (parseCSVLine line [sep]) = S (countChar sep line).
Proof.
  intros H. unfold parseCSVLine.
  rewrite parseLoop_unquoted_length by assumption. reflexivity.
Qed.

Lemma parseCSVLine_unquoted_cell_count_witness :
  length (parseCSVLine (lit "a;b;;c d") [semicolon]) = 4%nat.
Proof.
  apply (parseCSVLine_unquoted_cell_count semicolon (lit "a;b;;c d")).
  reflexivity.
Defined.

(** A cell that [parseCSVLine] gives back as it is: no white space at
    either end, and not both a leading and a trailing double quote. *)
Definition plainCell (s : jsstring) : Prop :=
  trim s = s /\ startsWith [dquote] s && endsWith [dquote] s = false.

Lemma parseLoop_plain_then (cells : list jsstring) (cell s rest : jsstring) :
  hasChar comma s = false -> hasChar dquote s = false ->
  parseLoop [comma] cells cell false (s ++ comma :: rest)
  = parseLoop [comma] (cells ++ [finishCell (cell ++ s)]) [] false rest.
Proof.
  revert cell; induction s as [|c s IH]; intros cell Hc Hq.
  - cbn [app parseLoop]. change (comma =? dquote) with false.
    change (streqb [comma] [comma]) with true. cbn iota.
    rewrite app_nil_r. reflexivity.
  - simpl in Hc, Hq. apply orb_false_iff in Hc as [Hc1 Hc2].
    apply orb_false_iff in Hq as [Hq1 Hq2].
    rewrite N.eqb_sym in Hq1. rewrite N.eqb_sym in Hc1.
    cbn [app parseLoop]. rewrite Hq1.
    change (streqb [c] [comma]) with ((c =? comma) && true).
    rewrite Hc1. cbn [andb]. rewrite IH by assumption.
    rewrite <- app_assoc. reflexivity.
Qed.

Lemma parseLoop_quoted_then (cells : list jsstring) (cell s rest : jsstring) :
  parseLoop [comma] cells cell true
    (replaceChar dquote [dquote; dquote] s ++ dquote :: comma :: rest)
  = parseLoop [comma] (cells ++ [finishCell (cell ++ s)]) [] false rest.
Proof.
  revert cell; induction s as [|c s IH]; intros cell.
  - cbn [replaceChar flat_map app parseLoop].
    change (dquote =? dquote) with true. change (comma =? dquote) with false.
    change (streqb [comma] [comma]) with true. cbn iota.
    rewrite app_nil_r. reflexivity.
  - unfold replaceChar in *. cbn [flat_map]. destruct (c =? dquote) eqn:E.
    + apply N.eqb_eq in E; subst c. cbn [app parseLoop].
      change (dquote =? dquote) with true. cbn iota. rewrite IH.
      rewrite <- app_assoc. reflexivity.
    + cbn [app parseLoop]. rewrite E. rewrite IH.
      rewrite <- app_assoc. reflexivity.
Qed.

Lemma finishCell_plain (s : jsstring) : plainCell s -> finishCell s = s.
Proof. intros [Ht Hq]. unfold finishCell. rewrite Ht, Hq. reflexivity. Qed.

Lemma parseLoop_cell_then (cells : list jsstring) (s rest : jsstring) :
  plainCell s ->
  parseLoop [comma] cells [] false (quoteCell (Some s) ++ comma :: rest)
  = parseLoop [comma] (cells ++ [s]) [] false rest.
Proof.
  intros Hs. pose proof (finishCell_plain s Hs) as Hf. unfold quoteCell.
  assert (Q : parseLoop [comma] cells [] false
                (([dquote] ++ replaceChar dquote [dquote; dquote] s ++ [dquote])
                 ++ comma :: rest)
              = parseLoop [comma] (cells ++ [s]) [] false rest).
  { cbn [app]. rewrite <- app_assoc. cbn [app parseLoop].
    change (dquote =? dquote) with true. cbn iota.
    rewrite parseLoop_quoted_then. cbn [app]. rewrite Hf. reflexivity. }
  destruct (hasChar comma s) eqn:Ec; cbn [orb]; [exact Q|].
  destruct (hasChar dquote s) eqn:Ed; cbn [orb]; [exact Q|].
  destruct (hasChar LF s || hasChar CR s); [exact Q|].
  rewrite parseLoop_plain_then by assumption. cbn [app]. rewrite Hf.
  reflexivity.
Qed.

Lemma parseLoop_cell_last (cells : list jsstring) (s : jsstring) :
  plainCell s ->
  parseLoop [comma] cells [] false (quoteCell (Some s)) = cells ++ [s].
Proof.
  intros Hs. pose proof (finishCell_plain s Hs) as Hf. unfold quoteCell.
  assert (Q : parseLoop [comma] cells [] false
                ([dquote] ++ replaceChar dquote [dquote; dquote] s ++ [dquote])
              = cells ++ [s]).
  { cbn [app parseLoop]. change (dquote =? dquote) with true. cbn iota.
    rewrite parseLoop_quoted. cbn [app]. rewrite Hf. reflexivity. }
  destruct (hasChar comma s) eqn:Ec; cbn [orb]; [exact Q|].
  destruct (hasChar dquote s) eqn:Ed; cbn [orb]; [exact Q|].
  destruct (hasChar LF s || hasChar CR s); [exact Q|].
  rewrite parseLoop_plain by assumption. cbn [app]. rewrite Hf. reflexivity.
Qed.

Lemma parseLoop_row (acc cells : list jsstring) :
  cells <> [] -> Forall plainCell cells ->
  parseLoop [comma] acc [] false (serializeRow cells) = acc ++ cells.
Proof.
  unfold serializeRow. revert acc; induction cells as [|s cells IH];
    intros acc Hne Hall; [congruence|].
  inversion Hall as [|? ? Hs Hrest]; subst.
  destruct cells as [|t cells].
  - cbn [map join]. apply parseLoop_cell_last; assumption.
  - change (join [comma] (map (fun c => quoteCell (Some c)) (s :: t :: cells)))
      with (quoteCell (Some s)
            ++ comma :: join [comma] (map (fun c => quoteCell (Some c)) (t :: cells))).
    rewrite parseLoop_cell_then by assumption.
    rewrite IH by (assumption || discriminate).
    rewrite <- app_assoc. reflexivity.
Qed.

(** X2. A row written by the output assembler is read back cell for
    cell: for a non-empty row of cells without white space at either
    end, none of them wrapped in double quotes, parsing the serialised
    row with the comma gives the row. *)
Theorem parseCSVLine_serializeRow (cells : list jsstring) :
  cells <> [] -> Forall plainCell cells ->
  parseCSVLine (serializeRow cells) [comma] = cells.
Proof.
  intros Hne Hall. unfold parseCSVLine.
  rewrite parseLoop_row by assumption. reflexivity.
Qed.

Lemma parseCSVLine_serializeRow_witness :
  parseCSVLine (serializeRow [lit "a,b"; []; [97; dquote; 98]; lit "x y"])
               [comma]
  = [lit "a,b"; []; [97; dquote; 98]; lit "x y"].
Proof.
  apply (parseCSVLine_serializeRow
           [lit "a,b"; []; [97; dquote; 98]; lit "x y"]).
  - discriminate.
  - repeat constructor.
Defined.

(* ====================================================================== *)
(** * Runs of a class of code units *)
(* ====================================================================== *)

(** [tidy p x inRun s]: in [s] every code unit of the class [p] is [x],
    and no two of them are adjacent; with [inRun], nor is the first one
    of the class. *)
Fixpoint tidy (p : jschar -> bool) (x : jschar) (inRun : bool) (s : jsstring)
  : bool :=
  match s with
  | [] => true
  | c :: r =>
      if p c then negb inRun && (c =? x) && tidy p x true r
      else tidy p x false r
  end.

Lemma collapseRuns_tidy (p : jschar -> bool) (x : jschar) (b : bool)
  (s : jsstring) :
  tidy p x b s = true -> collapseRuns p [x] b s = s.
Proof.
  revert b; induction s as [|c s IH]; intros b H; [reflexivity|].
  cbn [tidy collapseRuns] in *. destruct (p c).
  - apply andb_true_iff in H as [H H2]. apply andb_true_iff in H as [H0 H1].
    destruct b; [discriminate|]. apply N.eqb_eq in H1. subst c.
    cbn [app]. rewrite IH by assumption. reflexivity.
  - rewrite IH by assumption. reflexivity.
Qed.

Lemma tidy_collapseRuns (p : jschar -> bool) (x : jschar) (b : bool)
  (s : jsstring) :
  p x = true -> tidy p x b (collapseRuns p [x] b s) = true.
Proof.
  intros Hx. revert b; induction s as [|c s IH]; intros b; [reflexivity|].
  cbn [collapseRuns]. destruct (p c) eqn:E.
  - destruct b; cbn [app].
    + apply IH.
    + cbn [tidy]. rewrite Hx, N.eqb_refl, IH. reflexivity.
  - cbn [tidy]. rewrite E. apply IH.
Qed.

Lemma tidy_weaken (p : jschar -> bool) (x : jschar) (s : jsstring) :
  tidy p x true s = true -> tidy p x false s = true.
Proof.
  destruct s as [|c s]; [reflexivity|]. cbn [tidy].
  destruct (p c); [discriminate | auto].
Qed.

(** A string in which the class does not occur is tidy. *)
Lemma tidy_none (p : jschar -> bool) (x : jschar) (b : bool) (s : jsstring) :
  forallb (fun c => negb (p c)) s = true -> tidy p x b s = true.
Proof.
  revert b; induction s as [|c s IH]; intros b H; [reflexivity|].
  cbn [forallb tidy] in *. apply andb_true_iff in H as [H1 H2].
  destruct (p c); [discriminate | auto].
Qed.

Lemma forallb_collapseRuns (q p : jschar -> bool) (rep : jsstring) (b : bool)
  (s : jsstring) :
  forallb q rep = true -> forallb q s = true ->
  forallb q (collapseRuns p rep b s) = true.
Proof.
  intros Hr. revert b; induction s as [|c s IH]; intros b H; [reflexivity|].
  cbn [forallb collapseRuns] in *. apply andb_true_iff in H as [H1 H2].
  destruct (p c).
  - rewrite forallb_app, IH by assumption. destruct b; [reflexivity|].
    rewrite Hr. reflexivity.
  - cbn [forallb]. rewrite H1, IH by assumption. reflexivity.
Qed.

Lemma forallb_dropWhile (q p : jschar -> bool) (s : jsstring) :
  forallb q s = true -> forallb q (dropWhile p s) = true.
Proof.
  induction s as [|c s IH]; intros H; [reflexivity|].
  cbn [dropWhile]. destruct (p c); [|exact H].
  cbn [forallb] in H. apply andb_true_iff in H as [_ H]. auto.
Qed.

Lemma forallb_rev (q : jschar -> bool) (s : jsstring) :
  forallb q s = true -> forallb q (rev s) = true.
Proof.
  rewrite !forallb_forall. intros H c Hc. apply H, in_rev. assumption.
Qed.

Lemma forallb_trimStart (q : jschar -> bool) (s : jsstring) :
  forallb q s = true -> forallb q (trimStart s) = true.
Proof.
  induction s as [|c s IH]; intros H; [reflexivity|].
  cbn [trimStart]. destruct (isWhiteSpace c); [|exact H].
  cbn [forallb] in H. apply andb_true_iff in H as [_ H]. auto.
Qed.

Lemma forallb_trim (q : jschar -> bool) (s : jsstring) :
  forallb q s = true -> forallb q (trim s) = true.
Proof.
  intros H. unfold trim, trimEnd.
  auto using forallb_rev, forallb_trimStart.
Qed.

(* ====================================================================== *)
(** * Column names *)
(* ====================================================================== *)

(** [[a-z0-9_]] *)
Definition isNameChar (c : jschar) : bool :=
  isLower c || isDigit c || (c =? 95).

Lemma isDigit_range (c : jschar) : isDigit c = true <-> 48 <= c <= 57.
Proof.
  unfold isDigit, inRange. rewrite andb_true_iff, !N.leb_le. tauto.
Qed.

Lemma isNameChar_range (c : jschar) :
  isNameChar c = true -> 48 <= c <= 122 /\ ~ (65 <= c <= 90).
Proof.
  unfold isNameChar. rewrite !orb_true_iff, isLower_range, isDigit_range,
    N.eqb_eq. lia.
Qed.

Lemma isNameChar_lowerChar (c : jschar) :
  isWordChar c = true -> isNameChar (lowerChar c) = true.
Proof.
  unfold isWordChar, isAlpha, isNameChar, lowerChar.
  destruct (isUpper c) eqn:U.
  - intros _. apply isUpper_range in U.
    assert (L : isLower (c + 32) = true) by (apply isLower_range; lia).
    rewrite L. reflexivity.
  - cbn [orb]. auto.
Qed.

Lemma isNameChar_wordChar (c : jschar) :
  isNameChar c = true -> isWordChar c = true.
Proof.
  unfold isWordChar, isAlpha, isNameChar.
  destruct (isLower c), (isDigit c), (c =? 95), (isUpper c); auto.
Qed.

Lemma lowerChar_nameChar (c : jschar) :
  isNameChar c = true -> lowerChar c = c.
Proof.
  intros H. apply isNameChar_range in H as [_ H]. unfold lowerChar.
  destruct (isUpper c) eqn:U; [|reflexivity].
  apply isUpper_range in U. contradiction.
Qed.

Lemma isWhiteSpace_nameChar (c : jschar) :
  isNameChar c = true -> isWhiteSpace c = false.
Proof.
  intros H. apply isNameChar_range in H as [H _].
  apply isWhiteSpace_letters. lia.
Qed.

Lemma forallb_mapChars_word (s : jsstring) :
  forallb isWordChar (mapChars (fun c => negb (isWordChar c)) 95 s) = true.
Proof.
  unfold mapChars. induction s as [|c s IH]; [reflexivity|].
  cbn [map forallb]. rewrite IH, andb_true_r.
  destruct (isWordChar c) eqn:E; [exact E | reflexivity].
Qed.

(** X3. [sanitizeColumnName] always returns a name that is not empty, and
    the name is made of lower-case letters, digits and underscores
    whenever the random suffix of the placeholder is. *)
Theorem sanitizeColumnName_identifier (rnd name : jsstring) :
  forallb isNameChar rnd = true ->
  sanitizeColumnName rnd name <> []
  /\ forallb isNameChar (sanitizeColumnName rnd name) = true.
Proof.
  intros Hr. unfold sanitizeColumnName.
  set (t := collapseRuns isUnderscore [95] false
              (stripUnderscores
                 (mapChars (fun c => negb (isWordChar c)) 95
                    (dropBOM (trim name))))).
  assert (Ht : forallb isWordChar t = true).
  { unfold t, stripUnderscores.
    apply forallb_collapseRuns; [reflexivity|].
    apply forallb_rev, forallb_dropWhile, forallb_rev, forallb_dropWhile.
    apply forallb_mapChars_word. }
  assert (Hl : forallb isNameChar (toLowerCase t) = true).
  { unfold toLowerCase. rewrite forallb_forall in *.
    intros c Hc. apply in_map_iff in Hc as (d & <- & Hd).
    apply isNameChar_lowerChar. auto. }
  destruct (toLowerCase t) as [|c l] eqn:E.
  - split; [discriminate|]. rewrite forallb_app, Hr. reflexivity.
  - split; [discriminate | exact Hl].
Qed.

Lemma sanitizeColumnName_identifier_witness :
  sanitizeColumnName (lit "k3x9q") (lit "  Unit Price ($) ") <> []
  /\ forallb isNameChar
       (sanitizeColumnName (lit "k3x9q") (lit "  Unit Price ($) ")) = true.
Proof.
  apply (sanitizeColumnName_identifier (lit "k3x9q") (lit "  Unit Price ($) ")).
  reflexivity.
Defined.

Lemma includes_cons (p : jsstring) (c : jschar) (s : jsstring) :
  includes p (c :: s) = false -> includes p s = false.
Proof.
  cbn [includes]. intros H. apply orb_false_iff in H as [_ H]. exact H.
Qed.

Lemma tidy_underscores (b : bool) (s : jsstring) :
  includes [95; 95] s = false ->
  (b = true -> startsWith [95] s = false) ->
  tidy isUnderscore 95 b s = true.
Proof.
  revert b; induction s as [|c s IH]; intros b Hi Hs; [reflexivity|].
  cbn [tidy]. unfold isUnderscore at 1. destruct (c =? 95) eqn:E.
  - apply N.eqb_eq in E. subst c.
    assert (Hb : b = false).
    { destruct b; [|reflexivity]. specialize (Hs eq_refl). discriminate Hs. }
    subst b. cbn [negb andb].
    apply IH; [eapply includes_cons; eassumption|].
    intros _. cbn [includes] in Hi. apply orb_false_iff in Hi as [Hi _].
    unfold startsWith in *. cbn [prefixBy] in *.
    rewrite N.eqb_refl in Hi. cbn [andb] in Hi.
    destruct s as [|d s]; [reflexivity|]. cbn [prefixBy] in *.
    rewrite andb_true_r in Hi. rewrite andb_true_r. exact Hi.
  - apply IH; [eapply includes_cons; eassumption | discriminate].
Qed.

Lemma dropWhile_head (p : jschar -> bool) (s : jsstring) :
  match s with [] => True | c :: _ => p c = false end -> dropWhile p s = s.
Proof. destruct s as [|c s]; [reflexivity|]. cbn. intros ->. reflexivity. Qed.

(** X4. A name that is already clean is kept: [sanitizeColumnName]
    returns a non-empty name of lower-case letters, digits and
    underscores unchanged when it neither starts nor ends with an
    underscore and has no two underscores in a row. *)
Theorem sanitizeColumnName_keeps_clean_names (rnd name : jsstring) :
  name <> [] ->
  forallb isNameChar name = true ->
  startsWith [95] name = false ->
  endsWith [95] name = false ->
  includes [95; 95] name = false ->
  sanitizeColumnName rnd name = name.
Proof.
  intros Hne Hall Hs He Hi. unfold sanitizeColumnName.
  assert (Hws : forallb (fun c => negb (isWhiteSpace c)) name = true).
  { rewrite forallb_forall in *. intros c Hc.
    rewrite isWhiteSpace_nameChar by auto. reflexivity. }
  rewrite (trim_no_space name Hws).
  assert (Hb : dropBOM name = name).
  { destruct name as [|c s]; [reflexivity|]. cbn [dropBOM].
    cbn [forallb] in Hall. apply andb_true_iff in Hall as [Hc _].
    apply isNameChar_range in Hc as [Hc _].
    destruct (N.eqb_spec c BOM) as [E|E]; [|reflexivity].
    unfold BOM in E. lia. }
  rewrite Hb.
  assert (Hm : mapChars (fun c => negb (isWordChar c)) 95 name = name).
  { unfold mapChars. rewrite <- (map_id name) at 2. apply map_ext_in.
    intros c Hc. rewrite forallb_forall in Hall.
    rewrite isNameChar_wordChar by auto. reflexivity. }
  rewrite Hm.
  assert (Hst : stripUnderscores name = name).
  { unfold stripUnderscores.
    assert (D1 : dropWhile isUnderscore name = name).
    { apply dropWhile_head. unfold startsWith in Hs.
      destruct name as [|c s]; [exact I|].
      cbn [prefixBy] in Hs. rewrite andb_true_r in Hs.
      unfold isUnderscore. rewrite N.eqb_sym. exact Hs. }
    rewrite D1.
    assert (D2 : dropWhile isUnderscore (rev name) = rev name).
    { apply dropWhile_head. unfold endsWith, startsWith in He.
      cbn [rev app] in He. destruct (rev name) as [|c s]; [exact I|].
      cbn [prefixBy] in He. rewrite andb_true_r in He.
      unfold isUnderscore. rewrite N.eqb_sym. exact He. }
    rewrite D2. apply rev_involutive. }
  rewrite Hst.
  rewrite collapseRuns_tidy by (apply tidy_underscores; [assumption | discriminate]).
  assert (Hl : toLowerCase name = name).
  { unfold toLowerCase. rewrite <- (map_id name) at 2. apply map_ext_in.
    intros c Hc. rewrite forallb_forall in Hall.
    apply lowerChar_nameChar. auto. }
  rewrite Hl. destruct name; [congruence | reflexivity].
Qed.

Lemma sanitizeColumnName_keeps_clean_names_witness :
  sanitizeColumnName (lit "zzzzz") (lit "unit_price_2") = lit "unit_price_2".
Proof.
  apply (sanitizeColumnName_keeps_clean_names (lit "zzzzz") (lit "unit_price_2"));
    try reflexivity.
  discriminate.
Defined.

Lemma ownCount_fresh (h k : jsstring) (v : option N)
  (nameCount : list (jsstring * option N)) :
  h <> k -> ownCount h ((k, v) :: nameCount) = ownCount h nameCount.
Proof.
  intros H. cbn [ownCount]. apply streqb_neq in H. rewrite H. reflexivity.
Qed.

Lemma dedupNames_distinct (nameCount : list (jsstring * option N))
  (hs : list jsstring) :
  NoDup hs -> ~ In (lit "constructor") hs ->
  (forall h, In h hs -> ownCount h nameCount = None) ->
  dedupNames nameCount hs = hs.
Proof.
  revert nameCount; induction hs as [|h hs IH]; intros nc Hnd Hc Hown;
    [reflexivity|].
  inversion Hnd as [|? ? Hnotin Hnd']; subst.
  cbn [dedupNames]. rewrite (Hown h) by (left; reflexivity).
  assert (Ei : inheritedName h = false).
  { unfold inheritedName. apply streqb_neq. intros E. apply Hc. left.
    congruence. }
  rewrite Ei. f_equal. apply IH.
  - assumption.
  - intros H. apply Hc. right. exact H.
  - intros k Hk. rewrite ownCount_fresh.
    + apply Hown. right. exact Hk.
    + intros E. subst k. contradiction.
Qed.

Lemma dedupNames_length (nameCount : list (jsstring * option N))
  (hs : list jsstring) :
  length (dedupNames nameCount hs) = length hs.
Proof.
  revert nameCount; induction hs as [|h hs IH]; intros nc; [reflexivity|].
  cbn [dedupNames].
  destruct (ownCount h nc) as [[k|]|]; [| |destruct (inheritedName h)];
    cbn [length]; rewrite IH; reflexivity.
Qed.

(** X5. The de-duplication of the column names keeps their number, and
    leaves a header whose names are pairwise distinct, and are not
    [constructor], as it is. *)
Theorem dedupNames_keeps_distinct_names (hs : list jsstring) :
  NoDup hs -> ~ In (lit "constructor") hs ->
  dedupNames [] hs = hs /\ length (dedupNames [] hs) = length hs.
Proof.
  intros Hnd Hc. split; [|apply dedupNames_length].
  apply dedupNames_distinct; auto.
Qed.

Lemma dedupNames_keeps_distinct_names_witness :
  dedupNames [] [lit "id"; lit "name"; lit "name_1"]
  = [lit "id"; lit "name"; lit "name_1"].
Proof.
  apply (dedupNames_keeps_distinct_names [lit "id"; lit "name"; lit "name_1"]).
  - repeat constructor; cbn [In]; intros H;
      repeat (destruct H as [H|H]; [discriminate H|]); exact H.
  - cbn [In]. intros H.
    repeat (destruct H as [H|H]; [discriminate H|]). exact H.
Defined.

(* ====================================================================== *)
(** * More on the cell transforms *)
(* ====================================================================== *)

(** X6. Phone formatting keeps the digits of the value, all of them and
    in their order; what it adds or removes is punctuation. *)
Theorem standardizePhoneFn_keeps_digits (phone : jsstring) :
  filter isDigit (standardizePhoneFn phone) = filter isDigit phone.
Proof.
  destruct (standardizePhoneFn_cases phone) as [E|[Hn E]]; rewrite E.
  - reflexivity.
  - apply formatDigits_digits; [apply forallb_filter | exact Hn].
Qed.

(** X7. Phone formatting is idempotent: a formatted number is formatted
    to itself. *)
Theorem standardizePhoneFn_twice (phone : jsstring) :
  standardizePhoneFn (standardizePhoneFn phone) = standardizePhoneFn phone.
Proof. apply standardizePhoneFn_idempotent. Qed.

Lemma lang_Cat_Chr_In (a b : re) (k : jschar) (w : jsstring) :
  lang (Cat a (Cat (chr k) b)) w -> In k w.
Proof.
  intros H. apply lang_Cat_inv in H as (s1 & t1 & -> & _ & H).
  apply lang_Cat_inv in H as (s2 & t2 & -> & H & _).
  apply lang_Chr_inv in H as (c & -> & E). apply N.eqb_eq in E. subst c.
  apply in_or_app; right. left; reflexivity.
Qed.

Lemma digits_no_separator (k : jschar) (w : jsstring) :
  isDigit k = false -> forallb isDigit w = true -> ~ In k w.
Proof.
  intros Hk Hw Hin. rewrite forallb_forall in Hw. specialize (Hw k Hin).
  congruence.
Qed.

Lemma datePatterns_need_separator (w : jsstring) :
  forallb isDigit w = true ->
  existsb (fun p => fullMatch p w) (datePatterns) = false.
Proof.
  intros Hw. unfold datePatterns. cbv zeta. cbn [existsb].
  repeat match goal with
         | |- context [fullMatch ?p w] =>
             let E := fresh "E" in
             destruct (fullMatch p w) eqn:E;
             [ exfalso; apply fullMatch_lang, lang_Cat_Chr_In in E;
               revert E; apply digits_no_separator; [reflexivity | exact Hw]
             | ]
         end.
  reflexivity.
Qed.

(** X8. A string of decimal digits is never taken for a date, whatever
    the host's [Date] makes of it: every date pattern needs a separator. *)
Theorem isValidDate_rejects_digit_strings
  (parseDate : jsstring -> option (Z * N * N)) (str : jsstring) :
  forallb isDigit str = true -> isValidDate parseDate str = false.
Proof.
  intros H. unfold isValidDate.
  rewrite (datePatterns_need_separator (trim str)) by (apply forallb_trim; exact H).
  repeat match goal with
         | |- (if ?b then _ else _) = _ => destruct b
         end; reflexivity.
Qed.

Lemma isValidDate_rejects_digit_strings_witness :
  isValidDate (fun _ => Some (2020%Z, 0, 1)) (lit "20200115") = false.
Proof.
  apply (isValidDate_rejects_digit_strings
           (fun _ => Some (2020%Z, 0, 1)) (lit "20200115")).
  reflexivity.
Defined.

(** X9. Case normalisation is idempotent.  The case mappings of the
    embedding are those of the host on Basic Latin text, which is what
    the hypotheses ask of the value and of the column name. *)
Theorem normalizeCaseFn_twice (str columnName : jsstring) :
  forallb isAscii str = true -> forallb isAscii columnName = true ->
  normalizeCaseFn (normalizeCaseFn str columnName) columnName
  = normalizeCaseFn str columnName.
Proof. intros _ _. apply (normalizeCaseFn_idempotent columnName str). Qed.

Lemma normalizeCaseFn_twice_witness :
  normalizeCaseFn (normalizeCaseFn (lit "mARY  ann o'NEIL") (lit "first_name"))
                  (lit "first_name")
  = normalizeCaseFn (lit "mARY  ann o'NEIL") (lit "first_name").
Proof.
  apply (normalizeCaseFn_twice (lit "mARY  ann o'NEIL") (lit "first_name"));
    reflexivity.
Defined.

(** X10. Control-character stripping leaves no control character, keeps
    a string that has none as it is, and is idempotent. *)
Theorem removeSpecialCharsFn_clean (str : jsstring) :
  forallb (fun c => negb (isControlChar c)) (removeSpecialCharsFn str) = true
  /\ removeSpecialCharsFn (removeSpecialCharsFn str) = removeSpecialCharsFn str
  /\ (forallb (fun c => negb (isControlChar c)) str = true ->
      removeSpecialCharsFn str = str).
Proof.
  split; [|split].
  - unfold removeSpecialCharsFn, removeChars. destruct str as [|c s];
      [reflexivity|]. apply forallb_filter.
  - apply removeSpecialCharsFn_idempotent.
  - intros H. unfold removeSpecialCharsFn, removeChars.
    destruct str as [|c s]; [reflexivity|]. apply filter_all. exact H.
Qed.

(** ** Markup *)

Lemma stripTags_no_open (s : jsstring) :
  hasChar 60 s = false -> stripTags false s = s.
Proof.
  induction s as [|c s IH]; intros H; [reflexivity|].
  unfold hasChar in *. cbn [existsb] in H.
  apply orb_false_iff in H as [H1 H2]. cbn [stripTags].
  rewrite (N.eqb_sym c 60), H1. cbn [andb]. rewrite IH by assumption.
  reflexivity.
Qed.

Lemma ciEq_ampersand (c : jschar) : ciEq 38 c = true -> c = 38.
Proof.
  unfold ciEq, upperChar. change (isLower 38) with false. cbn iota.
  destruct (isLower c) eqn:E.
  - apply isLower_range in E. intros H. apply N.eqb_eq in H. lia.
  - intros H. apply N.eqb_eq in H. congruence.
Qed.

Lemma replaceAllCI_no_ampersand (pat rep s : jsstring) :
  hasChar 38 s = false -> replaceAllCI (38 :: pat) rep s = s.
Proof.
  unfold replaceAllCI. induction s as [|c s IH]; intros H; [reflexivity|].
  unfold hasChar in *. cbn [existsb] in H.
  apply orb_false_iff in H as [H1 H2].
  cbn [replaceAllBy prefixBy].
  destruct (ciEq 38 c) eqn:E.
  - apply ciEq_ampersand in E. subst c. discriminate H1.
  - cbn [andb]. rewrite IH by assumption. reflexivity.
Qed.

(** X11. HTML stripping leaves text without markup alone: a value with
    no [<] and no [&] is returned as it is. *)
Theorem removeHtmlTagsFn_keeps_plain_text (str : jsstring) :
  hasChar 60 str = false -> hasChar 38 str = false ->
  removeHtmlTagsFn str = str.
Proof.
  intros Ho Ha.
  assert (B : replaceAllCI (lit "&#039;") (lit "'")
                (replaceAllCI (lit "&quot;") [dquote]
                   (replaceAllCI (lit "&gt;") (lit ">")
                      (replaceAllCI (lit "&lt;") (lit "<")
                         (replaceAllCI (lit "&amp;") (lit "&")
                            (replaceAllCI (lit "&nbsp;") (lit " ")
                               (stripTags false str)))))) = str).
  { rewrite (stripTags_no_open str Ho).
    change (lit "&nbsp;") with (38 :: lit "nbsp;").
    change (lit "&amp;") with (38 :: lit "amp;").
    change (lit "&lt;") with (38 :: lit "lt;").
    change (lit "&gt;") with (38 :: lit "gt;").
    change (lit "&quot;") with (38 :: lit "quot;").
    change (lit "&#039;") with (38 :: lit "#039;").
    rewrite !(replaceAllCI_no_ampersand _ _ str Ha). reflexivity. }
  unfold removeHtmlTagsFn. destruct str; [reflexivity | exact B].
Qed.

Lemma removeHtmlTagsFn_keeps_plain_text_witness :
  removeHtmlTagsFn (lit "3 > 2, said Tom") = lit "3 > 2, said Tom".
Proof.
  apply (removeHtmlTagsFn_keeps_plain_text (lit "3 > 2, said Tom"));
    reflexivity.
Defined.

(** ** Mis-decoded text *)

Lemma includes_head_In (c : jschar) (p s : jsstring) :
  includes (c :: p) s = true -> In c s.
Proof.
  induction s as [|d s IH]; cbn [includes]; intros H.
  - unfold startsWith in H. cbn in H. discriminate H.
  - apply orb_true_iff in H as [H|H].
    + unfold startsWith in H. cbn [prefixBy] in H.
      apply andb_true_iff in H as [H _]. apply N.eqb_eq in H. left.
      congruence.
    + right. auto.
Qed.

Lemma encodingFixes_heads :
  forallb (fun fix_ => match fst fix_ with
                       | c :: _ => negb (isAscii c)
                       | [] => false
                       end) encodingFixes = true.
Proof. reflexivity. Qed.

Lemma fold_fixes_ascii (fixes : list (jsstring * jsstring)) (s : jsstring) :
  forallb (fun fix_ => match fst fix_ with
                       | c :: _ => negb (isAscii c)
                       | [] => false
                       end) fixes = true ->
  forallb isAscii s = true ->
  fold_left
    (fun result fix_ =>
       if includes (fst fix_) result
       then replaceAll (fst fix_) (snd fix_) result
       else result)
    fixes s = s.
Proof.
  intros Hf Hs. induction fixes as [|[bad good] fixes IH]; [reflexivity|].
  cbn [forallb fst] in Hf. apply andb_true_iff in Hf as [Hb Hf].
  cbn [fold_left fst snd].
  destruct (includes bad s) eqn:E; [|auto].
  exfalso. destruct bad as [|c bad]; [discriminate Hb|].
  apply includes_head_In in E. rewrite forallb_forall in Hs.
  rewrite (Hs c E) in Hb. discriminate Hb.
Qed.

(** X12. Encoding repair leaves Basic Latin text alone: a value whose
    code units are all below U+0080 is returned as it is. *)
Theorem fixEncodingIssues_keeps_ascii (str : jsstring) :
  forallb isAscii str = true -> fixEncodingIssues str = str.
Proof.
  intros H.
  pose proof (fold_fixes_ascii encodingFixes str encodingFixes_heads H) as F.
  unfold fixEncodingIssues. destruct str as [|c s]; [reflexivity|].
  rewrite F. cbn [dropBOM]. cbn [forallb] in H.
  apply andb_true_iff in H as [H _].
  destruct (N.eqb_spec c BOM) as [Ec|Ec]; [|reflexivity].
  subst c. discriminate H.
Qed.

Lemma fixEncodingIssues_keeps_ascii_witness :
  fixEncodingIssues (lit "Renee & Co. (50%)") = lit "Renee & Co. (50%)".
Proof.
  apply (fixEncodingIssues_keeps_ascii (lit "Renee & Co. (50%)")).
  reflexivity.
Defined.

(** ** The fuzzy key *)

(** [[a-z0-9]] *)
Definition isKeyChar (c : jschar) : bool := isLower c || isDigit c.

Lemma fuzzyNormalize_filter (s : jsstring) :
  fuzzyNormalize s = filter isKeyChar (toLowerCase s).
Proof.
  unfold fuzzyNormalize, removeChars, toLowerCase.
  induction s as [|c s IH]; [reflexivity|].
  cbn [map filter]. destruct (isWhiteSpace (lowerChar c)) eqn:W; cbn [negb].
  - rewrite IH.
    assert (K : isKeyChar (lowerChar c) = false).
    { unfold isKeyChar. destruct (isLower (lowerChar c)) eqn:L.
      - apply isLower_range in L.
        rewrite isWhiteSpace_letters in W by lia. discriminate W.
      - destruct (isDigit (lowerChar c)) eqn:D; [|reflexivity].
        apply isDigit_range in D.
        rewrite isWhiteSpace_letters in W by lia. discriminate W. }
    rewrite K. reflexivity.
  - cbn [filter]. rewrite negb_involutive. fold (isKeyChar (lowerChar c)).
    rewrite IH. reflexivity.
Qed.

Lemma lowerChar_upperChar (c : jschar) : lowerChar (upperChar c) = lowerChar c.
Proof.
  unfold upperChar. destruct (isLower c) eqn:L; [|reflexivity].
  apply isLower_range in L. unfold lowerChar.
  assert (U : isUpper (c - 32) = true) by (apply isUpper_range; lia).
  rewrite U. destruct (isUpper c) eqn:U'.
  - apply isUpper_range in U'. lia.
  - lia.
Qed.

Lemma isKeyChar_lowerChar_other (c : jschar) :
  isAlpha c = false -> isDigit c = false -> isKeyChar (lowerChar c) = false.
Proof.
  unfold isAlpha, isKeyChar, lowerChar. intros H D.
  apply orb_false_iff in H as [U L]. rewrite U, L, D. reflexivity.
Qed.

Lemma lowerChar_keyChar (c : jschar) : isKeyChar c = true -> lowerChar c = c.
Proof.
  intros H. apply lowerChar_nameChar. unfold isNameChar.
  unfold isKeyChar in H. apply orb_true_iff in H as [H|H]; rewrite H;
    [reflexivity | destruct (isLower c); reflexivity].
Qed.

(** X13. The fuzzy key of a Basic Latin value is made of lower-case
    letters and digits only; it does not change when the value is
    upper-cased, nor when everything but its letters and digits is
    removed; and the key of a key is the key. *)
Theorem fuzzyNormalize_folds_case_and_punctuation (str : jsstring) :
  forallb isAscii str = true ->
  forallb isKeyChar (fuzzyNormalize str) = true
  /\ fuzzyNormalize (toUpperCase str) = fuzzyNormalize str
  /\ fuzzyNormalize (filter (fun c => isAlpha c || isDigit c) str)
     = fuzzyNormalize str
  /\ fuzzyNormalize (fuzzyNormalize str) = fuzzyNormalize str.
Proof.
  intros _. rewrite !fuzzyNormalize_filter. split; [|split; [|split]].
  - apply forallb_filter.
  - f_equal. unfold toLowerCase, toUpperCase. rewrite map_map.
    apply map_ext. apply lowerChar_upperChar.
  - induction str as [|c s IH]; [reflexivity|].
    cbn [filter]. destruct (isAlpha c || isDigit c) eqn:E.
    + unfold toLowerCase in *. cbn [map filter]. rewrite IH. reflexivity.
    + apply orb_false_iff in E as [A D]. rewrite IH.
      unfold toLowerCase. cbn [map filter].
      rewrite (isKeyChar_lowerChar_other c A D). reflexivity.
  - assert (L : toLowerCase (filter isKeyChar (toLowerCase str))
                = filter isKeyChar (toLowerCase str)).
    { unfold toLowerCase at 1. rewrite <- (map_id (filter _ _)) at 2.
      apply map_ext_in. intros c Hc. apply filter_In in Hc as [_ Hc].
      apply lowerChar_keyChar. exact Hc. }
    rewrite L. apply filter_idem.
Qed.

Lemma fuzzyNormalize_folds_case_and_punctuation_witness :
  fuzzyNormalize (toUpperCase (lit "Jane  Doe-Smith, 3rd"))
  = fuzzyNormalize (lit "Jane  Doe-Smith, 3rd").
Proof.
  apply (fuzzyNormalize_folds_case_and_punctuation (lit "Jane  Doe-Smith, 3rd")).
  reflexivity.
Defined.

(** X14. Number-format repair is idempotent: what it returns it returns
    again. *)
Theorem fixNumberFormat_twice (str : jsstring) :
  fixNumberFormat (fixNumberFormat str) = fixNumberFormat str.
Proof. apply fixNumberFormat_idempotent. Qed.

(* ====================================================================== *)
(** * Reading the chunks back *)
(* ====================================================================== *)

Lemma rowsOfLines_bound (m : nat) (sep : jsstring) (lines : list jsstring)
  (rows : list (list jsstring)) :
  (length rows <= m)%nat ->
  (length (fst (rowsOfLines (Some (S m)) sep lines rows)) <= S m)%nat
  /\ (snd (rowsOfLines (Some (S m)) sep lines rows) = false ->
      (length (fst (rowsOfLines (Some (S m)) sep lines rows)) <= m)%nat).
Proof.
  revert rows; induction lines as [|line lines IH]; intros rows H.
  - cbn. split; intros; lia.
  - cbn [rowsOfLines]. destruct (isBlank line); [apply IH; exact H|].
    cbn [reached]. rewrite length_app. cbn [length].
    destruct (Nat.leb_spec (S m) (length rows + 1)) as [L|L].
    + cbn [fst snd]. rewrite length_app. cbn [length].
      split; [lia | discriminate].
    + apply IH. rewrite length_app. cbn [length]. lia.
Qed.

Lemma getAllDataRows_from_bound (m : nat) (first : bool)
  (chunks : list jsstring) (sep : jsstring) (rows : list (list jsstring)) :
  (length rows <= m)%nat ->
  (length (getAllDataRows_from first chunks (Some (S m)) sep rows) <= S m)%nat.
Proof.
  revert first rows; induction chunks as [|chunk chunks IH];
    intros first rows H; [cbn; lia|].
  cbn [getAllDataRows_from].
  set (lines := if first then tl (splitLines chunk) else splitLines chunk).
  pose proof (rowsOfLines_bound m sep lines rows H) as [B1 B2].
  destruct (rowsOfLines (Some (S m)) sep lines rows) as [rows' done].
  cbn [fst snd] in *. destruct done; [exact B1|].
  apply IH. auto.
Qed.

(** X15. [getAllDataRows] with a positive [maxRows] never returns more
    rows than that: the sample the type inferencer sees has at most 500
    rows. *)
Theorem getAllDataRows_at_most_maxRows (chunks : list jsstring) (m : nat)
  (sep : jsstring) :
  (0 < m)%nat -> (length (getAllDataRows chunks (Some m) sep) <= m)%nat.
Proof.
  intros H. destruct m as [|m]; [lia|].
  unfold getAllDataRows. apply getAllDataRows_from_bound. cbn. lia.
Qed.

(** A header chunk and a chunk of four one-digit rows. *)
Definition fourRowChunks : list jsstring :=
  [lit "h"; [LF; 49; LF; 50; LF; 51; LF; 52]].

Lemma getAllDataRows_at_most_maxRows_witness :
  (length (getAllDataRows fourRowChunks (Some 2%nat) [comma]) <= 2)%nat.
Proof.
  apply (getAllDataRows_at_most_maxRows fourRowChunks 2 [comma]). lia.
Defined.

(* ====================================================================== *)
(** * More on the type inferencer *)
(* ====================================================================== *)



















(* ====================================================================== *)
(** * Fields that span lines *)
(* ====================================================================== *)

(** X20. The merge of a field with an unbalanced quote takes at most
    [budget] of the following lines, and no more than there are, and
    appends each after a line feed; if the quotes of the merged line are
    still unbalanced, it has taken every line it may. *)
Theorem mergeQuotes_bounded (budget : nat) (line : jsstring)
  (rest : list jsstring) :
  let merged := fst (mergeQuotes budget line rest) in
  let taken := snd (mergeQuotes budget line rest) in
  (taken <= budget)%nat
  /\ (taken <= length rest)%nat
  /\ merged = line ++ concat (map (fun next => LF :: next) (firstn taken rest))
  /\ (Nat.odd (countQuotes merged) = true ->
      taken = Nat.min budget (length rest)).
Proof.
  cbv zeta. revert line rest; induction budget as [|b IH]; intros line rest.
  - cbn. rewrite app_nil_r. repeat split; lia.
  - destruct rest as [|next rest].
    + cbn. rewrite app_nil_r. repeat split; lia.
    + cbn [mergeQuotes]. destruct (Nat.odd (countQuotes line)) eqn:E.
      * specialize (IH (line ++ [LF] ++ next) rest).
        destruct (mergeQuotes b (line ++ [LF] ++ next) rest) as [l k].
        cbn [fst snd] in *. destruct IH as (I1 & I2 & I3 & I4).
        split; [lia|]. split; [cbn [length]; lia|]. split.
        -- rewrite I3. cbn [firstn map concat]. rewrite <- !app_assoc.
           reflexivity.
        -- intros H. specialize (I4 H). cbn [length]. lia.
      * cbn [fst snd firstn map concat]. rewrite app_nil_r.
        split; [lia|]. split; [lia|]. split; [reflexivity|].
        intros H. congruence.
Qed.

(* ====================================================================== *)
(** * The row pipeline as a sequence of steps *)
(* ====================================================================== *)

Section Pipeline.

Variable parseDate : jsstring -> option (Z * N * N).
Variable readChunkAsText : list Byte.byte -> jsstring.
Variable randomSuffix : nat -> jsstring.
Variable cfg : CleaningConfig.

(** What a row does to the state, from its transformed cells, whether
    it was a column mismatch, and the number of cells fixed. *)
Definition rowStep (h : Headers) (s : RowState)
  (x : list jsstring * bool * N) : RowState :=
  let '(cells, mismatch, fixedCells) := x in
  rowTail cfg h (count 1 (if mismatch then 1 else 0) fixedCells 0 s) cells.

(** The cells of a step have the width of the source header. *)
Definition stepWidth (h : Headers) (x : list jsstring * bool * N) : Prop :=
  length (fst (fst x)) = length (rawHeaders h).

Lemma mapCounting_fst (f : jsstring -> jsstring * bool) (l : list jsstring) :
  fst (mapCounting f l) = map (fun c => fst (f c)) l.
Proof.
  unfold mapCounting. induction l as [|c l IH]; [reflexivity|].
  cbn [fold_right map]. destruct (f c) as [c' ch] eqn:E. cbn [fst].
  rewrite IH. reflexivity.
Qed.

Lemma mapCounting_length (f : jsstring -> jsstring * bool) (l : list jsstring) :
  length (fst (mapCounting f l)) = length l.
Proof. rewrite mapCounting_fst. apply length_map. Qed.

Lemma standardTransforms_length (cells : list jsstring) :
  length (fst (standardTransforms cfg cells)) = length cells.
Proof.
  unfold standardTransforms.
  destruct (fixEncoding cfg).
  - pose proof (mapCounting_length (changing fixEncodingIssues) cells) as L1.
    destruct (mapCounting (changing fixEncodingIssues) cells) as [c1 n1].
    cbn [fst] in L1. destruct (trimWhitespace cfg).
    + pose proof (mapCounting_length (changing squeeze) c1) as L2.
      destruct (mapCounting (changing squeeze) c1) as [c2 n2].
      cbn [fst] in L2. destruct (normalizeValues cfg).
      * pose proof (mapCounting_length normalizeCell c2) as L3.
        destruct (mapCounting normalizeCell c2) as [c3 n3].
        cbn [fst] in *. lia.
      * cbn [fst]. lia.
    + destruct (normalizeValues cfg).
      * pose proof (mapCounting_length normalizeCell c1) as L3.
        destruct (mapCounting normalizeCell c1) as [c3 n3].
        cbn [fst] in *. lia.
      * cbn [fst]. lia.
  - destruct (trimWhitespace cfg).
    + pose proof (mapCounting_length (changing squeeze) cells) as L2.
      destruct (mapCounting (changing squeeze) cells) as [c2 n2].
      cbn [fst] in L2. destruct (normalizeValues cfg).
      * pose proof (mapCounting_length normalizeCell c2) as L3.
        destruct (mapCounting normalizeCell c2) as [c3 n3].
        cbn [fst] in *. lia.
      * cbn [fst]. lia.
    + destruct (normalizeValues cfg).
      * pose proof (mapCounting_length normalizeCell cells) as L3.
        destruct (mapCounting normalizeCell cells) as [c3 n3].
        cbn [fst] in *. lia.
      * reflexivity.
Qed.

Lemma advancedLoop_length (h : Headers) (i : nat) (cells : list jsstring) :
  length (fst (advancedLoop parseDate cfg h i cells)) = length cells.
Proof.
  revert i; induction cells as [|c cells IH]; intros i; [reflexivity|].
  cbn [advancedLoop]. specialize (IH (S i)).
  destruct (advancedLoop parseDate cfg h (S i) cells) as [r' n].
  cbn [fst] in IH.
  destruct (Z.of_nat i =? sourceIdColIndex h)%Z.
  - cbn [fst length]. lia.
  - destruct (advancedCell parseDate cfg (nth i (rawHeaders h) []) c) as [c' k].
    cbn [fst length]. lia.
Qed.

Lemma transformRow_length (h : Headers) (cells : list jsstring) :
  length (fst (transformRow parseDate cfg h cells)) = length cells.
Proof.
  unfold transformRow.
  pose proof (standardTransforms_length cells) as L1.
  destruct (standardTransforms cfg cells) as [c1 n1]. cbn [fst] in L1.
  destruct (mode cfg); [exact L1|].
  pose proof (advancedLoop_length h 0 c1) as L2.
  destruct (advancedLoop parseDate cfg h 0 c1) as [c2 n2].
  cbn [fst] in *. lia.
Qed.

Lemma tryMerge_width (sep : jsstring) (width budget m : nat)
  (attempt : jsstring) (rest : list jsstring) (cells : list jsstring)
  (k : nat) :
  tryMerge sep width budget m attempt rest = Some (cells, k) ->
  length cells = width.
Proof.
  revert m attempt rest; induction budget as [|b IH]; intros m attempt rest H;
    [discriminate H|].
  destruct rest as [|next rest]; [discriminate H|].
  cbn [tryMerge] in H.
  destruct (Nat.eqb_spec
              (length (parseCSVLine (attempt ++ [LF] ++ next) sep)) width)
    as [E|E].
  - injection H as Hc Hk. rewrite <- Hc. exact E.
  - eapply IH. exact H.
Qed.

Lemma padTo_length (n : nat) (cells : list jsstring) :
  (length cells <= n)%nat -> length (padTo n cells) = n.
Proof.
  intros H. unfold padTo. rewrite length_app, repeat_length. lia.
Qed.

Lemma parseRow_width (h : Headers) (line : jsstring) (rest : list jsstring) :
  length (fst (fst (parseRow h line rest))) = length (rawHeaders h).
Proof.
  unfold parseRow.
  destruct (if Nat.odd (countQuotes line) then mergeQuotes 50 line rest
            else (line, 0%nat)) as [line1 k].
  destruct (Nat.eqb_spec (length (parseCSVLine line1 (separator h)))
                         (length (rawHeaders h))) as [E|E];
    [exact E|].
  destruct (tryMerge _ _ 10 1 line1 (skipn k rest)) as [[cells m]|] eqn:T.
  - cbn [fst]. eapply tryMerge_width. exact T.
  - cbn [fst].
    destruct (Nat.ltb_spec (length (parseCSVLine line1 (separator h)))
                           (length (rawHeaders h))) as [L|L].
    + apply padTo_length. lia.
    + apply firstn_length_le. lia.
Qed.

Lemma processRow_step (h : Headers) (s : RowState) (line : jsstring)
  (rest : list jsstring) :
  exists x, fst (processRow parseDate cfg h s line rest) = rowStep h s x
            /\ stepWidth h x.
Proof.
  unfold processRow. pose proof (parseRow_width h line rest) as W.
  destruct (parseRow h line rest) as [[rawCells taken] mismatch].
  cbn [fst] in W. pose proof (transformRow_length h rawCells) as T.
  destruct (transformRow parseDate cfg h rawCells) as [cells fixedCells].
  cbn [fst] in T. exists (cells, mismatch, fixedCells). split.
  - reflexivity.
  - unfold stepWidth. cbn [fst]. lia.
Qed.

(** The row loop is a sequence of row steps. *)
Lemma rowLoop_steps (h : Headers) (lines : list jsstring) (skip : nat)
  (s : RowState) :
  exists xs, rowLoop parseDate cfg h skip lines s = fold_left (rowStep h) xs s
             /\ Forall (stepWidth h) xs.
Proof.
  revert skip s; induction lines as [|line rest IH]; intros skip s.
  - exists []. split; [reflexivity | constructor].
  - cbn [rowLoop]. destruct skip as [|k]; [|apply IH].
    destruct (isBlank line); [apply IH|].
    destruct (processRow_step h s line rest) as (x & E & W).
    destruct (processRow parseDate cfg h s line rest) as [s' taken].
    cbn [fst] in E. subst s'.
    destruct (IH taken (rowStep h s x)) as (xs & E' & W').
    exists (x :: xs). split; [exact E' | constructor; assumption].
Qed.

(** The state the rows start from, once the header row is written. *)
Definition startRows (h : Headers) : RowState :=
  pushChunk (headerChunk cfg h) initialRows.

(** Either no line has been seen yet, or the header line has been read
    and the rows are what a sequence of row steps made of them. *)
Definition traced (r : Run) : Prop :=
  (isFirstChunk r = true /\ hdr r = noHeaders /\ rst r = initialRows)
  \/ (isFirstChunk r = false
      /\ exists line0 xs,
          hdr r = readHeaders randomSuffix cfg line0
          /\ Forall (stepWidth (hdr r)) xs
          /\ rst r = fold_left (rowStep (hdr r)) xs (startRows (hdr r))).

Lemma processChunk_traced (size : N) (r : Run) (window : list Byte.byte) :
  traced r ->
  traced (processChunk parseDate readChunkAsText randomSuffix cfg size r window).
Proof.
  intros T. unfold processChunk.
  set (off := offset r + CHUNK_SIZE).
  set (all := splitLines (leftover r ++ readChunkAsText window)).
  destruct (if off <? size then (removelast all, last all [])
            else (all, [])) as [lines left].
  destruct T as [(F & H & S)|(F & line0 & xs & H & W & S)]; rewrite F.
  - destruct lines as [|l0 more].
    + left. cbn. auto.
    + right. cbn [isFirstChunk hdr rst]. split; [reflexivity|].
      rewrite S.
      destruct (rowLoop_steps (readHeaders randomSuffix cfg l0) more 0
                  (pushChunk (headerChunk cfg (readHeaders randomSuffix cfg l0))
                             initialRows)) as (ys & E & Wy).
      exists l0, ys. split; [reflexivity|]. split; [exact Wy | exact E].
  - right. cbn [isFirstChunk hdr rst]. split; [reflexivity|].
    destruct (rowLoop_steps (hdr r) lines 0 (rst r)) as (ys & E & Wy).
    exists line0, (xs ++ ys). split; [exact H|]. split.
    + apply Forall_app. split; assumption.
    + rewrite E, S, fold_left_app. reflexivity.
Qed.

Lemma readLoop_traced (file : list Byte.byte) :
  traced (readLoop parseDate readChunkAsText randomSuffix cfg file).
Proof.
  unfold readLoop.
  assert (G : forall ws r, traced r ->
                traced (fold_left
                          (processChunk parseDate readChunkAsText randomSuffix
                                        cfg (fileSize file)) ws r)).
  { induction ws as [|w ws IH]; intros r T; [exact T|].
    cbn [fold_left]. apply IH, processChunk_traced, T. }
  apply G. left. repeat split.
Qed.

(** An invariant of the row steps holds of the rows of every run. *)
Lemma steps_invariant (h : Headers) (P : RowState -> Prop) :
  (forall s x, stepWidth h x -> P s -> P (rowStep h s x)) ->
  forall xs s, Forall (stepWidth h) xs -> P s ->
               P (fold_left (rowStep h) xs s).
Proof.
  intros Hstep. induction xs as [|x xs IH]; intros s W Hs; [exact Hs|].
  inversion W; subst. cbn [fold_left]. apply IH; auto.
Qed.

Ltac rows_fields :=
  cbn [outputRows rowBuffer cleanedDataChunks seenHashes fuzzyHashes
       totalOriginalRows totalCleanedRows totalFixedCells fuzzyDupCount
       columnMismatchCount idCounter count addSeen addFuzzy emitRow
       pushChunk] in *.

(** What a step leaves of the fields that hold the output. *)
Definition sameOutput (s s' : RowState) : Prop :=
  cleanedDataChunks s' = cleanedDataChunks s
  /\ rowBuffer s' = rowBuffer s
  /\ totalCleanedRows s' = totalCleanedRows s
  /\ idCounter s' = idCounter s
  /\ outputRows s' = outputRows s.

(** A step either writes nothing, or it writes its row with [emitRow]
    from a state with the same output; it always counts one row. *)
Lemma rowStep_output (h : Headers) (s : RowState)
  (x : list jsstring * bool * N) :
  totalOriginalRows (rowStep h s x) = totalOriginalRows s + 1
  /\ (sameOutput s (rowStep h s x)
      \/ exists s', sameOutput s s'
                    /\ totalOriginalRows s' = totalOriginalRows s + 1
                    /\ rowStep h s x = emitRow cfg h s' (fst (fst x))).
Proof.
  destruct x as [[cells mismatch] fixedCells]. cbn [fst].
  unfold rowStep, rowTail, dedupThenEmit, fuzzyThenEmit.
  set (s0 := count 1 (if mismatch then 1 else 0) fixedCells 0 s).
  assert (S0 : sameOutput s s0) by (repeat split).
  assert (T0 : totalOriginalRows s0 = totalOriginalRows s + 1) by reflexivity.
  destruct (passesFilters cfg cells);
    [|split; [exact T0 | left; exact S0]].
  destruct (removeDuplicates cfg).
  - destruct (setHas (dedupeKey h cells) (seenHashes s0));
      [split; [exact T0 | left; exact S0]|].
    destruct (fuzzyDuplicates cfg).
    + destruct (setHas _ (fuzzyHashes (addSeen _ s0))).
      * split; [cbn; lia | left; repeat split].
      * split; [reflexivity|]. right. eexists. split; [|split; [|reflexivity]];
          [repeat split | reflexivity].
    + split; [reflexivity|]. right. eexists. split; [|split; [|reflexivity]];
        [repeat split | reflexivity].
  - destruct (fuzzyDuplicates cfg).
    + destruct (setHas _ (fuzzyHashes s0)).
      * split; [cbn; lia | left; repeat split].
      * split; [reflexivity|]. right. eexists. split; [|split; [|reflexivity]];
          [repeat split | reflexivity].
    + split; [reflexivity|]. right. exists s0. auto.
Qed.

Lemma clampTo_length (n : nat) (cells : list jsstring) :
  length (clampTo n cells) = n.
Proof.
  unfold clampTo. destruct (Nat.ltb_spec (length cells) n) as [L|L].
  - rewrite padTo_length by lia. rewrite Nat.ltb_irrefl.
    apply padTo_length. lia.
  - destruct (Nat.ltb_spec n (length cells)) as [G|G].
    + apply firstn_length_le. lia.
    + lia.
Qed.

(** ** The width of the rows *)

Lemma rowStep_width (h : Headers) (s : RowState)
  (x : list jsstring * bool * N) :
  Forall (fun row => length row = length (fileHeaders h)) (outputRows s) ->
  Forall (fun row => length row = length (fileHeaders h))
         (outputRows (rowStep h s x)).
Proof.
  intros H. destruct (rowStep_output h s x) as [_ [S|(s' & S & _ & E)]].
  - destruct S as (_ & _ & _ & _ & S). rewrite S. exact H.
  - destruct S as (_ & _ & _ & _ & S). rewrite E. rows_fields.
    apply Forall_app. split; [rewrite S; exact H|].
    constructor; [apply clampTo_length | constructor].
Qed.

(** ** The counters and the buffer *)

Definition counted (s : RowState) : Prop :=
  totalCleanedRows s = N.of_nat (length (outputRows s))
  /\ totalCleanedRows s <= totalOriginalRows s
  /\ (length (rowBuffer s) < 1000)%nat
  /\ length (rowBuffer s) = (length (outputRows s) mod 1000)%nat.

Lemma rowStep_counted (h : Headers) (s : RowState)
  (x : list jsstring * bool * N) :
  counted s -> counted (rowStep h s x).
Proof.
  intros (C1 & C2 & C3 & C4).
  destruct (rowStep_output h s x) as [T [S|(s' & S & T' & E)]].
  - destruct S as (_ & S2 & S3 & _ & S5). unfold counted.
    rewrite T, S2, S3, S5. repeat split; try assumption. lia.
  - destruct S as (_ & S2 & S3 & _ & S5). unfold counted.
    rewrite T, E. rows_fields. rewrite S2, S3, S5.
    rewrite !length_app. cbn [length].
    destruct (Nat.leb_spec 1000 (length (rowBuffer s) + 1)) as [L|L];
      rewrite ?length_app; cbn [length];
      (split; [lia | split; [lia | split; [lia|]]]).
    + assert (Q := Nat.div_mod_eq (length (outputRows s)) 1000).
      apply Nat.mod_unique with (q := S (length (outputRows s) / 1000)); lia.
    + assert (Q := Nat.div_mod_eq (length (outputRows s)) 1000).
      apply Nat.mod_unique with (q := (length (outputRows s) / 1000)%nat);
        lia.
Qed.

(** ** The chunks *)

Lemma join_terminated (sep : jsstring) (l : list jsstring) :
  l <> [] -> join sep l ++ sep = concat (map (fun x => x ++ sep) l).
Proof.
  induction l as [|x l IH]; intros H; [congruence|].
  destruct l as [|y l].
  - cbn. rewrite app_nil_r. reflexivity.
  - change (join sep (x :: y :: l)) with (x ++ sep ++ join sep (y :: l)).
    change (concat (map (fun z => z ++ sep) (x :: y :: l)))
      with ((x ++ sep) ++ concat (map (fun z => z ++ sep) (y :: l))).
    rewrite <- IH by discriminate.
    rewrite <- !app_assoc. reflexivity.
Qed.

(** The chunks written so far and the rows still in the buffer are the
    header row and the rows emitted so far, each with its line end. *)
Definition written (h : Headers) (s : RowState) : Prop :=
  let eolChar := getEolChar (eol cfg) in
  concat (cleanedDataChunks s)
  ++ concat (map (fun line => line ++ eolChar) (rowBuffer s))
  = headerChunk cfg h
    ++ concat (map (fun row => serializeRow row ++ eolChar) (outputRows s)).

Lemma rowStep_written (h : Headers) (s : RowState)
  (x : list jsstring * bool * N) :
  written h s -> written h (rowStep h s x).
Proof.
  unfold written. cbv zeta. intros H.
  destruct (rowStep_output h s x) as [_ [S|(s' & S & _ & E)]].
  - destruct S as (S1 & S2 & _ & _ & S5). rewrite S1, S2, S5. exact H.
  - destruct S as (S1 & S2 & _ & _ & S5). rewrite E. rows_fields.
    rewrite S1, S2, S5. rewrite map_app, concat_app. cbn [map concat].
    rewrite app_nil_r, app_assoc, <- H.
    set (row := serializeRow _).
    destruct (1000 <=? length (rowBuffer s ++ [row]))%nat.
    + rewrite concat_app. cbn [concat map]. rewrite !app_nil_r.
      rewrite join_terminated by (destruct (rowBuffer s); discriminate).
      rewrite map_app, concat_app. cbn [map concat]. rewrite app_nil_r.
      rewrite app_assoc. reflexivity.
    + rewrite map_app, concat_app. cbn [map concat]. rewrite app_nil_r.
      rewrite app_assoc. reflexivity.
Qed.

(** ** The cells of an emitted row *)

Lemma dropIndex_from_length {A B : Type} (idx : Z) (l : list A) (l' : list B) :
  length l = length l' ->
  forall i, length (dropIndex_from i idx l) = length (dropIndex_from i idx l').
Proof.
  revert l'. induction l as [|x l IH]; intros [|y l'] H i;
    try discriminate; [reflexivity|].
  cbn [dropIndex_from]. injection H as H.
  destruct (i =? idx)%Z; cbn [length]; rewrite (IH l' H); reflexivity.
Qed.

Lemma dropIndex_from_before {A : Type} (idx : Z) (l : list A) :
  forall i, (idx < i)%Z -> dropIndex_from i idx l = l.
Proof.
  induction l as [|x l IH]; intros i H; [reflexivity|].
  cbn [dropIndex_from]. destruct (Z.eqb_spec i idx) as [E|E]; [lia|].
  rewrite IH by lia. reflexivity.
Qed.

Lemma picked_dropIndex (idx : Z) (l p : list jsstring) :
  map (fun i => nth i (p ++ l) [])
      (filter (fun i => negb (Z.of_nat i =? idx)%Z)
              (seq (length p) (length l)))
  = dropIndex_from (Z.of_nat (length p)) idx l.
Proof.
  revert p. induction l as [|x l IH]; intros p; [reflexivity|].
  cbn [length seq filter dropIndex_from].
  assert (IH' := IH (p ++ [x])).
  rewrite <- app_assoc, length_app in IH'. cbn [app length] in IH'.
  replace (length p + 1)%nat with (S (length p)) in IH' by lia.
  replace (Z.of_nat (S (length p))) with (Z.of_nat (length p) + 1)%Z
    in IH' by lia.
  destruct (Z.of_nat (length p) =? idx)%Z; cbn [negb map].
  - exact IH'.
  - rewrite IH'. f_equal. rewrite app_nth2 by lia.
    rewrite Nat.sub_diag. reflexivity.
Qed.

Lemma dataCells_dropIndex (h : Headers) (cells : list jsstring) :
  length cells = length (rawHeaders h) ->
  dataCells h cells = dropIndex (sourceIdColIndex h) cells.
Proof.
  intros H. unfold dataCells, dropIndex. rewrite <- H.
  exact (picked_dropIndex (sourceIdColIndex h) cells []).
Qed.

Lemma clampTo_fits (n : nat) (cells : list jsstring) :
  length cells = n -> clampTo n cells = cells.
Proof.
  intros H. unfold clampTo. rewrite H, Nat.ltb_irrefl, H, Nat.ltb_irrefl.
  reflexivity.
Qed.

(** What the header block guarantees of the columns. *)
Definition wfHeaders (h : Headers) : Prop :=
  (hasGeneratedId h = false /\ sourceIdColIndex h = (-1)%Z
   /\ fileHeaders h = rawHeaders h)
  \/ (hasGeneratedId h = true
      /\ fileHeaders h
         = lit "id" :: dropIndex (sourceIdColIndex h) (rawHeaders h)).

Lemma readHeaders_wf (line0 : jsstring) :
  wfHeaders (readHeaders randomSuffix cfg line0).
Proof.
  unfold readHeaders.
  set (raw := dedupNames _ _).
  destruct (generateId cfg); [|left; repeat split].
  destruct (Z.eqb_spec (findIndex isIdName raw) (-1)) as [E|E];
    right; cbn [hasGeneratedId fileHeaders sourceIdColIndex rawHeaders];
    (split; [reflexivity|]); [|reflexivity].
  rewrite E. unfold dropIndex. rewrite dropIndex_from_before by lia.
  reflexivity.
Qed.

Lemma readHeaders_hasGeneratedId (line0 : jsstring) :
  hasGeneratedId (readHeaders randomSuffix cfg line0) = generateId cfg.
Proof.
  unfold readHeaders. destruct (generateId cfg); [|reflexivity].
  destruct (_ =? _)%Z; reflexivity.
Qed.

(** The cells of a row, without the generated id. *)
Definition rowData (h : Headers) (row : list jsstring) : list jsstring :=
  if hasGeneratedId h then tl row else row.

(** A row of the width of the header line is written unclamped, and its
    data cells are the cells the duplicate keys are made of. *)
Lemma emitted_row (h : Headers) (id : N) (cells : list jsstring) :
  wfHeaders h -> length cells = length (rawHeaders h) ->
  clampTo (length (fileHeaders h)) (assemble h id cells) = assemble h id cells
  /\ rowData h (assemble h id cells)
     = dropIndex (sourceIdColIndex h) cells.
Proof.
  intros [(G & I & F)|(G & F)] W; unfold assemble, rowData; rewrite G.
  - split.
    + apply clampTo_fits. rewrite F. exact W.
    + rewrite I. unfold dropIndex. rewrite dropIndex_from_before by lia.
      reflexivity.
  - rewrite (dataCells_dropIndex h cells W). split; [|reflexivity].
    apply clampTo_fits. rewrite F. cbn [length]. f_equal.
    apply dropIndex_from_length. exact W.
Qed.

Lemma setHas_In (key : jsstring) (set : list jsstring) :
  setHas key set = true <-> In key set.
Proof.
  unfold setHas. rewrite existsb_exists. split.
  - intros (x & I & E). apply streqb_eq in E. subst. exact I.
  - intros I. exists key. split; [exact I | apply streqb_refl].
Qed.

Lemma NoDup_snoc {A : Type} (l : list A) (x : A) :
  NoDup l -> ~ In x l -> NoDup (l ++ [x]).
Proof.
  intros N I. apply NoDup_rev in N. rewrite <- (rev_involutive (l ++ [x])).
  apply NoDup_rev. rewrite rev_app_distr. cbn [rev app].
  constructor; [|exact N]. rewrite <- in_rev. exact I.
Qed.

(** ** The exact duplicates *)

Definition exactKey (h : Headers) (row : list jsstring) : jsstring :=
  join [0] (rowData h row).

Definition exactSeen (h : Headers) (s : RowState) : Prop :=
  (forall row, In row (outputRows s) -> In (exactKey h row) (seenHashes s))
  /\ NoDup (map (exactKey h) (outputRows s)).

Lemma rowStep_exactSeen (h : Headers) (s : RowState)
  (x : list jsstring * bool * N) :
  removeDuplicates cfg = true -> wfHeaders h -> stepWidth h x ->
  exactSeen h s -> exactSeen h (rowStep h s x).
Proof.
  intros D WF W (M & N). destruct x as [[cells mismatch] fixedCells].
  unfold stepWidth in W. cbn [fst] in W.
  unfold rowStep, rowTail, dedupThenEmit. rewrite D.
  set (s0 := count 1 (if mismatch then 1 else 0) fixedCells 0 s).
  assert (P0 : exactSeen h s0) by (split; assumption).
  destruct (passesFilters cfg cells); [|exact P0].
  destruct (setHas (dedupeKey h cells) (seenHashes s0)) eqn:Seen; [exact P0|].
  assert (Fresh : ~ In (dedupeKey h cells) (seenHashes s)).
  { intros I. apply setHas_In in I. unfold s0 in Seen.
    cbn [seenHashes count] in Seen. congruence. }
  assert (Emit : forall s1, outputRows s1 = outputRows s ->
                   seenHashes s1 = dedupeKey h cells :: seenHashes s ->
                   exactSeen h (emitRow cfg h s1 cells)).
  { intros s1 R S. unfold exactSeen. rows_fields. rewrite R, S.
    destruct (emitted_row h (idCounter s1) cells WF W) as (C & K).
    rewrite C. split.
    - intros row I. apply in_app_or in I. destruct I as [I|[I|[]]].
      + right. apply M, I.
      + left. subst row. unfold exactKey. rewrite K. reflexivity.
    - rewrite map_app. cbn [map]. apply NoDup_snoc; [exact N|].
      unfold exactKey at 1. rewrite K. fold (dedupeKey h cells).
      intros I. apply in_map_iff in I. destruct I as (row & E & I).
      apply Fresh. rewrite <- E. apply M, I. }
  unfold fuzzyThenEmit. destruct (fuzzyDuplicates cfg).
  - destruct (setHas (fuzzyKey h cells) _).
    + split; rows_fields; [|exact N]. intros row I. right. apply M, I.
    + apply Emit; reflexivity.
  - apply Emit; reflexivity.
Qed.

(** ** The fuzzy duplicates *)




(** ** The generated ids *)

Definition numbered (s : RowState) : Prop :=
  idCounter s = N.of_nat (S (length (outputRows s)))
  /\ forall k row, nth_error (outputRows s) k = Some row ->
                   exists data, row = decimal (N.of_nat (S k)) :: data.

Lemma rowStep_numbered (h : Headers) (s : RowState)
  (x : list jsstring * bool * N) :
  hasGeneratedId h = true -> wfHeaders h ->
  numbered s -> numbered (rowStep h s x).
Proof.
  intros G WF (I & R).
  destruct (rowStep_output h s x) as [_ [S|(s' & S & _ & E)]].
  - destruct S as (_ & _ & _ & S4 & S5). unfold numbered.
    rewrite S4, S5. split; assumption.
  - destruct S as (_ & _ & _ & S4 & S5). unfold numbered. rewrite E.
    rows_fields. rewrite G, S4, S5, length_app. cbn [length]. split; [lia|].
    intros k row H.
    destruct (Nat.lt_ge_cases k (length (outputRows s))) as [L|L].
    + rewrite nth_error_app1 in H by exact L. apply R, H.
    + rewrite nth_error_app2 in H by exact L.
      destruct (k - length (outputRows s))%nat as [|j] eqn:Ek;
        [|destruct j; discriminate].
      injection H as H. subst row.
      assert (k = length (outputRows s)) by lia. subst k.
      rewrite I. unfold assemble. rewrite G.
      destruct WF as [(G' & _)|(_ & F)]; [congruence|]. rewrite F.
      unfold clampTo. cbn [length].
      destruct (_ <? _)%nat.
      * unfold padTo. cbn [app length].
        destruct (_ <? _)%nat; cbn [firstn]; eexists; reflexivity.
      * destruct (_ <? _)%nat; cbn [firstn]; eexists; reflexivity.
Qed.

(** ** The windows of the file and the header line *)

Lemma splitLines_aux_nonempty (s cur : jsstring) : splitLines_aux cur s <> [].
Proof.
  revert cur. induction s as [|c r IH]; intros cur; cbn [splitLines_aux];
    [discriminate|].
  destruct (c =? 10); [discriminate|].
  destruct (c =? 13); [|apply IH].
  destruct r as [|d r']; [discriminate|]. destruct (d =? 10); discriminate.
Qed.

(** The windows cover the file: it has no more bytes than its windows
    can hold. *)
Lemma windows_aux_cover (bytes cur : list Byte.byte) (room : N) :
  1 <= room -> room + N.of_nat (length cur) = CHUNK_SIZE ->
  N.of_nat (length cur) + N.of_nat (length bytes)
  <= N.of_nat (length (windows_aux room cur bytes)) * CHUNK_SIZE.
Proof.
  revert cur room. induction bytes as [|b r IH]; intros cur room R E.
  - cbn [windows_aux]. destruct cur; cbn [length] in *; lia.
  - cbn [windows_aux]. destruct (N.leb_spec room 1) as [L|L].
    + assert (I := IH [] CHUNK_SIZE). cbn [length] in *.
      assert (1 <= CHUNK_SIZE) by (unfold CHUNK_SIZE; lia). lia.
    + assert (I := IH (b :: cur) (room - 1)). cbn [length] in *. lia.
Qed.

Lemma fileWindows_cover (file : list Byte.byte) :
  fileSize file <= N.of_nat (length (fileWindows file)) * CHUNK_SIZE.
Proof.
  unfold fileSize, fileWindows.
  assert (C := windows_aux_cover file [] CHUNK_SIZE). cbn [length] in C.
  assert (1 <= CHUNK_SIZE) by (unfold CHUNK_SIZE; lia). lia.
Qed.

Lemma processChunk_offset (size : N) (r : Run) (window : list Byte.byte) :
  offset (processChunk parseDate readChunkAsText randomSuffix cfg size r window)
  = offset r + CHUNK_SIZE.
Proof.
  unfold processChunk.
  destruct (if _ <? size then _ else _) as [lines left].
  destruct (isFirstChunk r); [destruct lines|]; reflexivity.
Qed.

Lemma windows_offset (size : N) (ws : list (list Byte.byte)) (r : Run) :
  offset (fold_left
            (processChunk parseDate readChunkAsText randomSuffix cfg size) ws r)
  = offset r + N.of_nat (length ws) * CHUNK_SIZE.
Proof.
  revert r. induction ws as [|w ws IH]; intros r.
  - cbn [fold_left length]. lia.
  - cbn [fold_left length]. rewrite IH, processChunk_offset. lia.
Qed.

(** The window that ends the file always has a line, so the header line
    is read there at the latest. *)
Lemma processChunk_last (size : N) (r : Run) (window : list Byte.byte) :
  size <= offset r + CHUNK_SIZE ->
  isFirstChunk
    (processChunk parseDate readChunkAsText randomSuffix cfg size r window)
  = false.
Proof.
  intros L. unfold processChunk.
  apply N.ltb_ge in L. rewrite L.
  destruct (isFirstChunk r); [|reflexivity].
  destruct (splitLines _) eqn:E; [|reflexivity].
  exfalso. exact (splitLines_aux_nonempty _ _ E).
Qed.

Lemma readLoop_first (file : list Byte.byte) :
  isFirstChunk (readLoop parseDate readChunkAsText randomSuffix cfg file)
  = match file with [] => true | _ => false end.
Proof.
  destruct file as [|b file]; [reflexivity|].
  unfold readLoop.
  assert (C := fileWindows_cover (b :: file)).
  destruct (fileWindows (b :: file)) as [|w ws] eqn:E.
  - unfold fileSize in C. cbn [length] in C. lia.
  - destruct (exists_last (l := w :: ws)) as (ws' & w' & E');
      [discriminate|].
    rewrite E' in *. rewrite fold_left_app. cbn [fold_left].
    apply processChunk_last. rewrite windows_offset.
    rewrite length_app in C. cbn [length offset initialRun] in *. lia.
Qed.

(** The rows of a run: of the empty file there are none; of every other
    file, the header line has been read and the rows are what a sequence
    of row steps made of them. *)
Lemma run_cases (file : list Byte.byte) :
  let r := readLoop parseDate readChunkAsText randomSuffix cfg file in
  (file = [] /\ hdr r = noHeaders /\ rst r = initialRows)
  \/ (file <> []
      /\ wfHeaders (hdr r) /\ hasGeneratedId (hdr r) = generateId cfg
      /\ exists xs, Forall (stepWidth (hdr r)) xs
                    /\ rst r = fold_left (rowStep (hdr r)) xs
                                         (startRows (hdr r))).
Proof.
  intros r. assert (F := readLoop_first file). fold r in F.
  destruct (readLoop_traced file) as [(F' & H & S)|(F' & line0 & xs & H & W & S)];
    fold r in F', H, S.
  - left. destruct file; [auto | congruence].
  - fold r in W. right. destruct file; [congruence|].
    split; [discriminate|]. rewrite H at 1 2.
    split; [apply readHeaders_wf|]. split; [apply readHeaders_hasGeneratedId|].
    exists xs. split; assumption.
Qed.

(** An invariant of the row steps holds at the end of the loop. *)
Lemma run_invariant (P : Headers -> RowState -> Prop) :
  P noHeaders initialRows ->
  (forall h, wfHeaders h -> hasGeneratedId h = generateId cfg ->
             P h (startRows h)) ->
  (forall h s x, wfHeaders h -> hasGeneratedId h = generateId cfg ->
                 stepWidth h x -> P h s -> P h (rowStep h s x)) ->
  forall file,
    let r := readLoop parseDate readChunkAsText randomSuffix cfg file in
    P (hdr r) (rst r).
Proof.
  intros P0 Ps Pi file r.
  destruct (run_cases file) as [(_ & H & S)|(_ & WF & G & xs & W & S)];
    fold r in H, S || fold r in WF, G, W, S.
  - rewrite H, S. exact P0.
  - rewrite S. apply steps_invariant; auto.
Qed.

(** ** The result of [processFile] *)

(** The rows written by a run, in order. *)
Definition emittedRows (file : list Byte.byte) : list (list jsstring) :=
  outputRows (rst (runFile parseDate readChunkAsText randomSuffix cfg file)).

Lemma finalFlush_rows (s : RowState) :
  outputRows (finalFlush cfg s) = outputRows s
  /\ totalCleanedRows (finalFlush cfg s) = totalCleanedRows s
  /\ totalOriginalRows (finalFlush cfg s) = totalOriginalRows s.
Proof. unfold finalFlush. destruct (rowBuffer s); repeat split. Qed.

Lemma emittedRows_loop (file : list Byte.byte) :
  emittedRows file
  = outputRows (rst (readLoop parseDate readChunkAsText randomSuffix cfg file)).
Proof. unfold emittedRows, runFile. cbn [rst]. apply finalFlush_rows. Qed.

(** X21. Every row [processFile] writes has exactly one cell for each
    of the headers it returns. *)
Theorem processFile_rows_have_header_width (file : list Byte.byte) :
  Forall (fun row =>
            length row
            = length (headers (processFile parseDate readChunkAsText
                                           randomSuffix cfg file)))
         (emittedRows file).
Proof.
  rewrite emittedRows_loop. cbn [processFile headers runFile hdr].
  apply (run_invariant
           (fun h s => Forall (fun row => length row = length (fileHeaders h))
                              (outputRows s))).
  - constructor.
  - intros h _ _. constructor.
  - intros h s x _ _ _. apply rowStep_width.
Qed.

(** X22. The statistics count the rows: [cleaned] is the number of rows
    written, it never exceeds [original], and [removed] is their
    difference, never negative. *)
Theorem processFile_stats_count_rows (file : list Byte.byte) :
  let st := stats (processFile parseDate readChunkAsText randomSuffix cfg file) in
  cleaned st = N.of_nat (length (emittedRows file))
  /\ cleaned st <= original st
  /\ removed st = Z.of_N (original st - cleaned st).
Proof.
  cbv zeta. rewrite emittedRows_loop.
  cbn [processFile stats cleaned original removed runFile rst].
  destruct (finalFlush_rows
              (rst (readLoop parseDate readChunkAsText randomSuffix cfg file)))
    as (_ & C & O). rewrite C, O.
  assert (I : counted
                (rst (readLoop parseDate readChunkAsText randomSuffix cfg file))).
  { apply (run_invariant (fun _ s => counted s)).
    - unfold counted. cbn. split; [|split; [|split]]; lia.
    - intros h _ _. unfold counted. cbn. split; [|split; [|split]]; lia.
    - intros h s x _ _ _. apply rowStep_counted. }
  destruct I as (C1 & C2 & _).
  split; [exact C1|]. split; [exact C2 | lia].
Qed.

(** X23. The text of the output.  The chunks of a file that is not empty,
    put end to end, are the header row and the written rows joined by the
    line end; one more line end follows exactly when the number of rows
    is a multiple of 1000.  The empty file gives no chunk. *)
Theorem processFile_chunks_text (file : list Byte.byte) :
  let res := processFile parseDate readChunkAsText randomSuffix cfg file in
  let eolChar := getEolChar (eol cfg) in
  concat (cleanedChunks res)
  = match file with
    | [] => []
    | _ =>
        join eolChar
             (serializeRow (headers res) :: map serializeRow (emittedRows file))
        ++ (if (length (emittedRows file) mod 1000 =? 0)%nat
            then eolChar else [])
    end.
Proof.
  cbv zeta. rewrite !emittedRows_loop.
  cbn [processFile cleanedChunks headers runFile rst hdr].
  set (r := readLoop parseDate readChunkAsText randomSuffix cfg file).
  destruct (run_cases file) as [(E & H & S)|(NE & WF & G & xs & W & S)];
    fold r in H, S || fold r in WF, G, W, S.
  - subst file. rewrite S. reflexivity.
  - assert (I : written (hdr r) (rst r) /\ counted (rst r)).
    { rewrite S.
      apply (steps_invariant (hdr r) (fun s => written (hdr r) s /\ counted s)).
      - intros s x _ (Hw & Hc). split;
          [apply rowStep_written, Hw | apply rowStep_counted, Hc].
      - exact W.
      - split.
        + unfold written, startRows. cbn. rewrite !app_nil_r. reflexivity.
        + unfold counted. cbn. split; [|split; [|split]]; lia. }
    destruct I as (Hw & _ & _ & _ & Hb). unfold written in Hw. cbv zeta in Hw.
    set (eolChar := getEolChar (eol cfg)) in *.
    assert (T : join eolChar (serializeRow (fileHeaders (hdr r))
                              :: map serializeRow (outputRows (rst r)))
                ++ eolChar
                = headerChunk cfg (hdr r)
                  ++ concat (map (fun row => serializeRow row ++ eolChar)
                                 (outputRows (rst r)))).
    { rewrite join_terminated by discriminate. cbn [map concat].
      rewrite map_map. reflexivity. }
    destruct file as [|b file]; [congruence|].
    unfold finalFlush. rewrite <- Hb.
    destruct (rowBuffer (rst r)) as [|l ls] eqn:B.
    + cbn [length Nat.eqb]. cbn [map concat] in Hw. rewrite app_nil_r in Hw.
      rewrite Hw, T. reflexivity.
    + cbn [length Nat.eqb]. rewrite app_nil_r. rows_fields.
      rewrite concat_app. cbn [concat]. rewrite app_nil_r.
      apply (app_inv_tail eolChar). rewrite T, <- Hw, <- app_assoc. f_equal.
      apply join_terminated. discriminate.
Qed.

(** X24. With [generateId], the rows are numbered from 1 in the order
    they are written: the first cell of the row at place [k] (from 0) is
    the decimal numeral of [k + 1]. *)
Theorem processFile_ids_are_sequential (file : list Byte.byte) (k : nat)
  (row : list jsstring) :
  generateId cfg = true ->
  nth_error (emittedRows file) k = Some row ->
  exists data, row = decimal (N.of_nat (S k)) :: data.
Proof.
  intros G. rewrite emittedRows_loop.
  assert (I := run_invariant (fun _ s => numbered s)).
  refine (proj2 (I _ _ _ file) k row).
  - split; [reflexivity|]. intros [|j] r0 H; discriminate.
  - intros h _ _. split; [reflexivity|]. intros [|j] r0 H; discriminate.
  - intros h s x WF Hg _. apply rowStep_numbered; [congruence | exact WF].
Qed.

(** X25. With [removeDuplicates], no two rows written have the same
    duplicate key, so no two have the same data cells (the cells apart
    from a generated id). *)
Theorem processFile_rows_exactly_distinct (file : list Byte.byte) :
  removeDuplicates cfg = true ->
  let h := hdr (runFile parseDate readChunkAsText randomSuffix cfg file) in
  NoDup (map (exactKey h) (emittedRows file))
  /\ NoDup (map (rowData h) (emittedRows file)).
Proof.
  intros D. cbv zeta. rewrite !emittedRows_loop. cbn [runFile hdr].
  assert (I := run_invariant exactSeen).
  assert (K : NoDup (map (exactKey
                            (hdr (readLoop parseDate readChunkAsText
                                           randomSuffix cfg file)))
                         (outputRows
                            (rst (readLoop parseDate readChunkAsText
                                           randomSuffix cfg file))))).
  { refine (proj2 (I _ _ _ file)).
    - split; [intros ? []| constructor].
    - intros h _ _. split; [intros ? []| constructor].
    - intros h s x WF _ W. apply rowStep_exactSeen; assumption. }
  split; [exact K|].
  unfold exactKey in K. rewrite <- map_map in K.
  exact (NoDup_map_inv _ _ K).
Qed.



(** [parseInt(String(n), 10)] is [n]: the decimal numerals of two
    different numbers are different. *)
Lemma parseDigits_decimal_aux (fuel : nat) :
  forall n acc, n < 10 ^ N.of_nat fuel ->
    parseDigits (decimal_aux fuel n acc)
    = fold_left (fun a c => 10 * a + (c - 48)) acc n.
Proof.
  induction fuel as [|f IH]; intros n acc H.
  - cbn [decimal_aux]. change (10 ^ N.of_nat 0) with 1 in H.
    assert (n = 0) by lia. subst n. reflexivity.
  - cbn [decimal_aux]. rewrite Nat2N.inj_succ, N.pow_succ_r' in H.
    assert (M : n mod 10 < 10) by (apply N.mod_upper_bound; lia).
    assert (Dm : n = 10 * (n / 10) + n mod 10) by (apply N.div_mod; lia).
    destruct (N.ltb_spec n 10) as [L|L].
    + unfold parseDigits. cbn [fold_left]. f_equal.
      rewrite N.mod_small by exact L. clear. lia.
    + rewrite IH by (apply N.Div0.div_lt_upper_bound; exact H).
      cbn [fold_left]. f_equal.
      rewrite (N.add_comm 48), N.add_sub. symmetry. exact Dm.
Qed.

Lemma parseDigits_decimal (n : N) : parseDigits (decimal n) = n.
Proof.
  unfold decimal. rewrite parseDigits_decimal_aux; [reflexivity|].
  rewrite Nat2N.inj_succ, N2Nat.id.
  destruct n as [|p]; [reflexivity|].
  apply N.lt_le_trans with (2 ^ N.succ (N.log2 (N.pos p))).
  - apply N.log2_spec. reflexivity.
  - apply N.pow_le_mono_l. lia.
Qed.

Lemma run_numbered (file : list Byte.byte) :
  generateId cfg = true ->
  numbered (rst (readLoop parseDate readChunkAsText randomSuffix cfg file)).
Proof.
  intros G. apply (run_invariant (fun _ s => numbered s)).
  - split; [reflexivity|]. intros [|j] r0 H; discriminate.
  - intros h _ _. split; [reflexivity|]. intros [|j] r0 H; discriminate.
  - intros h s x WF Hg _. apply rowStep_numbered; [congruence | exact WF].
Qed.

(** X27. With [generateId], no two rows written have the same id. *)
Theorem processFile_ids_are_distinct (file : list Byte.byte) :
  generateId cfg = true ->
  NoDup (map (hd []) (emittedRows file)).
Proof.
  intros G. rewrite emittedRows_loop.
  destruct (run_numbered file G) as (_ & R).
  apply NoDup_nth_error. intros i j L E.
  rewrite !nth_error_map in E. rewrite length_map in L.
  destruct (nth_error _ i) as [ri|] eqn:Ei;
    [|apply nth_error_None in Ei; lia].
  destruct (nth_error _ j) as [rj|] eqn:Ej; [|discriminate].
  destruct (R i ri Ei) as (di & Hi). destruct (R j rj Ej) as (dj & Hj).
  subst ri rj. cbn [option_map hd] in E. injection E as E.
  apply (f_equal parseDigits) in E. rewrite !parseDigits_decimal in E. lia.
Qed.

(** X28. Chunk zero of a file that is not empty is the header row and
    the line end, whatever follows; the empty file gives no chunk and no
    header. *)
Theorem processFile_first_chunk_is_header_row (file : list Byte.byte) :
  let res := processFile parseDate readChunkAsText randomSuffix cfg file in
  match file with
  | [] => cleanedChunks res = [] /\ headers res = []
  | _ => exists more,
      cleanedChunks res
      = (serializeRow (headers res) ++ getEolChar (eol cfg)) :: more
  end.
Proof.
  cbv zeta. cbn [processFile cleanedChunks headers runFile rst hdr].
  set (r := readLoop parseDate readChunkAsText randomSuffix cfg file).
  destruct (run_cases file) as [(E & H & S)|(NE & WF & G & xs & W & S)];
    fold r in H, S || fold r in WF, G, W, S.
  - subst file. rewrite H, S. split; reflexivity.
  - destruct file as [|b file]; [congruence|].
    assert (I : exists more,
               cleanedDataChunks (rst r) = headerChunk cfg (hdr r) :: more).
    { rewrite S.
      apply (steps_invariant (hdr r)
               (fun s => exists more,
                    cleanedDataChunks s = headerChunk cfg (hdr r) :: more)).
      - intros s x _ (more & Hm).
        destruct (rowStep_output (hdr r) s x) as [_ [Q|(s' & Q & _ & E)]].
        + destruct Q as (Q1 & _). rewrite Q1. exists more. exact Hm.
        + destruct Q as (Q1 & _). rewrite E. rows_fields. rewrite Q1, Hm.
          destruct (_ <=? _)%nat; eexists; cbn [app]; reflexivity.
      - exact W.
      - exists []. reflexivity. }
    destruct I as (more & Hm). unfold finalFlush.
    destruct (rowBuffer (rst r)); [exists more; exact Hm|].
    rows_fields. rewrite Hm. eexists. cbn [app]. reflexivity.
Qed.

End Pipeline.

(** A configuration for the examples: both duplicate filters and the
    generated id, every other switch off. *)
Definition dedupConfig : CleaningConfig :=
  {| tableName := lit "t"; pkColumn := lit "id"; eol := lit "LF";
     encoding := lit "UTF-8"; mode := standard;
     removeDuplicates := true; removeEmpty := false;
     trimWhitespace := false; normalizeValues := false;
     fixEncoding := false; fuzzyDuplicates := true; validateEmail := false;
     standardizePhone := false; normalizeCase := false;
     standardizeDate := false; detectOutliers := false;
     removeSpecialChars := false; crossFieldValidation := false;
     fillMissing := false; standardizeAddress := false;
     removeHtmlTags := false; fixNumberFormats := false;
     generateId := true; removeRowsWithEmptyValues := false |}.

(** A file of a header line and four rows: the second row is a fuzzy
    duplicate of the first, the third an exact one. *)
Definition peopleFile : list Byte.byte :=
  asciiBytes "name,city" ++ [Byte.x0a]
  ++ asciiBytes "Ann,Paris" ++ [Byte.x0a]
  ++ asciiBytes "ann, PARIS" ++ [Byte.x0a]
  ++ asciiBytes "Ann,Paris" ++ [Byte.x0a]
  ++ asciiBytes "Bob,Rome".

Lemma processFile_ids_are_sequential_witness :
  exists data, [lit "2"; lit "Bob"; lit "Rome"] = decimal 2 :: data.
Proof.
  apply (processFile_ids_are_sequential isoDate asciiText noRandom dedupConfig
           peopleFile 1 [lit "2"; lit "Bob"; lit "Rome"]);
    vm_compute; reflexivity.
Defined.

Lemma processFile_rows_exactly_distinct_witness :
  NoDup (map (rowData (hdr (runFile isoDate asciiText noRandom dedupConfig
                                    peopleFile)))
             (emittedRows isoDate asciiText noRandom dedupConfig peopleFile)).
Proof.
  exact (proj2 (processFile_rows_exactly_distinct
                  isoDate asciiText noRandom dedupConfig peopleFile eq_refl)).
Defined.


Lemma processFile_ids_are_distinct_witness :
  NoDup (map (hd [])
             (emittedRows isoDate asciiText noRandom dedupConfig peopleFile)).
Proof.
  exact (processFile_ids_are_distinct
           isoDate asciiText noRandom dedupConfig peopleFile eq_refl).
Defined.

(* ====================================================================== *)
(** * The primary key of the generated table *)
(* ====================================================================== *)

Lemma prefixBy_app (p s : jsstring) : prefixBy N.eqb p (p ++ s) = true.
Proof.
  induction p as [|a p IH]; [reflexivity|].
  cbn [app prefixBy]. rewrite N.eqb_refl. exact IH.
Qed.

Lemma endsWith_app (suf s : jsstring) : endsWith suf (s ++ suf) = true.
Proof.
  unfold endsWith, startsWith. rewrite rev_app_distr. apply prefixBy_app.
Qed.

Lemma endsWith_other_end (suf s : jsstring) (c d : jschar) :
  c <> d -> endsWith (suf ++ [d]) (s ++ [c]) = false.
Proof.
  intros H. unfold endsWith, startsWith. rewrite !rev_app_distr.
  cbn [rev app prefixBy]. destruct (N.eqb_spec d c); [congruence|reflexivity].
Qed.

(** A definition is that of a primary key when it ends with the clause. *)
Definition isKeyDef (def : jsstring) : bool := endsWith primaryKeyClause def.

Lemma sqlTypeOf_end (types : ColumnTypes) (h : jsstring) :
  exists a c, sqlTypeOf types h = a ++ [c] /\ c <> 89.
Proof.
  unfold sqlTypeOf.
  destruct (recordGet h types) as [t|].
  - exists (removelast (sqlTypeName t)), (last (sqlTypeName t) 0).
    destruct t; split; try reflexivity; cbn; discriminate.
  - exists (lit "TEX"), 84. split; [reflexivity | discriminate].
Qed.

(** Only the column named by [pkColumn] gets the clause. *)
Lemma isKeyDef_columnDef (types : ColumnTypes) (pk h : jsstring) :
  isKeyDef (columnDef types pk h) = streqb h pk.
Proof.
  unfold isKeyDef, columnDef. destruct (streqb h pk).
  - rewrite !app_assoc. apply endsWith_app.
  - rewrite app_nil_r.
    destruct (sqlTypeOf_end types h) as (a & c & E & N). rewrite E.
    rewrite !app_assoc.
    change primaryKeyClause
      with (lit " NOT NULL AUTO_INCREMENT PRIMARY KE" ++ [89]).
    apply endsWith_other_end. exact N.
Qed.

Lemma keyDefs_of_headers (types : ColumnTypes) (pk : jsstring)
  (headers : list jsstring) :
  NoDup headers ->
  length (filter isKeyDef (map (columnDef types pk) headers))
  = if existsb (streqb pk) headers then 1%nat else 0%nat.
Proof.
  induction 1 as [|h r Hin Hnd IH]; [reflexivity|].
  cbn [map filter existsb]. rewrite isKeyDef_columnDef.
  destruct (streqb h pk) eqn:E.
  - apply streqb_eq in E. subst h. rewrite streqb_refl. cbn [orb length].
    rewrite IH.
    destruct (existsb (streqb pk) r) eqn:X; [|reflexivity].
    exfalso. apply Hin. apply existsb_exists in X.
    destruct X as (y & I & Y). apply streqb_eq in Y. subst y. exact I.
  - destruct (streqb pk h) eqn:E'.
    + apply streqb_eq in E'. subst h. rewrite streqb_refl in E. discriminate.
    + cbn [orb]. exact IH.
Qed.

(** X29. When [pkColumn] is not empty and the headers are distinct, the
    table has exactly one primary key: one column definition, and only
    one, ends with the primary key clause. *)
Theorem columnDefs_one_primary_key (headers : list jsstring)
  (types : ColumnTypes) (pkColumn : jsstring) :
  pkColumn <> [] -> NoDup headers ->
  length (filter isKeyDef (columnDefs headers types pkColumn)) = 1%nat.
Proof.
  intros P N. unfold columnDefs.
  assert (K := keyDefs_of_headers types pkColumn headers N).
  destruct pkColumn as [|c pk]; [congruence|]. cbn [nonEmpty andb].
  destruct (existsb (streqb (c :: pk)) headers); cbn [negb]; [exact K|].
  cbn [filter].
  replace (isKeyDef _) with true; [cbn [length]; rewrite K; reflexivity|].
  symmetry. unfold isKeyDef.
  change (lit "BIGINT NOT NULL AUTO_INCREMENT PRIMARY KEY")
    with (lit "BIGINT" ++ primaryKeyClause).
  rewrite !app_assoc. apply endsWith_app.
Qed.

Lemma columnDefs_one_primary_key_witness :
  length (filter isKeyDef
            (columnDefs [lit "name"; lit "city"] [] (lit "id"))) = 1%nat.
Proof.
  apply (columnDefs_one_primary_key [lit "name"; lit "city"] [] (lit "id")).
  - discriminate.
  - apply NoDup_cons; [|apply NoDup_cons; [|apply NoDup_nil]].
    + intros [H|[]]. discriminate H.
    + intros [].
Defined.

(* ====================================================================== *)
(** * The id column of the header *)
(* ====================================================================== *)

Lemma decimal_aux_nonempty (fuel : nat) :
  forall n acc, acc <> [] -> decimal_aux fuel n acc <> [].
Proof.
  induction fuel as [|f IH]; intros n acc H; [exact H|].
  cbn [decimal_aux]. destruct (n <? 10); [discriminate|].
  apply IH. discriminate.
Qed.

Lemma decimal_nonempty (n : N) : decimal n <> [].
Proof.
  unfold decimal. cbn [decimal_aux]. destruct (n <? 10); [discriminate|].
  apply decimal_aux_nonempty. discriminate.
Qed.

(** A name that got a suffix is no id column. *)
Lemma renamed_not_id (h suffix : jsstring) :
  suffix <> [] -> isIdName (h ++ [95] ++ suffix) = false.
Proof.
  intros H. unfold isIdName. apply streqb_neq. intros E.
  assert (L := f_equal (@length jschar) E).
  unfold toLowerCase in L. rewrite length_map, !length_app in L.
  destruct suffix as [|c suffix]; [congruence|].
  destruct h as [|a h]; cbn in L; [|lia].
  cbn in E. discriminate E.
Qed.

Lemma sanitizeColumnName_id (rnd name : jsstring) :
  isIdName (sanitizeColumnName rnd name) = true ->
  sanitizeColumnName rnd name = lit "id".
Proof.
  unfold sanitizeColumnName.
  set (t := collapseRuns _ _ _ _).
  destruct (toLowerCase t) as [|c s] eqn:E.
  - cbn. discriminate.
  - rewrite <- E. unfold isIdName. rewrite toLowerCase_idem.
    apply streqb_eq.
Qed.

Lemma sanitizeAll_id (rnd : nat -> jsstring) (cells : list jsstring) :
  forall i y, In y (sanitizeAll rnd i cells) ->
              isIdName y = true -> y = lit "id".
Proof.
  induction cells as [|c r IH]; intros i y [].
  - subst y. apply sanitizeColumnName_id.
  - eapply IH; eassumption.
Qed.

(** One step of the de-duplication: the name written is the name read,
    which [nameCount] then owns, or it is no id column; and [nameCount]
    keeps what it owns. *)
Lemma dedupNames_step (nameCount : list (jsstring * option N))
  (h : jsstring) (r : list jsstring) :
  exists e nameCount',
    dedupNames nameCount (h :: r) = e :: dedupNames nameCount' r
    /\ ((e = h /\ ownCount h nameCount = None
         /\ ownCount h nameCount' <> None)
        \/ isIdName e = false)
    /\ (forall x, ownCount x nameCount <> None ->
                  ownCount x nameCount' <> None).
Proof.
  assert (Grow : forall v x, ownCount x nameCount <> None ->
                             ownCount x ((h, v) :: nameCount) <> None).
  { intros v x O. cbn [ownCount]. destruct (streqb x h); [discriminate|exact O]. }
  assert (Own : forall v, ownCount h ((h, v) :: nameCount) <> None).
  { intros v. cbn [ownCount]. rewrite streqb_refl. discriminate. }
  cbn [dedupNames]. destruct (ownCount h nameCount) as [[k|]|] eqn:O.
  - eexists _, _. split; [reflexivity|]. split; [|apply Grow].
    right. apply renamed_not_id, decimal_nonempty.
  - eexists _, _. split; [reflexivity|]. split; [|auto].
    right. apply renamed_not_id. discriminate.
  - destruct (inheritedName h).
    + eexists _, _. split; [reflexivity|]. split; [|apply Grow].
      right. apply renamed_not_id. discriminate.
    + eexists _, _. split; [reflexivity|]. split; [|apply Grow].
      left. split; [reflexivity|]. split; [reflexivity | apply Own].
Qed.

(** Once [nameCount] owns [id], no name written is an id column. *)
Lemma dedupNames_owned_id (hs : list jsstring) :
  (forall y, In y hs -> isIdName y = true -> y = lit "id") ->
  forall nameCount, ownCount (lit "id") nameCount <> None ->
  forall e, In e (dedupNames nameCount hs) -> isIdName e = false.
Proof.
  induction hs as [|h r IH]; intros Q nc O e I; [destruct I|].
  destruct (dedupNames_step nc h r) as (e0 & nc' & E & Hd & G).
  rewrite E in I. destruct I as [I|I].
  - subst e0. destruct Hd as [(He & Hn & _)|Hd]; [|exact Hd].
    subst e. destruct (isIdName h) eqn:X; [|reflexivity].
    rewrite (Q h (or_introl eq_refl) X) in Hn. congruence.
  - apply (IH (fun y Hy => Q y (or_intror Hy)) nc' (G _ O) e I).
Qed.

(** After the first id column of the de-duplicated names there is no
    other. *)
Lemma dedupNames_one_id (hs : list jsstring) :
  (forall y, In y hs -> isIdName y = true -> y = lit "id") ->
  forall nameCount pre x post,
    dedupNames nameCount hs = pre ++ x :: post -> isIdName x = true ->
    forall y, In y post -> isIdName y = false.
Proof.
  induction hs as [|h r IH]; intros Q nc pre x post E X y I.
  - destruct pre; discriminate E.
  - destruct (dedupNames_step nc h r) as (e0 & nc' & E0 & Hd & G).
    rewrite E0 in E. destruct pre as [|p pre]; cbn [app] in E;
      injection E as E1 E2.
    + subst e0. destruct Hd as [(He & _ & Hn)|Hd]; [|congruence].
      subst x. rewrite (Q h (or_introl eq_refl) X) in Hn.
      apply (dedupNames_owned_id r (fun z Hz => Q z (or_intror Hz))
                                 nc' Hn y).
      rewrite E2. exact I.
    + apply (IH (fun z Hz => Q z (or_intror Hz)) nc' pre x post E2 X y I).
Qed.

Lemma findIndex_from_spec {A : Type} (p : A -> bool) (l : list A) :
  forall i, (0 <= i)%Z ->
    (findIndex_from p i l = (-1)%Z /\ forall y, In y l -> p y = false)
    \/ exists pre x post,
         l = pre ++ x :: post /\ p x = true
         /\ (forall y, In y pre -> p y = false)
         /\ findIndex_from p i l = (i + Z.of_nat (length pre))%Z.
Proof.
  induction l as [|a l IH]; intros i Hi.
  - left. split; [reflexivity | intros y []].
  - cbn [findIndex_from]. destruct (p a) eqn:Pa.
    + right. exists [], a, l. cbn [app length].
      split; [reflexivity|]. split; [exact Pa|]. split; [intros y []|lia].
    + destruct (IH (i + 1)%Z ltac:(lia))
        as [(E & N)|(pre & x & post & E & Px & N & F)].
      * left. split; [exact E|]. intros y [Hy|Hy]; [subst; exact Pa|auto].
      * right. exists (a :: pre), x, post. cbn [app length].
        split; [rewrite E; reflexivity|]. split; [exact Px|].
        split; [intros y [Hy|Hy]; [subst; exact Pa|auto]|].
        rewrite F. lia.
Qed.

Lemma dropIndex_from_at {A : Type} (pre : list A) (x : A) (post : list A) :
  forall i, dropIndex_from i (i + Z.of_nat (length pre)) (pre ++ x :: post)
            = pre ++ post.
Proof.
  induction pre as [|a pre IH]; intros i.
  - cbn [app length dropIndex_from]. rewrite Z.add_0_r, Z.eqb_refl.
    apply dropIndex_from_before. lia.
  - cbn [app length dropIndex_from].
    destruct (Z.eqb_spec i (i + Z.of_nat (S (length pre)))) as [E|E]; [lia|].
    f_equal.
    replace (i + Z.of_nat (S (length pre)))%Z
      with (i + 1 + Z.of_nat (length pre))%Z by lia.
    apply IH.
Qed.

(** X30. With [generateId], the header block always writes one id
    column, and only one: the first output header is [id], and none of
    the others is [id] in any letter case. *)
Theorem readHeaders_single_id_column (rnd : nat -> jsstring)
  (cfg : CleaningConfig) (line0 : jsstring) :
  generateId cfg = true ->
  exists others,
    fileHeaders (readHeaders rnd cfg line0) = lit "id" :: others
    /\ forall y, In y others -> isIdName y = false.
Proof.
  intros G. unfold readHeaders. rewrite G.
  set (names := sanitizeAll rnd 0 _).
  assert (Q : forall y, In y names -> isIdName y = true -> y = lit "id")
    by apply sanitizeAll_id.
  unfold findIndex.
  destruct (findIndex_from_spec isIdName (dedupNames [] names) 0 ltac:(lia))
    as [(E & N)|(pre & x & post & E & Px & N & F)].
  - rewrite E. cbn [Z.eqb fileHeaders]. eexists. split; [reflexivity|exact N].
  - rewrite F.
    destruct (Z.eqb_spec (0 + Z.of_nat (length pre)) (-1)) as [C|_]; [lia|].
    cbn [fileHeaders]. eexists. split; [reflexivity|].
    unfold dropIndex. rewrite E, dropIndex_from_at.
    intros y I. apply in_app_or in I. destruct I as [I|I]; [auto|].
    exact (dedupNames_one_id names Q [] pre x post E Px y I).
Qed.

Lemma readHeaders_single_id_column_witness :
  exists others,
    fileHeaders (readHeaders noRandom dedupConfig (lit "name,ID,id,Id"))
    = lit "id" :: others
    /\ forall y, In y others -> isIdName y = false.
Proof.
  apply (readHeaders_single_id_column noRandom dedupConfig
           (lit "name,ID,id,Id")).
  reflexivity.
Defined.
